(** * Kindergarten kitchen inventory: the serving and estimation core

    A shallow embedding of [backend/app/crud.py], [backend/app/tasks.py],
    the request schemas of [backend/app/schemas.py] and the tables of
    [backend/app/models.py], with the properties of the inventory
    consumption and portion-estimation engine stated over it.

    Modelling conventions.
    - A table is the list of its rows in storage order; [select(T).where(c)]
      is [filter], [.first()] is the head of the filtered list, [.all()]
      the filtered list.
    - [Float] columns and the floats of a request body are IEEE 754
      doubles ([float]): not-a-number, the two infinities, and the finite
      values [m * 2^e] in canonical form.  The arithmetic of the code
      ([-], [/], [+], [abs], the comparisons, [math.floor]) is Python's:
      correctly rounded to the nearest double, ties to even.  The sign of
      a zero is not kept: no operation the code applies tells [-0.0] from
      [0.0] (the one that could, a division by zero, raises in Python).
    - An [Integer] column holds a value of the [int4] range, and its
      sequence is the server's: what a refused or abandoned transaction
      drew from it is not given back.
    - A coroutine [async def f(db, ...)] is a computation in the monad [M]
      over a [world]: the rows the database server holds ([committed]), the
      view of the open [AsyncSession] ([session]: the committed rows plus
      the pending changes of the unit of work), the trace of outward
      effects, and the clock.
    - Exceptions are the [Raise] results of [M]; [try/except] and
      [try/finally] are combinators. *)

From Stdlib Require Import ZArith QArith Qround Qabs Qpower Lqa.
From Stdlib Require Import List String Bool Lia Eqdep_dec.
From Stdlib Require Import DecimalString.
Import ListNotations.

Local Open Scope string_scope.
Local Open Scope Z_scope.

(** ** Floats: IEEE 754 binary64

    A finite double is [m * 2^e] with [|m| < 2^53] and exponent
    [-1074 <= e <= 971], the significand having its leading bit set unless
    the exponent is the smallest one (the subnormal numbers and zero).
    This form is unique, so two finite doubles are equal exactly when
    their significands and exponents are. *)

Definition canonical (m e : Z) : bool :=
  (Z.abs m <? 2 ^ 53)
  && ((e =? -1074)
      || ((-1074 <? e) && (e <=? 971) && (2 ^ 52 <=? Z.abs m))).

Inductive float : Set :=
| NaN
| Inf (negative : bool)
| Fin (m e : Z) (canon : canonical m e = true).

(** The rational a finite double stands for. *)
Definition F2Q (m e : Z) : Q := (inject_Z m * 2 ^ e)%Q.

Definition zero : float := Fin 0 (-1074) eq_refl.

Definition mkfin (m e : Z) : float :=
  match canonical m e as b return canonical m e = b -> float with
  | true => fun canon => Fin m e canon
  | false => fun _ => NaN
  end eq_refl.

(** Comparison of two rationals, [x < y]. *)
Definition Qlt_bool (x y : Q) : bool := negb (Qle_bool y x).

(** [floor(log2 a)] for a positive rational [a]. *)
Definition ilog2 (a : Q) : Z :=
  let k := Z.log2 (Qnum a) - Z.log2 (Zpos (Qden a)) in
  if Qle_bool (2 ^ k) a then k else k - 1.

(** The integer nearest to [x], the even one of two that are equally
    near. *)
Definition rne (x : Q) : Z :=
  let f := Qfloor x in
  match (x - inject_Z f ?= 1 # 2)%Q with
  | Lt => f
  | Gt => f + 1
  | Eq => if Z.even f then f else f + 1
  end.

(** The significand and the exponent of the double nearest to [a], for
    [a] not negative: 53 bits below the leading one, or the bits above
    [2^-1074] when there are fewer. *)
Definition round_pos (a : Q) : Z * Z :=
  let e := Z.max (ilog2 a - 52) (-1074) in
  let m := rne (a / 2 ^ e) in
  if m =? 2 ^ 53 then (2 ^ 52, e + 1) else (m, e).

(** The double nearest to a rational; beyond the largest finite double,
    the infinity of its sign. *)
Definition round (x : Q) : float :=
  let '(m, e) := round_pos (Qabs x) in
  if m =? 0 then zero
  else if 971 <? e then Inf (Qlt_bool x 0)
  else mkfin (if Qlt_bool x 0 then - m else m) e.

(** The order of the doubles; a NaN is not comparable. *)
Definition fcmp (x y : float) : option comparison :=
  match x, y with
  | NaN, _ | _, NaN => None
  | Inf s1, Inf s2 =>
      Some (if s1 then if s2 then Eq else Lt else if s2 then Gt else Eq)
  | Inf s, Fin _ _ _ => Some (if s then Lt else Gt)
  | Fin _ _ _, Inf s => Some (if s then Gt else Lt)
  | Fin m1 e1 _, Fin m2 e2 _ => Some (F2Q m1 e1 ?= F2Q m2 e2)%Q
  end.

(** [x < y], [x <= y], [x == y] and [x != y] of Python. *)
Definition flt (x y : float) : bool :=
  match fcmp x y with Some Lt => true | _ => false end.

Definition fle (x y : float) : bool :=
  match fcmp x y with Some Lt | Some Eq => true | _ => false end.

Definition feq (x y : float) : bool :=
  match fcmp x y with Some Eq => true | _ => false end.

Definition fne (x y : float) : bool := negb (feq x y).

(** [x - y]. *)
Definition fsub (x y : float) : float :=
  match x, y with
  | NaN, _ | _, NaN => NaN
  | Inf s1, Inf s2 => if Bool.eqb s1 s2 then NaN else Inf s1
  | Inf s, Fin _ _ _ => Inf s
  | Fin _ _ _, Inf s => Inf (negb s)
  | Fin m1 e1 _, Fin m2 e2 _ => round (F2Q m1 e1 - F2Q m2 e2)
  end.

(** [x + y]. *)
Definition fadd (x y : float) : float :=
  match x, y with
  | NaN, _ | _, NaN => NaN
  | Inf s1, Inf s2 => if Bool.eqb s1 s2 then Inf s1 else NaN
  | Inf s, Fin _ _ _ | Fin _ _ _, Inf s => Inf s
  | Fin m1 e1 _, Fin m2 e2 _ => round (F2Q m1 e1 + F2Q m2 e2)
  end.

(** [x * y]. *)
Definition fmul (x y : float) : float :=
  match x, y with
  | NaN, _ | _, NaN => NaN
  | Inf s1, Inf s2 => Inf (xorb s1 s2)
  | Inf s, Fin m _ _ | Fin m _ _, Inf s =>
      if m =? 0 then NaN else Inf (xorb s (m <? 0))
  | Fin m1 e1 _, Fin m2 e2 _ => round (F2Q m1 e1 * F2Q m2 e2)
  end.

(** The quotient [x / y] for a divisor that is not zero (Python raises
    [ZeroDivisionError] on a zero divisor, see [truediv]). *)
Definition fdiv (x y : float) : float :=
  match x, y with
  | NaN, _ | _, NaN => NaN
  | Inf _, Inf _ => NaN
  | Inf s, Fin m _ _ => Inf (xorb s (m <? 0))
  | Fin _ _ _, Inf _ => zero
  | Fin m1 e1 _, Fin m2 e2 _ => round (F2Q m1 e1 / F2Q m2 e2)
  end.

(** [abs(x)]. *)
Definition fabs (x : float) : float :=
  match x with
  | NaN => NaN
  | Inf _ => Inf false
  | Fin m e _ => mkfin (Z.abs m) e
  end.


(** The order PostgreSQL sorts and compares [double precision] by: NaN is
    equal to itself and greater than every other value. *)
Definition pg_lt (x y : float) : bool :=
  match x, y with
  | NaN, _ => false
  | _, NaN => true
  | _, _ => flt x y
  end.

(** The double a decimal literal or a JSON number denotes, and the double
    of an [int] where a float is expected ([float(n)]). *)
Definition float_of_Q (q : Q) : float := round q.

Definition float_of_Z (z : Z) : float := round (inject_Z z).

Coercion float_of_Z : Z >-> float.

(** [a / b] on two [int]s, for [b] not zero: the double nearest to the
    exact quotient. *)
Definition int_truediv (a b : Z) : float := round (inject_Z a / inject_Z b).

(** ** Tables ([app/models.py]) *)

Definition datetime := Z.

Record Product := mkProduct {
  p_id            : Z;
  p_name          : string;
  p_quantity      : float;
  p_delivery_date : option datetime;
  p_threshold     : float
}.

Record Meal := mkMeal {
  m_id   : Z;
  m_name : string
}.

Record MealIngredient := mkMealIngredient {
  mi_meal_id    : Z;
  mi_product_id : Z;
  mi_quantity   : float
}.

Record MealServing := mkMealServing {
  ms_id        : Z;
  ms_meal_id   : Z;
  ms_user_id   : Z;
  ms_timestamp : datetime
}.

Record InventoryLog := mkInventoryLog {
  il_id          : Z;
  il_product_id  : Z;
  il_change_type : string;
  il_quantity    : float;
  il_timestamp   : datetime;
  il_user_id     : Z
}.

(** The rows of the five tables the core touches, and the sequences that
    feed the integer primary keys. *)
Record database := mkDatabase {
  products           : list Product;
  meals              : list Meal;
  meal_ingredients   : list MealIngredient;
  meal_servings      : list MealServing;
  inventory_logs     : list InventoryLog;
  products_id_seq       : Z;
  meals_id_seq          : Z;
  meal_servings_id_seq  : Z;
  inventory_logs_id_seq : Z
}.

Definition with_products (ps : list Product) (d : database) : database :=
  mkDatabase ps (meals d) (meal_ingredients d) (meal_servings d)
    (inventory_logs d) (products_id_seq d) (meals_id_seq d)
    (meal_servings_id_seq d) (inventory_logs_id_seq d).

Definition insert_product (p : Product) (d : database) : database :=
  mkDatabase (products d ++ [p]) (meals d) (meal_ingredients d)
    (meal_servings d) (inventory_logs d) (products_id_seq d + 1)
    (meals_id_seq d) (meal_servings_id_seq d) (inventory_logs_id_seq d).

Definition insert_meal (m : Meal) (d : database) : database :=
  mkDatabase (products d) (meals d ++ [m]) (meal_ingredients d)
    (meal_servings d) (inventory_logs d) (products_id_seq d)
    (meals_id_seq d + 1) (meal_servings_id_seq d) (inventory_logs_id_seq d).

Definition insert_meal_ingredient (i : MealIngredient) (d : database)
  : database :=
  mkDatabase (products d) (meals d) (meal_ingredients d ++ [i])
    (meal_servings d) (inventory_logs d) (products_id_seq d)
    (meals_id_seq d) (meal_servings_id_seq d) (inventory_logs_id_seq d).

Definition insert_meal_serving (s : MealServing) (d : database) : database :=
  mkDatabase (products d) (meals d) (meal_ingredients d)
    (meal_servings d ++ [s]) (inventory_logs d) (products_id_seq d)
    (meals_id_seq d) (meal_servings_id_seq d + 1) (inventory_logs_id_seq d).

Definition insert_inventory_log (l : InventoryLog) (d : database)
  : database :=
  mkDatabase (products d) (meals d) (meal_ingredients d) (meal_servings d)
    (inventory_logs d ++ [l]) (products_id_seq d) (meals_id_seq d)
    (meal_servings_id_seq d) (inventory_logs_id_seq d + 1).

(** [.first()] of a filtered select. *)
Definition first {A : Type} (c : A -> bool) (rows : list A) : option A :=
  hd_error (filter c rows).

Definition product_by_id (pid : Z) (d : database) : option Product :=
  first (fun p => p_id p =? pid) (products d).

Definition meal_by_id (mid : Z) (d : database) : option Meal :=
  first (fun m => m_id m =? mid) (meals d).

Definition ingredients_of (mid : Z) (d : database) : list MealIngredient :=
  filter (fun i => mi_meal_id i =? mid) (meal_ingredients d).

Definition servings_of (mid : Z) (d : database) : list MealServing :=
  filter (fun s => ms_meal_id s =? mid) (meal_servings d).

(** An attribute assignment on a loaded [Product]: the identity map of the
    session holds one object per primary key, the first row with that id. *)
Fixpoint update_first (pid : Z) (f : Product -> Product)
  (rows : list Product) : list Product :=
  match rows with
  | [] => []
  | p :: rest =>
      if p_id p =? pid then f p :: rest
      else p :: update_first pid f rest
  end.

Definition set_quantity (q : float) (p : Product) : Product :=
  mkProduct (p_id p) (p_name p) q (p_delivery_date p) (p_threshold p).

(** ** Declared constraints

    The primary keys and the two [unique=True] names of [models.py]; a
    flush that would break one raises [IntegrityError] carrying the name of
    the constraint.  Foreign keys are not enforced in the model: the code
    guards against missing products itself, and the SQLite database of the
    test suite does not enforce them either. *)

Fixpoint distinct {A : Type} (eqb : A -> A -> bool) (l : list A) : bool :=
  match l with
  | [] => true
  | x :: rest => negb (existsb (eqb x) rest) && distinct eqb rest
  end.

Definition ingredient_key (i : MealIngredient) : Z * Z :=
  (mi_meal_id i, mi_product_id i).

Definition key_eqb (a b : Z * Z) : bool :=
  (fst a =? fst b) && (snd a =? snd b).

Definition violated_constraint (d : database) : option string :=
  if negb (distinct Z.eqb (map p_id (products d))) then Some "products_pkey"
  else if negb (distinct String.eqb (map p_name (products d)))
  then Some "products_name_key"
  else if negb (distinct Z.eqb (map m_id (meals d))) then Some "meals_pkey"
  else if negb (distinct String.eqb (map m_name (meals d)))
  then Some "meals_name_key"
  else if negb (distinct key_eqb (map ingredient_key (meal_ingredients d)))
  then Some "meal_ingredients_pkey"
  else if negb (distinct Z.eqb (map ms_id (meal_servings d)))
  then Some "meal_servings_pkey"
  else if negb (distinct Z.eqb (map il_id (inventory_logs d)))
  then Some "inventory_logs_pkey"
  else None.

(** ** Exceptions, effects and the coroutine monad *)

Inductive exn :=
| HTTPException (status_code : Z) (detail : string)
| IntegrityError (orig : string)
| AttributeError (msg : string)
| TypeError (msg : string)
| OverflowError (msg : string)
| ValueError (msg : string)
| ZeroDivisionError (msg : string)
| DBAPIError (msg : string)
| ResponseValidationError (msg : string)
| Exception (msg : string).

(** The text published by [serve_meal],
    [f"Inventory updated: {ingredient.quantity}g of {ingredient.product_id}"],
    kept as the two values it is formatted from. *)
Record notification := mkNotification {
  n_quantity   : float;
  n_product_id : Z
}.

Inductive event :=
| EPublish (channel : string) (message : notification)
| ECommit.

Record world := mkWorld {
  committed : database;
  session   : database;
  trace     : list event;
  clock     : nat -> datetime;
  reads     : nat
}.

Inductive result (A : Type) :=
| Ok (a : A)
| Raise (e : exn).
Arguments Ok {A} a.
Arguments Raise {A} e.

Definition M (A : Type) : Type := world -> result A * world.

Definition ret {A : Type} (a : A) : M A := fun w => (Ok a, w).

Definition bind {A B : Type} (m : M A) (k : A -> M B) : M B :=
  fun w => match m w with
           | (Ok a, w') => k a w'
           | (Raise e, w') => (Raise e, w')
           end.

Definition raise {A : Type} (e : exn) : M A := fun w => (Raise e, w).

Declare Scope coroutine_scope.
Delimit Scope coroutine_scope with coroutine.
Notation "x <- m ;; k" := (bind m (fun x => k))
  (at level 61, m at next level, right associativity) : coroutine_scope.
Notation "m ;; k" := (bind m (fun _ => k))
  (at level 61, right associativity) : coroutine_scope.
Local Open Scope coroutine_scope.

(** [try: body except Exception as e: handler e]. *)
Definition try_except {A : Type} (body : M A) (handler : exn -> M A) : M A :=
  fun w => match body w with
           | (Ok a, w') => (Ok a, w')
           | (Raise e, w') => handler e w'
           end.

(** [try: body finally: cleanup]; an exception of the cleanup replaces the
    outcome of the body. *)
Definition try_finally {A : Type} (body : M A) (cleanup : M unit) : M A :=
  fun w => match body w with
           | (r, w') =>
               match cleanup w' with
               | (Ok _, w'') => (r, w'')
               | (Raise e, w'') => (Raise e, w'')
               end
           end.

(** [for x in xs: body x]. *)
Fixpoint for_each {A : Type} (xs : list A) (body : A -> M unit) : M unit :=
  match xs with
  | [] => ret tt
  | x :: rest => body x ;; for_each rest body
  end.

(** A loop that updates a local variable: [for x in xs: s = body s x]. *)
Fixpoint for_fold {A S : Type} (xs : list A) (s : S) (body : S -> A -> M S)
  : M S :=
  match xs with
  | [] => ret s
  | x :: rest => s' <- body s x ;; for_fold rest s' body
  end.

(** *** Session and environment primitives *)

Definition set_session (d : database) (w : world) : world :=
  mkWorld (committed w) d (trace w) (clock w) (reads w).

(** A read of the session. *)
Definition query {A : Type} (f : database -> A) : M A :=
  fun w => (Ok (f (session w)), w).

(** A pending change of the unit of work. *)
Definition modify (f : database -> database) : M unit :=
  fun w => (Ok tt, set_session (f (session w)) w).

(** [datetime.utcnow()] / [datetime.now(timezone.utc)]: the next reading of
    the clock. *)
Definition utcnow : M datetime :=
  fun w => (Ok (clock w (reads w)),
            mkWorld (committed w) (session w) (trace w) (clock w)
              (S (reads w))).

(** The tables of [d] with the sequences of [s]. *)
Definition with_sequences_of (s d : database) : database :=
  mkDatabase (products d) (meals d) (meal_ingredients d) (meal_servings d)
    (inventory_logs d) (products_id_seq s) (meals_id_seq s)
    (meal_servings_id_seq s) (inventory_logs_id_seq s).

(** [await db.flush()]: the pending changes reach the server, which checks
    the declared constraints.  The session is made with [autoflush=False]
    ([database.py], line 23), so this and [commit] are the only places
    where statements are sent.  The INSERTs draw their ids from the
    sequences of the server, and a sequence does not take part in the
    transaction: whether the flush is accepted or refused, the server keeps
    the sequences as the INSERTs left them. *)
Definition flush : M unit :=
  fun w =>
    let w' := mkWorld (with_sequences_of (session w) (committed w))
                (session w) (trace w) (clock w) (reads w) in
    match violated_constraint (session w) with
    | Some c => (Raise (IntegrityError c), w')
    | None => (Ok tt, w')
    end.

(** [await db.commit()]: flush, then make the session's rows the server's. *)
Definition commit : M unit :=
  flush ;;
  fun w => (Ok tt, mkWorld (session w) (session w) (trace w ++ [ECommit])
                     (clock w) (reads w)).

(** [await db.rollback()]: the pending changes are dropped. *)
Definition rollback : M unit :=
  fun w => (Ok tt, set_session (committed w) w).

(** [await redis_client.publish(channel, message)]. *)
Definition publish (channel : string) (message : notification) : M unit :=
  fun w => (Ok tt, mkWorld (committed w) (session w)
                     (trace w ++ [EPublish channel message])
                     (clock w) (reads w)).

(** [get_db] / [get_db_sync] of [app/database.py]: the handler runs in a
    session of its own, opened on the committed rows and closed when the
    handler returns or raises; closing drops whatever was not committed. *)
Definition get_db {A : Type} (handler : M A) : M A :=
  fun w => match handler (set_session (committed w) w) with
           | (r, w') => (r, set_session (committed w') w')
           end.

Definition string_of_Z (z : Z) : string :=
  NilZero.string_of_int (Z.to_int z).

(** Python's [needle in haystack] on strings. *)
Definition contains (needle haystack : string) : bool :=
  match index 0 needle haystack with
  | Some _ => true
  | None => false
  end.

(** ** Request schemas ([app/schemas.py]) *)

Record ProductCreate := mkProductCreate {
  pc_name          : string;
  pc_quantity      : float;
  pc_threshold     : float;
  pc_delivery_date : option datetime
}.

(** [schemas.MealIngredient], the ingredient of a request body. *)
Record MealIngredientBase := mkMealIngredientBase {
  mib_meal_id    : Z;
  mib_product_id : Z;
  mib_quantity   : float
}.

Record MealCreate := mkMealCreate {
  mc_name        : string;
  mc_ingredients : list MealIngredientBase
}.

Record MealServingCreate := mkMealServingCreate {
  msc_meal_id : Z
}.

Record PortionEstimate := mkPortionEstimate {
  pe_meal_id  : Z;
  pe_name     : string;
  pe_portions : Z
}.

(** [quantity: float = Field(ge=0)], [threshold: float = Field(ge=0)]. *)
Definition ProductCreate_valid (product : ProductCreate) : bool :=
  fle zero (pc_quantity product) && fle zero (pc_threshold product).

Definition MealCreate_valid (meal : MealCreate) : bool :=
  forallb (fun i => fle zero (mib_quantity i)) (mc_ingredients meal).

(** ** Adding rows to the session

    [db.add(Row(...))].  A row with an integer primary key is given the
    next value of the sequence of its table, which is the value the INSERT
    of the next flush draws; the server's sequence moves at that flush
    ([flush]), and a session closed without a flush draws nothing. *)

Definition add_Product (name : string) (quantity threshold : float)
  (delivery_date : option datetime) : M Product :=
  fun w =>
    let d := session w in
    let row := mkProduct (products_id_seq d) name quantity delivery_date
                 threshold in
    (Ok row, set_session (insert_product row d) w).

Definition add_Meal (name : string) : M Meal :=
  fun w =>
    let d := session w in
    let row := mkMeal (meals_id_seq d) name in
    (Ok row, set_session (insert_meal row d) w).

Definition add_MealIngredient (meal_id product_id : Z) (quantity : float)
  : M unit :=
  modify (insert_meal_ingredient
            (mkMealIngredient meal_id product_id quantity)).

Definition add_MealServing (meal_id user_id : Z) (timestamp : datetime)
  : M MealServing :=
  fun w =>
    let d := session w in
    let row := mkMealServing (meal_servings_id_seq d) meal_id user_id
                 timestamp in
    (Ok row, set_session (insert_meal_serving row d) w).

Definition add_InventoryLog (product_id : Z) (change_type : string)
  (quantity : float) (timestamp : datetime) (user_id : Z) : M unit :=
  fun w =>
    let d := session w in
    let row := mkInventoryLog (inventory_logs_id_seq d) product_id
                 change_type quantity timestamp user_id in
    (Ok tt, set_session (insert_inventory_log row d) w).

(** [await db.refresh(obj)]: the attributes are reloaded from the rows just
    written, so the object is the one that was added. *)
Definition refresh {A : Type} (obj : A) : M A := ret obj.

(** *** Coroutines that are called but not awaited

    Calling an [async def] builds a coroutine object and runs none of its
    body.  [AsyncSession.delete] is declared [async def]; [crud.py] calls it
    as [db.delete(obj)] and drops the object.  [tasks.py] calls the
    coroutine function [get_portion_estimates] from synchronous code and
    iterates over the object. *)

Record coroutine (A : Type) := mkCoroutine { cr_body : M A }.
Arguments mkCoroutine {A} cr_body.

Definition call_without_await {A : Type} (body : M A) : coroutine A :=
  mkCoroutine body.

Definition drop_coroutine {A : Type} (c : coroutine A) : M unit := ret tt.

Definition iter_coroutine {A B : Type} (c : coroutine A) : M (list B) :=
  raise (TypeError "'coroutine' object is not iterable").

(** [AsyncSession.delete(instance)], the coroutine. *)
Definition AsyncSession_delete_Product (p : Product) : M unit :=
  modify (fun d =>
    with_products (filter (fun r => negb (p_id r =? p_id p)) (products d)) d).

Definition AsyncSession_delete_Meal (m : Meal) : M unit :=
  modify (fun d =>
    mkDatabase (products d)
      (filter (fun r => negb (m_id r =? m_id m)) (meals d))
      (meal_ingredients d) (meal_servings d) (inventory_logs d)
      (products_id_seq d) (meals_id_seq d) (meal_servings_id_seq d)
      (inventory_logs_id_seq d)).

(** *** [select(MealIngredient).where(...).delete()]

    A [Select] construct of SQLAlchemy 2 has no attribute [delete] (the
    method belongs to tables and to the legacy [Query]): evaluating the
    argument of [db.execute] raises [AttributeError] before any statement
    reaches the session. *)

Inductive statement :=
| DeleteMealIngredients (meal_id : Z).

Definition Select_delete (meal_id : Z) : M statement :=
  raise (AttributeError "'Select' object has no attribute 'delete'").

Definition execute (s : statement) : M unit :=
  match s with
  | DeleteMealIngredients meal_id =>
      modify (fun d =>
        mkDatabase (products d) (meals d)
          (filter (fun i => negb (mi_meal_id i =? meal_id))
             (meal_ingredients d))
          (meal_servings d) (inventory_logs d)
          (products_id_seq d) (meals_id_seq d) (meal_servings_id_seq d)
          (inventory_logs_id_seq d))
  end.

(** ** [app/crud.py] *)

Definition create_product (product : ProductCreate) : M Product :=
  now <- utcnow ;;
  db_product <- add_Product (pc_name product) (pc_quantity product)
                  (pc_threshold product) (Some now) ;;
  flush ;;
  now' <- utcnow ;;
  add_InventoryLog (p_id db_product) "delivery" (pc_quantity product) now' 1 ;;
  try_except commit
    (fun e =>
       match e with
       | IntegrityError orig =>
           rollback ;;
           if contains "products_name_key" orig
           then raise (HTTPException 400
                         "A product with that name already exists")
           else raise e
       | _ => raise e
       end) ;;
  refresh db_product.

(** The range of an [Integer] column, PostgreSQL's [int4]. *)
Definition int4 (z : Z) : bool :=
  (-2147483648 <=? z) && (z <=? 2147483647).

(** [select(T).where(T.column == id)] with [id] from the request, where
    the column is an [Integer].  The driver encodes the parameter as
    [int4] and refuses a value outside the range: the statement is not
    sent and [execute] raises [DBAPIError].  A row holds values of the
    range, so the refusal is what a lookup that finds nothing gives for
    such an id; the rows of the table are found as they are. *)
Definition out_of_int4 {A : Type} : M A :=
  raise (DBAPIError "value out of int32 range").

Definition select_first {A : Type} (find : Z -> database -> option A)
  (id : Z) : M (option A) :=
  row <- query (find id) ;;
  match row with
  | Some r => ret (Some r)
  | None => if int4 id then ret None else out_of_int4
  end.

Definition select_all {A : Type} (find : Z -> database -> list A)
  (id : Z) : M (list A) :=
  rows <- query (find id) ;;
  match rows with
  | _ :: _ => ret rows
  | [] => if int4 id then ret [] else out_of_int4
  end.

Definition get_product (product_id : Z) : M (option Product) :=
  select_first product_by_id product_id.

Definition update_product (product_id : Z) (product : ProductCreate)
  : M (option Product) :=
  r <- select_first product_by_id product_id ;;
  match r with
  | None => ret None
  | Some db_product =>
      let old_quantity := p_quantity db_product in
      let db_product' :=
        mkProduct (p_id db_product) (pc_name product) (pc_quantity product)
          (pc_delivery_date product) (pc_threshold product) in
      modify (fun d =>
        with_products
          (update_first product_id (fun _ => db_product') (products d)) d) ;;
      (if fne old_quantity (p_quantity db_product')
       then
         now <- utcnow ;;
         add_InventoryLog product_id
           (if flt old_quantity (p_quantity db_product')
            then "delivery" else "adjustment")
           (fabs (fsub (p_quantity db_product') old_quantity)) now 1
       else ret tt) ;;
      commit ;;
      db_product' <- refresh db_product' ;;
      ret (Some db_product')
  end.

Definition delete_product (product_id : Z) : M (option Product) :=
  r <- select_first product_by_id product_id ;;
  match r with
  | None => ret None
  | Some db_product =>
      now <- utcnow ;;
      add_InventoryLog product_id "removal" (p_quantity db_product) now 1 ;;
      drop_coroutine
        (call_without_await (AsyncSession_delete_Product db_product)) ;;
      commit ;;
      ret (Some db_product)
  end.

Definition create_meal (meal : MealCreate) : M Meal :=
  db_meal <- add_Meal (mc_name meal) ;;
  commit ;;
  db_meal <- refresh db_meal ;;
  for_each (mc_ingredients meal)
    (fun ingredient =>
       product <- select_first product_by_id (mib_product_id ingredient) ;;
       match product with
       | None =>
           raise (HTTPException 422
                    ("Product with id "
                     ++ string_of_Z (mib_product_id ingredient)
                     ++ " not found"))
       | Some _ =>
           add_MealIngredient (m_id db_meal) (mib_product_id ingredient)
             (mib_quantity ingredient)
       end) ;;
  commit ;;
  ret db_meal.

Definition delete_meal (meal_id : Z) : M (option Meal) :=
  r <- select_first meal_by_id meal_id ;;
  match r with
  | None => ret None
  | Some db_meal =>
      servings <- query (servings_of meal_id) ;;
      match servings with
      | _ :: _ =>
          raise (HTTPException 400
                   "Cannot delete meal with existing servings")
      | [] =>
          stmt <- Select_delete meal_id ;;
          execute stmt ;;
          drop_coroutine
            (call_without_await (AsyncSession_delete_Meal db_meal)) ;;
          commit ;;
          ret (Some db_meal)
      end
  end.

(** [redis.from_url] builds a client without talking to the server, and
    [aclose] releases it; neither has an effect the model observes. *)
Definition redis_from_url : M unit := ret tt.
Definition redis_aclose : M unit := ret tt.

Definition notification_of (ingredient : MealIngredient) : notification :=
  mkNotification (mi_quantity ingredient) (mi_product_id ingredient).

(** The body of the loop of [serve_meal] (lines 160 to 172). *)
Definition serve_ingredient (user_id : Z) (ingredient : MealIngredient)
  : M unit :=
  product <- query (product_by_id (mi_product_id ingredient)) ;;
  match product with
  | None => raise (HTTPException 400 "Insufficient quantity for product")
  | Some p =>
      if flt (p_quantity p) (mi_quantity ingredient)
      then raise (HTTPException 400
                    ("Insufficient quantity for " ++ p_name p))
      else
        modify (fun d =>
          with_products
            (update_first (mi_product_id ingredient)
               (set_quantity (fsub (p_quantity p) (mi_quantity ingredient)))
               (products d)) d) ;;
        now <- utcnow ;;
        add_InventoryLog (mi_product_id ingredient) "consumption"
          (mi_quantity ingredient) now user_id ;;
        publish "inventory_updates" (notification_of ingredient)
  end.

Definition serve_meal (meal_serving : MealServingCreate) (user_id : Z)
  : M MealServing :=
  ingredients <- select_all ingredients_of (msc_meal_id meal_serving) ;;
  match ingredients with
  | [] => raise (HTTPException 404 "Meal has no ingredients defined")
  | _ :: _ =>
      redis_from_url ;;
      try_finally
        (for_each ingredients (serve_ingredient user_id) ;;
         now <- utcnow ;;
         serving <- add_MealServing (msc_meal_id meal_serving) user_id now ;;
         commit ;;
         refresh serving)
        redis_aclose
  end.

(** The value of the local [portions]: [float("inf")] until the first
    [min] with an [int]. *)
Inductive pynumber :=
| PyFloatInf
| PyInt (z : Z).

(** [min(portions, avail)]: the later argument is returned only when it is
    strictly smaller. *)
Definition py_min (portions : pynumber) (avail : Z) : pynumber :=
  match portions with
  | PyFloatInf => PyInt avail
  | PyInt z => if avail <? z then PyInt avail else PyInt z
  end.

(** An expression that reads no state and may raise, evaluated inside a
    coroutine. *)
Definition eval {A : Type} (r : result A) : M A := fun w => (r, w).

(** [int(portions)]. *)
Definition py_int (x : pynumber) : result Z :=
  match x with
  | PyFloatInf =>
      Raise (OverflowError "cannot convert float infinity to integer")
  | PyInt z => Ok z
  end.

(** [x / y] on floats. *)
Definition truediv (x y : float) : result float :=
  if feq y zero
  then Raise (ZeroDivisionError "float division by zero")
  else Ok (fdiv x y).

(** [math.floor(x)]: an [int], whatever its size; there is none for an
    infinity or a NaN. *)
Definition math_floor (x : float) : result Z :=
  match x with
  | NaN => Raise (ValueError "cannot convert float NaN to integer")
  | Inf _ =>
      Raise (OverflowError "cannot convert float infinity to integer")
  | Fin m e _ => Ok (Qfloor (F2Q m e))
  end.

(** [floor(product.quantity / ingredient.quantity)
     if ingredient.quantity > 0 else 0]. *)
Definition avail (product : Product) (ingredient : MealIngredient)
  : result Z :=
  if flt zero (mi_quantity ingredient)
  then match truediv (p_quantity product) (mi_quantity ingredient) with
       | Ok quotient => math_floor quotient
       | Raise e => Raise e
       end
  else Ok 0.

(** The inner loop of [get_portion_estimates] (lines 194 to 199). *)
Definition portions_loop (ingredients : list MealIngredient)
  : M pynumber :=
  for_fold ingredients PyFloatInf
    (fun portions ingredient =>
       product <- query (product_by_id (mi_product_id ingredient)) ;;
       match product with
       | Some p =>
           available <- eval (avail p ingredient) ;;
           ret (py_min portions available)
       | None => ret portions
       end).

Definition get_portion_estimates : M (list PortionEstimate) :=
  all_meals <- query meals ;;
  for_fold all_meals ([] : list PortionEstimate)
    (fun estimates meal =>
       ingredients <- query (ingredients_of (m_id meal)) ;;
       match ingredients with
       | [] =>
           ret (estimates
                ++ [mkPortionEstimate (m_id meal) (m_name meal) 0])%list
       | _ :: _ =>
           portions <- portions_loop ingredients ;;
           n <- eval (py_int portions) ;;
           ret (estimates
                ++ [mkPortionEstimate (m_id meal) (m_name meal) n])%list
       end).

(** ** [app/tasks.py] *)

Record discrepancy_report := mkReport {
  dr_start_date         : datetime;
  dr_end_date           : datetime;
  dr_servings           : Z;
  dr_potential_portions : Z;
  dr_discrepancy_rate   : float
}.

(** [timedelta(days=30)], in microseconds. *)
Definition thirty_days : Z := 30 * 86400 * 1000000.

(** [str(e)]. *)
Definition str (e : exn) : string :=
  match e with
  | HTTPException status_code detail =>
      string_of_Z status_code ++ ": " ++ detail
  | IntegrityError orig => orig
  | AttributeError msg => msg
  | TypeError msg => msg
  | OverflowError msg => msg
  | ValueError msg => msg
  | ZeroDivisionError msg => msg
  | DBAPIError msg => msg
  | ResponseValidationError msg => msg
  | Exception msg => msg
  end.

(** [(potential - count) / potential * 100 if potential > 0 else 0]. *)
Definition rate_of (potential_portions servings_count : Z) : float :=
  if 0 <? potential_portions
  then fmul (int_truediv (potential_portions - servings_count)
               potential_portions) 100
  else 0.

Definition calculate_discrepancy_rate : M discrepancy_report :=
  try_finally
    (try_except
       (end_date <- utcnow ;;
        let start_date := end_date - thirty_days in
        servings <- query (fun d =>
          filter (fun s => (start_date <=? ms_timestamp s)
                           && (ms_timestamp s <=? end_date))
            (meal_servings d)) ;;
        let servings_count := Z.of_nat (List.length servings) in
        estimates <- iter_coroutine
                       (call_without_await get_portion_estimates) ;;
        let potential_portions :=
          fold_left Z.add (map pe_portions estimates) 0 in
        let discrepancy_rate := rate_of potential_portions servings_count in
        ret (mkReport start_date end_date servings_count potential_portions
               discrepancy_rate))
       (fun e =>
          raise (Exception
                   ("Failed to calculate discrepancy rate: " ++ str e))))
    rollback.

(** ** The request layer ([app/main.py])

    The body of a request is validated against its schema before the
    handler runs (422 otherwise); the handler checks the role of the
    authenticated user and calls into [crud] with the session of
    [Depends(get_db)]. *)

Record User := mkUser {
  u_id   : Z;
  u_role : string
}.

Definition role_in (roles : list string) (u : User) : bool :=
  existsb (String.eqb (u_role u)) roles.

Definition not_authorized {A : Type} : M A :=
  raise (HTTPException 403 "Not authorized").

Definition unprocessable {A : Type} : M A :=
  raise (HTTPException 422 "Unprocessable Entity").

(** [response_model=ProductSchema]: what the handler returns is validated
    against the schema before it is rendered, and the schema's
    [delivery_date: datetime] refuses [None]; by then the handler has
    committed what it had to write.  (The rendering of the validated
    payload as JSON is not part of the model.) *)
Definition ProductSchema_validate (p : Product) : M Product :=
  match p_delivery_date p with
  | Some _ => ret p
  | None => raise (ResponseValidationError "delivery_date")
  end.

Definition create_new_product (product : ProductCreate) (current_user : User)
  : M Product :=
  if ProductCreate_valid product
  then get_db (if role_in ["admin"; "manager"] current_user
               then created <- create_product product ;;
                    ProductSchema_validate created
               else not_authorized)
  else unprocessable.


Definition update_existing_product (product_id : Z) (product : ProductCreate)
  (current_user : User) : M Product :=
  if ProductCreate_valid product
  then get_db (if role_in ["admin"; "manager"] current_user
               then updated_product <- update_product product_id product ;;
                    match updated_product with
                    | None => raise (HTTPException 404 "Product not found")
                    | Some p => ProductSchema_validate p
                    end
               else not_authorized)
  else unprocessable.

Definition delete_existing_product (product_id : Z) (current_user : User)
  : M string :=
  get_db (if role_in ["admin"; "manager"] current_user
          then product <- delete_product product_id ;;
               match product with
               | None => raise (HTTPException 404 "Product not found")
               | Some _ => ret "Product deleted"
               end
          else not_authorized).

Definition create_new_meal (meal : MealCreate) (current_user : User)
  : M Meal :=
  if MealCreate_valid meal
  then get_db (if role_in ["admin"; "manager"] current_user
               then create_meal meal
               else not_authorized)
  else unprocessable.

Definition delete_existing_meal (meal_id : Z) (current_user : User)
  : M string :=
  get_db (if role_in ["admin"; "manager"] current_user
          then meal <- delete_meal meal_id ;;
               match meal with
               | None => raise (HTTPException 404 "Meal not found")
               | Some _ => ret "Meal deleted"
               end
          else not_authorized).

Definition serve_meal_endpoint (meal_serving : MealServingCreate)
  (current_user : User) : M MealServing :=
  get_db (if role_in ["admin"; "cook"] current_user
          then serve_meal meal_serving (u_id current_user)
          else not_authorized).

Definition get_portion_estimates_endpoint (current_user : User)
  : M (list PortionEstimate) :=
  get_db (if role_in ["admin"; "manager"] current_user
          then get_portion_estimates
          else not_authorized).

(** ** Auxiliary definitions for the statements

    What [serve_meal] does to the session, ingredient by ingredient. *)

(** The test of line 162, passed. *)
Definition sufficient (d : database) (i : MealIngredient) : bool :=
  match product_by_id (mi_product_id i) d with
  | None => false
  | Some p => negb (flt (p_quantity p) (mi_quantity i))
  end.

Definition consume (i : MealIngredient) (rows : list Product)
  : list Product :=
  update_first (mi_product_id i)
    (fun p => set_quantity (fsub (p_quantity p) (mi_quantity i)) p) rows.

(** The session after one ingredient went through lines 164 to 171, read
    number [n] of the clock stamping the ledger entry. *)
Definition consume_db (user_id : Z) (clk : nat -> datetime) (n : nat)
  (i : MealIngredient) (d : database) : database :=
  insert_inventory_log
    (mkInventoryLog (inventory_logs_id_seq d) (mi_product_id i)
       "consumption" (mi_quantity i) (clk n) user_id)
    (with_products (consume i (products d)) d).

Definition publication (i : MealIngredient) : event :=
  EPublish "inventory_updates" (notification_of i).

Definition after_ingredient (user_id : Z) (w : world) (i : MealIngredient)
  : world :=
  mkWorld (committed w)
    (consume_db user_id (clock w) (reads w) i (session w))
    (trace w ++ [publication i]) (clock w) (S (reads w)).

Fixpoint take_while {A : Type} (c : A -> bool) (l : list A) : list A :=
  match l with
  | [] => []
  | x :: rest => if c x then x :: take_while c rest else []
  end.

(** ** Sample data

    The rows seeded by the test suite ([tests/conftest.py]): product Milk
    (100 on hand, threshold 10), meal Breakfast taking 50 of it; with a
    second product and further meals for the cases the tests leave out. *)

Definition sample_clock (n : nat) : datetime := 1000 + Z.of_nat n.

Definition world_of (d : database) : world :=
  mkWorld d d [] sample_clock 0.

Definition milk : Product := mkProduct 1 "Milk" 100 (Some 0) 10.
Definition flour : Product := mkProduct 2 "Flour" 30 (Some 0) 5.

(** Breakfast takes 50 of Milk and 20 of Flour; EmptyMeal has no
    ingredients. *)
Definition kitchen : database :=
  mkDatabase [milk; flour]
    [mkMeal 1 "Breakfast"; mkMeal 2 "EmptyMeal"]
    [mkMealIngredient 1 1 50; mkMealIngredient 1 2 20]
    [] [] 3 3 1 1.

(** The same kitchen with only 10 of Flour left. *)
Definition kitchen_short_of_flour : database :=
  with_products [milk; mkProduct 2 "Flour" 10 (Some 0) 5] kitchen.

(** A meal whose only ingredient names a product that is not there. *)
Definition kitchen_dangling : database :=
  mkDatabase [milk]
    [mkMeal 1 "Breakfast"]
    [mkMealIngredient 1 7 50]
    [] [] 2 2 1 1.

Definition cook : User := mkUser 2 "cook".
Definition admin : User := mkUser 1 "admin".

(** The messages a trace shows on the broadcast channel, oldest first. *)
Definition publications (t : list event) : list notification :=
  flat_map (fun e => match e with
                     | EPublish _ message => [message]
                     | ECommit => []
                     end) t.

(** The session after the loop of [serve_meal] went through [ingredients],
    the first ledger entry stamped by read number [n] of the clock. *)
Fixpoint consume_all (user_id : Z) (clk : nat -> datetime) (n : nat)
  (ingredients : list MealIngredient) (d : database) : database :=
  match ingredients with
  | [] => d
  | i :: rest =>
      consume_all user_id clk (S n) rest (consume_db user_id clk n i d)
  end.

(** What a ledger entry records besides its key and its timestamp. *)
Definition entry_facts (l : InventoryLog) : Z * string * float * Z :=
  (il_product_id l, il_change_type l, il_quantity l, il_user_id l).

(** The declared constraints hold and every sequence is ahead of the keys
    it has handed out. *)
Definition well_formed (d : database) : bool :=
  match violated_constraint d with None => true | Some _ => false end
  && forallb (fun p => p_id p <? products_id_seq d) (products d)
  && forallb (fun m => m_id m <? meals_id_seq d) (meals d)
  && forallb (fun s => ms_id s <? meal_servings_id_seq d) (meal_servings d)
  && forallb (fun l => il_id l <? inventory_logs_id_seq d) (inventory_logs d).

(** ** Sequences of requests

    The four operations that write product quantities, as the request layer
    receives them. *)

Inductive request :=
| CreateProduct (product : ProductCreate) (current_user : User)
| UpdateProduct (product_id : Z) (product : ProductCreate)
    (current_user : User)
| DeleteProduct (product_id : Z) (current_user : User)
| ServeMeal (meal_serving : MealServingCreate) (current_user : User).

(** The world after a request has been answered, whatever the answer. *)
Definition handle (w : world) (req : request) : world :=
  match req with
  | CreateProduct product u => snd (create_new_product product u w)
  | UpdateProduct product_id product u =>
      snd (update_existing_product product_id product u w)
  | DeleteProduct product_id u => snd (delete_existing_product product_id u w)
  | ServeMeal meal_serving u => snd (serve_meal_endpoint meal_serving u w)
  end.

(** [p.quantity >= 0] for every product. *)
Definition stock_nonneg (d : database) : Prop :=
  Forall (fun p => fle zero (p_quantity p) = true) (products d).

(** ** The loops of [get_portion_estimates] as functions of the session

    The loops read the session and write nothing: what they compute is a
    function of the rows. *)

(** What line 198 gives for the ingredients whose product exists, in
    ingredient order. *)
Definition availabilities (d : database) (ingredients : list MealIngredient)
  : list (result Z) :=
  flat_map (fun i => match product_by_id (mi_product_id i) d with
                     | Some p => [avail p i]
                     | None => []
                     end) ingredients.

(** The local [portions] after the inner loop, started at [portions]; the
    exception of the first availability that raises. *)
Fixpoint fold_min (availables : list (result Z)) (portions : pynumber)
  : result pynumber :=
  match availables with
  | [] => Ok portions
  | Ok available :: rest => fold_min rest (py_min portions available)
  | Raise e :: _ => Raise e
  end.

(** The portions line 191 or line 200 appends for a meal. *)
Definition expected_portions (d : database) (meal : Meal) : result Z :=
  match ingredients_of (m_id meal) d with
  | [] => Ok 0
  | i :: rest =>
      match fold_min (availabilities d (i :: rest)) PyFloatInf with
      | Ok portions => py_int portions
      | Raise e => Raise e
      end
  end.

(** The list the outer loop builds, started at [estimates]. *)
Fixpoint expected_estimates (d : database) (all_meals : list Meal)
  (estimates : list PortionEstimate) : result (list PortionEstimate) :=
  match all_meals with
  | [] => Ok estimates
  | meal :: rest =>
      match expected_portions d meal with
      | Ok n =>
          expected_estimates d rest
            (estimates
             ++ [mkPortionEstimate (m_id meal) (m_name meal) n])%list
      | Raise e => Raise e
      end
  end.

Definition minimum (l : list Z) : option Z :=
  match l with
  | [] => None
  | x :: rest => Some (fold_left Z.min rest x)
  end.

(** ** The portion estimate in the words of the specification *)





(** Milk is in stock, product 7 is not: a meal that lists both. *)
Definition kitchen_half_dangling : database :=
  mkDatabase [milk]
    [mkMeal 1 "Breakfast"]
    [mkMealIngredient 1 7 50; mkMealIngredient 1 1 30]
    [] [] 2 2 1 1.

(** A request for a meal "Lunch" of 5 of Milk and 1 of product 99, which
    does not exist. *)
Definition lunch_with_unknown_product : MealCreate :=
  mkMealCreate "Lunch"
    [mkMealIngredientBase 0 1 5; mkMealIngredientBase 0 99 1].

(** The kitchen after Breakfast was served once by the cook. *)
Definition kitchen_served : database :=
  insert_meal_serving (mkMealServing 1 1 2 900) kitchen.

(** ** Predicates of the statements *)

(** The declared constraints hold and the sequences are ahead of the keys,
    field by field ([well_formed] is its boolean form). *)
Record wf (d : database) : Prop := mkWf {
  wf_products_pkey : distinct Z.eqb (map p_id (products d)) = true;
  wf_products_name : distinct String.eqb (map p_name (products d)) = true;
  wf_meals_pkey : distinct Z.eqb (map m_id (meals d)) = true;
  wf_meals_name : distinct String.eqb (map m_name (meals d)) = true;
  wf_ingredients_pkey :
    distinct key_eqb (map ingredient_key (meal_ingredients d)) = true;
  wf_servings_pkey : distinct Z.eqb (map ms_id (meal_servings d)) = true;
  wf_logs_pkey : distinct Z.eqb (map il_id (inventory_logs d)) = true;
  wf_products_seq :
    forallb (fun p => p_id p <? products_id_seq d) (products d) = true;
  wf_meals_seq :
    forallb (fun m => m_id m <? meals_id_seq d) (meals d) = true;
  wf_servings_seq :
    forallb (fun s => ms_id s <? meal_servings_id_seq d) (meal_servings d)
    = true;
  wf_logs_seq :
    forallb (fun l => il_id l <? inventory_logs_id_seq d) (inventory_logs d)
    = true
}.

(** [m] keeps [I]: run on a world whose committed rows and session satisfy
    [I], it leaves both satisfying [I], whether it returns or raises. *)
Definition keeps (I : database -> Prop) {A : Type} (m : M A) : Prop :=
  forall w, I (committed w) -> I (session w) ->
            I (committed (snd (m w))) /\ I (session (snd (m w))).

(** ** The rest of [app/crud.py], [app/tasks.py] and the request layer *)

Definition get_meal (meal_id : Z) : M (option Meal) :=
  select_first meal_by_id meal_id.

(** [db_meal.name = meal.name] on the loaded meal, the first row with that
    id. *)
Fixpoint rename_first (mid : Z) (name : string) (rows : list Meal)
  : list Meal :=
  match rows with
  | [] => []
  | m :: rest =>
      if m_id m =? mid then mkMeal (m_id m) name :: rest
      else m :: rename_first mid name rest
  end.

Definition with_meals (ms : list Meal) (d : database) : database :=
  mkDatabase (products d) ms (meal_ingredients d) (meal_servings d)
    (inventory_logs d) (products_id_seq d) (meals_id_seq d)
    (meal_servings_id_seq d) (inventory_logs_id_seq d).

(** [update_meal] (lines 113 to 131): the statement that is to remove the
    old ingredients is built with [Select_delete], as in [delete_meal]. *)
Definition update_meal (meal_id : Z) (meal : MealCreate) : M (option Meal) :=
  r <- select_first meal_by_id meal_id ;;
  match r with
  | None => ret None
  | Some db_meal =>
      let db_meal' := mkMeal (m_id db_meal) (mc_name meal) in
      modify (fun d =>
        with_meals (rename_first meal_id (mc_name meal) (meals d)) d) ;;
      stmt <- Select_delete meal_id ;;
      execute stmt ;;
      for_each (mc_ingredients meal)
        (fun ingredient =>
           add_MealIngredient meal_id (mib_product_id ingredient)
             (mib_quantity ingredient)) ;;
      commit ;;
      db_meal' <- refresh db_meal' ;;
      ret (Some db_meal')
  end.


Definition update_existing_meal (meal_id : Z) (meal : MealCreate)
  (current_user : User) : M Meal :=
  if MealCreate_valid meal
  then get_db (if role_in ["admin"; "manager"] current_user
               then updated_meal <- update_meal meal_id meal ;;
                    match updated_meal with
                    | None => raise (HTTPException 404 "Meal not found")
                    | Some m => ret m
                    end
               else not_authorized)
  else unprocessable.

(** [get_notifications] (main.py, line 312): the products below their
    threshold.  The comparison is part of the SELECT, so it is the
    server's. *)
Definition low_inventory (d : database) : list Product :=
  filter (fun p => pg_lt (p_quantity p) (p_threshold p)) (products d).

Record monthly_report := mkMonthlyReport {
  mr_start_date        : datetime;
  mr_end_date          : datetime;
  mr_total_deliveries  : float;
  mr_total_consumption : float
}.

(** The loop of [generate_monthly_report] (lines 29 to 33); the pair is the
    dictionary [report]. *)
Definition add_to_report (report : float * float) (log : InventoryLog)
  : float * float :=
  if String.eqb (il_change_type log) "delivery"
  then (fadd (fst report) (il_quantity log), snd report)
  else if String.eqb (il_change_type log) "consumption"
  then (fst report, fadd (snd report) (il_quantity log))
  else report.

Definition generate_monthly_report : M monthly_report :=
  try_finally
    (try_except
       (end_date <- utcnow ;;
        let start_date := end_date - thirty_days in
        logs <- query (fun d =>
          filter (fun l => (start_date <=? il_timestamp l)
                           && (il_timestamp l <=? end_date))
            (inventory_logs d)) ;;
        let report := fold_left add_to_report logs (zero, zero) in
        ret (mkMonthlyReport start_date end_date (fst report) (snd report)))
       (fun e =>
          raise (Exception
                   ("Failed to generate monthly report: " ++ str e))))
    rollback.

(** Every request that writes, as the request layer receives it. *)
Inductive api_request :=
| PostProduct (product : ProductCreate) (current_user : User)
| PutProduct (product_id : Z) (product : ProductCreate) (current_user : User)
| DeleteProductById (product_id : Z) (current_user : User)
| PostMeal (meal : MealCreate) (current_user : User)
| PutMeal (meal_id : Z) (meal : MealCreate) (current_user : User)
| DeleteMealById (meal_id : Z) (current_user : User)
| PostServeMeal (meal_serving : MealServingCreate) (current_user : User).

(** The answer to a request, without its payload, and the world after it. *)
Definition answer (w : world) (req : api_request) : result unit * world :=
  let forget {A : Type} (x : result A * world) : result unit * world :=
    (match fst x with Ok _ => Ok tt | Raise e => Raise e end, snd x) in
  match req with
  | PostProduct product u => forget (create_new_product product u w)
  | PutProduct product_id product u =>
      forget (update_existing_product product_id product u w)
  | DeleteProductById product_id u =>
      forget (delete_existing_product product_id u w)
  | PostMeal meal u => forget (create_new_meal meal u w)
  | PutMeal meal_id meal u => forget (update_existing_meal meal_id meal u w)
  | DeleteMealById meal_id u => forget (delete_existing_meal meal_id u w)
  | PostServeMeal meal_serving u =>
      forget (serve_meal_endpoint meal_serving u w)
  end.

Definition after (w : world) (req : api_request) : world :=
  snd (answer w req).

(** The role a request needs. *)
Definition allowed_roles (req : api_request) : list string :=
  match req with
  | PostServeMeal _ _ => ["admin"; "cook"]
  | _ => ["admin"; "manager"]
  end.

Definition requester (req : api_request) : User :=
  match req with
  | PostProduct _ u | PutProduct _ _ u | DeleteProductById _ u
  | PostMeal _ u | PutMeal _ _ u | DeleteMealById _ u
  | PostServeMeal _ u => u
  end.

(** A quantity is negative when it is below 0; a NaN is not. *)
Definition negative (x : float) : bool := flt x zero.




(** [i.quantity >= 0] for every ingredient row. *)
Definition ingredients_nonneg (d : database) : Prop :=
  Forall (fun i => fle zero (mi_quantity i) = true) (meal_ingredients d).

(** [l.quantity >= 0] for every entry of the ledger. *)
Definition ledger_nonneg (d : database) : Prop :=
  Forall (fun l => fle zero (il_quantity l) = true) (inventory_logs d).

(** The entries [generate_monthly_report] adds up, and [l.quantity >= 0]
    for each of them. *)
Definition counted (l : InventoryLog) : bool :=
  String.eqb (il_change_type l) "delivery"
  || String.eqb (il_change_type l) "consumption".

Definition counted_nonneg (d : database) : Prop :=
  Forall (fun l => counted l = true -> fle zero (il_quantity l) = true)
    (inventory_logs d).

(** Whether the body of a request passes its schema. *)
Definition body_valid (req : api_request) : bool :=
  match req with
  | PostProduct product _ | PutProduct _ product _ =>
      ProductCreate_valid product
  | PostMeal meal _ | PutMeal _ meal _ => MealCreate_valid meal
  | DeleteProductById _ _ | DeleteMealById _ _ | PostServeMeal _ _ => true
  end.

(** The rows [create_meal] adds for the ingredients of a request, under the
    id of the new meal. *)
Definition ingredient_rows (meal_id : Z) (ingredients : list MealIngredientBase)
  : list MealIngredient :=
  map (fun i => mkMealIngredient meal_id (mib_product_id i) (mib_quantity i))
    ingredients.

Definition append_meal_ingredients (rows : list MealIngredient)
  (d : database) : database :=
  mkDatabase (products d) (meals d) (meal_ingredients d ++ rows)
    (meal_servings d) (inventory_logs d) (products_id_seq d)
    (meals_id_seq d) (meal_servings_id_seq d) (inventory_logs_id_seq d).

(** Every quantity of the database is a number that is 0 or more: stock,
    ingredients, ledger. *)
Definition quantities_nonneg (d : database) : Prop :=
  stock_nonneg d /\ ingredients_nonneg d /\ ledger_nonneg d.


(** [k] requests to serve the same meal, one after the other: the answers
    in order, and the world after the last. *)
Fixpoint serve_repeatedly (k : nat) (meal_serving : MealServingCreate)
  (user_id : Z) (w : world) : list (result MealServing) * world :=
  match k with
  | O => ([], w)
  | S k' =>
      let (r, w1) := get_db (serve_meal meal_serving user_id) w in
      let (rs, w2) := serve_repeatedly k' meal_serving user_id w1 in
      (r :: rs, w2)
  end.

Definition is_serving (r : result MealServing) : bool :=
  match r with
  | Ok _ => true
  | Raise _ => false
  end.

(** ** Quantities of the three kinds

    The rows of a database whose stock, ingredient quantities and ledger
    entries satisfy [P], [Qi] and [L]. *)
Definition quantities (P Qi : float -> Prop) (L : InventoryLog -> Prop)
  (d : database) : Prop :=
  Forall (fun p => P (p_quantity p)) (products d)
  /\ Forall (fun i => Qi (mi_quantity i)) (meal_ingredients d)
  /\ Forall L (inventory_logs d).


(** [float("inf")], which a JSON body spells [Infinity]. *)
Definition infinity : float := Inf false.

(** The kitchen after an admin has entered a product Salt with a stock of
    [Infinity] and a meal Brine that takes [Infinity] of it: both bodies
    pass their schema, [Field(ge=0)] being all it asks of a quantity. *)
Definition salt_body : ProductCreate :=
  mkProductCreate "Salt" infinity 0 None.

Definition brine_body : MealCreate :=
  mkMealCreate "Brine" [mkMealIngredientBase 0 3 infinity].

Definition kitchen_with_brine : database :=
  committed
    (fold_left after [PostProduct salt_body admin; PostMeal brine_body admin]
       (world_of kitchen)).

(** 1 of Sugar, and a meal Tea that takes 0.1 of it. *)
Definition kitchen_tea : database :=
  mkDatabase [mkProduct 1 "Sugar" 1 (Some 0) 0]
    [mkMeal 1 "Tea"]
    [mkMealIngredient 1 1 (float_of_Q 0.1)]
    [] [] 2 2 1 1.


(** Serving has not taken the row [p] off the low-inventory list: [p']
    is the row afterwards, with the id and the threshold of [p], and below
    the threshold when [p] was, the threshold being a number. *)
Definition stays_listed (p p' : Product) : Prop :=
  p_id p' = p_id p
  /\ p_threshold p' = p_threshold p
  /\ (p_threshold p <> NaN ->
      pg_lt (p_quantity p) (p_threshold p) = true ->
      pg_lt (p_quantity p') (p_threshold p') = true).

(** A product with an infinite stock and a threshold that is not a number,
    and a meal that takes an infinite quantity of it. *)
Definition kitchen_without_threshold : database :=
  mkDatabase [mkProduct 1 "Salt" infinity (Some 0) NaN]
    [mkMeal 1 "Brine"]
    [mkMealIngredient 1 1 infinity]
    [] [] 2 2 1 1.

(** * Properties *)

(** ** Comparison of rationals *)

Lemma Qlt_bool_iff (x y : Q) : Qlt_bool x y = true <-> (x < y)%Q.
Proof.
  unfold Qlt_bool. rewrite negb_true_iff. split; intros H.
  - apply Qnot_le_lt. intros Hle. apply Qle_bool_iff in Hle. congruence.
  - destruct (Qle_bool y x) eqn:E; [|reflexivity].
    apply Qle_bool_iff in E. exfalso. exact (Qlt_not_le _ _ H E).
Qed.

Lemma Qlt_bool_false_iff (x y : Q) : Qlt_bool x y = false <-> (y <= x)%Q.
Proof.
  unfold Qlt_bool. rewrite negb_false_iff. apply Qle_bool_iff.
Qed.

(** ** Powers of two *)

Lemma bpow_pos (e : Z) : (0 < 2 ^ e)%Q.
Proof. apply Qpower_0_lt. reflexivity. Qed.

Lemma bpow_add (a b : Z) : (2 ^ (a + b) == 2 ^ a * 2 ^ b)%Q.
Proof. apply Qpower_plus. discriminate. Qed.

Lemma bpow_le (a b : Z) : a <= b -> (2 ^ a <= 2 ^ b)%Q.
Proof. intros H. apply Qpower_le_compat_l; [exact H|discriminate]. Qed.

Lemma bpow_lt (a b : Z) : a < b -> (2 ^ a < 2 ^ b)%Q.
Proof. intros H. apply Qpower_lt_compat_l; [exact H|reflexivity]. Qed.

Lemma bpow_lt_inv (a b : Z) : (2 ^ a < 2 ^ b)%Q -> a < b.
Proof. intros H. apply (Qpower_lt_compat_l_inv 2); [exact H|reflexivity]. Qed.

Lemma bpow_Z (n : Z) : 0 <= n -> (2 ^ n == inject_Z (2 ^ n))%Q.
Proof. intros H. symmetry. apply (Zpower_Qpower 2 n H). Qed.

Lemma bpow_sub (a b : Z) : (2 ^ (a - b) == 2 ^ a / 2 ^ b)%Q.
Proof.
  unfold Z.sub. rewrite bpow_add, Qpower_opp. reflexivity.
Qed.

Lemma inject_Z_le (a b : Z) : a <= b -> (inject_Z a <= inject_Z b)%Q.
Proof. intros H. now rewrite <- Zle_Qle. Qed.

Lemma inject_Z_lt (a b : Z) : a < b -> (inject_Z a < inject_Z b)%Q.
Proof. intros H. now rewrite <- Zlt_Qlt. Qed.

(** ** The binary exponent of a positive rational *)

Lemma ilog2_spec (a : Q) :
  (0 < a)%Q -> (2 ^ ilog2 a <= a /\ a < 2 ^ (ilog2 a + 1))%Q.
Proof.
  intros Ha. destruct a as [n d]. 
  assert (Hn : 0 < n) by (unfold Qlt in Ha; simpl in Ha; lia).
  unfold ilog2. cbn [Qnum Qden].
  set (ln := Z.log2 n). set (ld := Z.log2 (Z.pos d)).
  destruct (Z.log2_spec n Hn) as [Hn1 Hn2]. fold ln in Hn1, Hn2.
  destruct (Z.log2_spec (Z.pos d) eq_refl) as [Hd1 Hd2]. fold ld in Hd1, Hd2.
  assert (Hln : 0 <= ln) by apply Z.log2_nonneg.
  assert (Hld : 0 <= ld) by apply Z.log2_nonneg.
  assert (Ea : (n # d == inject_Z n / inject_Z (Z.pos d))%Q)
    by apply Qmake_Qdiv.
  assert (Hdpos : (0 < inject_Z (Z.pos d))%Q) by reflexivity.
  apply inject_Z_le in Hn1, Hd1. apply inject_Z_lt in Hn2, Hd2.
  rewrite <- bpow_Z in Hn1, Hd1, Hn2, Hd2 by lia.
  replace (Z.succ ln) with (ln + 1) in Hn2 by lia.
  replace (Z.succ ld) with (ld + 1) in Hd2 by lia.
  assert (Hup : (n # d < 2 ^ (ln - ld + 1))%Q).
  { rewrite Ea. replace (ln - ld + 1) with (ln + 1 - ld) by lia.
    rewrite bpow_sub.
    apply Qlt_shift_div_r; [exact Hdpos|].
    pose proof (bpow_pos ld). pose proof (bpow_pos (ln + 1)).
    assert (2 ^ (ln + 1) / 2 ^ ld * 2 ^ ld == 2 ^ (ln + 1))%Q
      by (field; lra).
    assert (0 < 2 ^ (ln + 1) / 2 ^ ld)%Q
      by (apply Qlt_shift_div_l; lra).
    nra. }
  assert (Hlo : (2 ^ (ln - ld - 1) <= n # d)%Q).
  { rewrite Ea. replace (ln - ld - 1) with (ln - (ld + 1)) by lia.
    rewrite bpow_sub.
    apply Qle_shift_div_l; [exact Hdpos|].
    pose proof (bpow_pos (ld + 1)). pose proof (bpow_pos ln).
    assert (2 ^ ln / 2 ^ (ld + 1) * 2 ^ (ld + 1) == 2 ^ ln)%Q
      by (field; lra).
    assert (0 < 2 ^ ln / 2 ^ (ld + 1))%Q
      by (apply Qlt_shift_div_l; lra).
    nra. }
  destruct (Qle_bool (2 ^ (ln - ld)) (n # d)) eqn:E.
  - apply Qle_bool_iff in E. split; assumption.
  - split; [exact Hlo|].
    replace (ln - ld - 1 + 1) with (ln - ld) by lia.
    apply Qnot_le_lt. intros H. apply Qle_bool_iff in H. congruence.
Qed.

Lemma ilog2_unique (a : Q) (k : Z) :
  (2 ^ k <= a)%Q -> (a < 2 ^ (k + 1))%Q -> ilog2 a = k.
Proof.
  intros H1 H2.
  assert (Ha : (0 < a)%Q) by (pose proof (bpow_pos k); lra).
  destruct (ilog2_spec a Ha) as [H3 H4].
  assert (ilog2 a < k + 1) by (apply bpow_lt_inv; lra).
  assert (k < ilog2 a + 1) by (apply bpow_lt_inv; lra).
  lia.
Qed.

Lemma ilog2_mono (a b : Q) : (0 < a)%Q -> (a <= b)%Q -> ilog2 a <= ilog2 b.
Proof.
  intros Ha Hab.
  destruct (ilog2_spec a Ha) as [H1 _].
  destruct (ilog2_spec b) as [_ H2]; [lra|].
  assert (ilog2 a < ilog2 b + 1) by (apply bpow_lt_inv; lra).
  lia.
Qed.

(** ** Rounding to the nearest integer, ties to even *)

Lemma rne_bounds (x : Q) : Qfloor x <= rne x <= Qfloor x + 1.
Proof.
  unfold rne. destruct (_ ?= _)%Q; [destruct (Z.even _)| |]; lia.
Qed.

Lemma rne_mono (x y : Q) : (x <= y)%Q -> rne x <= rne y.
Proof.
  intros Hxy. pose proof (Qfloor_resp_le x y Hxy) as Hf.
  destruct (Z.eq_dec (Qfloor x) (Qfloor y)) as [E|NE].
  - unfold rne. rewrite <- E.
    destruct (Qcompare_spec (x - inject_Z (Qfloor x)) (1 # 2)) as [H1|H1|H1];
      destruct (Qcompare_spec (y - inject_Z (Qfloor x)) (1 # 2)) as [H2|H2|H2];
      try destruct (Z.even (Qfloor x)); try lia; exfalso; lra.
  - pose proof (rne_bounds x). pose proof (rne_bounds y). lia.
Qed.

Lemma rne_Z (n : Z) : rne (inject_Z n) = n.
Proof.
  unfold rne. rewrite Qfloor_Z.
  destruct (Qcompare_spec (inject_Z n - inject_Z n) (1 # 2)) as [H|H|H];
    [exfalso; lra|reflexivity|exfalso; lra].
Qed.

Lemma rne_eq (x y : Q) : (x == y)%Q -> rne x = rne y.
Proof.
  intros H. apply Z.le_antisymm; apply rne_mono; lra.
Qed.

Lemma rne_le_Z (x : Q) (n : Z) : (x <= inject_Z n)%Q -> rne x <= n.
Proof. intros H. rewrite <- (rne_Z n). now apply rne_mono. Qed.

Lemma rne_ge_Z (x : Q) (n : Z) : (inject_Z n <= x)%Q -> n <= rne x.
Proof. intros H. rewrite <- (rne_Z n). now apply rne_mono. Qed.

(** ** Rounding a rational to a double *)

Definition exponent_of (a : Q) : Z := Z.max (ilog2 a - 52) (-1074).

(** The value of the double nearest to [a >= 0], were the exponent
    unbounded above. *)
Definition rval (a : Q) : Q :=
  (inject_Z (rne (a / 2 ^ exponent_of a)) * 2 ^ exponent_of a)%Q.

Lemma F2Q_round_pos (a : Q) :
  (F2Q (fst (round_pos a)) (snd (round_pos a)) == rval a)%Q.
Proof.
  unfold round_pos, rval. fold (exponent_of a).
  destruct (Z.eqb_spec (rne (a / 2 ^ exponent_of a)) (2 ^ 53)) as [E|E];
    cbn [fst snd]; unfold F2Q; [|reflexivity].
  rewrite E, bpow_add.
  change (inject_Z (2 ^ 52)) with (2 ^ 52)%Q.
  change (inject_Z (2 ^ 53)) with (2 ^ 53)%Q.
  change (2 ^ 53)%Q with (2 ^ 52 * 2 ^ 1)%Q. ring.
Qed.

Lemma scaled_bounds (a : Q) :
  (0 < a)%Q ->
  let e := exponent_of a in
  (e = ilog2 a - 52 /\ (2 ^ 52 <= a / 2 ^ e)%Q /\ (a / 2 ^ e < 2 ^ 53)%Q)
  \/ (e = -1074 /\ ilog2 a - 52 < -1074 /\ (a / 2 ^ e < 2 ^ 52)%Q).
Proof.
  intros Ha e. destruct (ilog2_spec a Ha) as [H1 H2].
  pose proof (bpow_pos e) as He.
  unfold exponent_of in e.
  destruct (Z.max_spec (ilog2 a - 52) (-1074)) as [[Hlt Hm]|[Hge Hm]];
    fold e in Hm.
  - right. repeat split; [exact Hm|exact Hlt|].
    apply Qlt_shift_div_r; [exact He|].
    rewrite <- bpow_add.
    apply Qlt_le_trans with (1 := H2). apply bpow_le. lia.
  - left. repeat split; [exact Hm| |].
    + apply Qle_shift_div_l; [exact He|].
      rewrite <- bpow_add. replace (52 + e) with (ilog2 a) by lia. exact H1.
    + apply Qlt_shift_div_r; [exact He|].
      rewrite <- bpow_add. replace (53 + e) with (ilog2 a + 1) by lia.
      exact H2.
Qed.

Lemma round_pos_spec (a : Q) :
  (0 < a)%Q ->
  let m := fst (round_pos a) in
  let e := snd (round_pos a) in
  0 <= m < 2 ^ 53 /\ -1074 <= e /\ (e = -1074 \/ 2 ^ 52 <= m).
Proof.
  intros Ha. pose proof (scaled_bounds a Ha) as Hs. cbv zeta in Hs.
  unfold round_pos. fold (exponent_of a).
  set (e0 := exponent_of a) in *. set (m0 := rne (a / 2 ^ e0)).
  assert (He0 : -1074 <= e0) by (unfold e0, exponent_of; lia).
  assert (Hm0 : 0 <= m0).
  { apply rne_ge_Z. apply Qle_shift_div_l; [apply bpow_pos|].
    change (inject_Z 0) with 0%Q. lra. }
  destruct Hs as [(_ & Hlo & Hhi)|(E & _ & Hhi)].
  - assert (2 ^ 52 <= m0) by (apply rne_ge_Z; exact Hlo).
    assert (m0 <= 2 ^ 53) by (apply rne_le_Z; apply Qlt_le_weak; exact Hhi).
    destruct (Z.eqb_spec m0 (2 ^ 53)); cbn [fst snd]; lia.
  - assert (m0 <= 2 ^ 52) by (apply rne_le_Z; apply Qlt_le_weak; exact Hhi).
    destruct (Z.eqb_spec m0 (2 ^ 53)); cbn [fst snd]; lia.
Qed.

Lemma rval_nonneg (a : Q) : (0 <= a)%Q -> (0 <= rval a)%Q.
Proof.
  intros Ha. unfold rval. apply Qmult_le_0_compat.
  - change 0%Q with (inject_Z 0). apply inject_Z_le. apply rne_ge_Z.
    apply Qle_shift_div_l; [apply bpow_pos|]. change (inject_Z 0) with 0%Q.
    lra.
  - apply Qlt_le_weak, bpow_pos.
Qed.

Lemma rval_mono (a b : Q) : (0 < a)%Q -> (a <= b)%Q -> (rval a <= rval b)%Q.
Proof.
  intros Ha Hab. assert (Hb : (0 < b)%Q) by lra.
  pose proof (ilog2_mono a b Ha Hab) as Hk.
  destruct (ilog2_spec a Ha) as [_ Ha2]. destruct (ilog2_spec b Hb) as [Hb1 _].
  unfold rval.
  set (ea := exponent_of a). set (eb := exponent_of b).
  assert (Hea : -1074 <= ea) by (unfold ea, exponent_of; lia).
  assert (Hle : ea <= eb) by (unfold ea, eb, exponent_of; lia).
  pose proof (bpow_pos ea) as Hpa. pose proof (bpow_pos eb) as Hpb.
  destruct (Z.eq_dec ea eb) as [E|NE].
  - rewrite <- E. apply Qmult_le_compat_r; [|lra].
    apply inject_Z_le, rne_mono.
    apply Qmult_le_compat_r; [exact Hab|].
    apply Qlt_le_weak, Qinv_lt_0_compat, Hpa.
  - assert (Heb : eb = ilog2 b - 52) by (unfold ea, eb, exponent_of in *; lia).
    assert (Hka : ilog2 a + 1 <= ilog2 b)
      by (unfold ea, eb, exponent_of in *; lia).
    apply Qle_trans with (2 ^ ilog2 b)%Q.
    + replace (ilog2 b) with ((ilog2 b - ea) + ea) at 1 by lia.
      rewrite bpow_add. apply Qmult_le_compat_r; [|lra].
      assert (EZ : (2 ^ (ilog2 b - ea) == inject_Z (2 ^ (ilog2 b - ea)))%Q)
        by (apply bpow_Z; lia).
      rewrite EZ. apply inject_Z_le, rne_le_Z. rewrite <- EZ.
      apply Qle_shift_div_r; [exact Hpa|].
      rewrite <- bpow_add. replace (ilog2 b - ea + ea) with (ilog2 b) by lia.
      apply Qlt_le_weak, Qlt_le_trans with (1 := Ha2). apply bpow_le. lia.
    + replace (ilog2 b) with (52 + eb) at 1 by lia.
      rewrite bpow_add. apply Qmult_le_compat_r; [|lra].
      change (2 ^ 52)%Q with (inject_Z (2 ^ 52)).
      apply inject_Z_le, rne_ge_Z.
      apply Qle_shift_div_l; [exact Hpb|].
      change (inject_Z (2 ^ 52)) with (2 ^ 52)%Q.
      rewrite <- bpow_add. replace (52 + eb) with (ilog2 b) by lia.
      exact Hb1.
Qed.

Lemma rval_zero (a : Q) : (a == 0)%Q -> (rval a == 0)%Q.
Proof.
  intros Ha. unfold rval.
  assert (E : rne (a / 2 ^ exponent_of a) = 0).
  { rewrite <- (rne_Z 0). apply rne_eq.
    generalize (2 ^ exponent_of a)%Q. intros c. rewrite Ha.
    change (inject_Z 0) with 0%Q. unfold Qdiv. ring. }
  rewrite E. change (inject_Z 0) with 0%Q. ring.
Qed.

Lemma round_pos_eq (a b : Q) :
  (0 < a)%Q -> (a == b)%Q -> round_pos a = round_pos b.
Proof.
  intros Ha E. unfold round_pos.
  assert (Ek : ilog2 b = ilog2 a).
  { destruct (ilog2_spec a Ha). apply ilog2_unique; lra. }
  rewrite Ek.
  assert (Er : rne (b / 2 ^ Z.max (ilog2 a - 52) (-1074))
               = rne (a / 2 ^ Z.max (ilog2 a - 52) (-1074))).
  { apply rne_eq. generalize (2 ^ Z.max (ilog2 a - 52) (-1074))%Q.
    intros c. rewrite E. reflexivity. }
  rewrite Er. reflexivity.
Qed.

(** ** Doubles *)

Lemma canonical_spec (m e : Z) :
  canonical m e = true <->
  Z.abs m < 2 ^ 53 /\ (e = -1074 \/ (-1074 < e <= 971 /\ 2 ^ 52 <= Z.abs m)).
Proof.
  unfold canonical.
  rewrite andb_true_iff, orb_true_iff, !andb_true_iff, Z.eqb_eq,
    !Z.ltb_lt, !Z.leb_le. tauto.
Qed.

Lemma canonical_opp (m e : Z) : canonical (- m) e = canonical m e.
Proof. unfold canonical. now rewrite Z.abs_opp. Qed.

Lemma Fin_eq (m1 e1 m2 e2 : Z) (H1 : canonical m1 e1 = true)
  (H2 : canonical m2 e2 = true) :
  m1 = m2 -> e1 = e2 -> Fin m1 e1 H1 = Fin m2 e2 H2.
Proof.
  intros -> ->. f_equal. apply UIP_dec. apply bool_dec.
Qed.

Lemma mkfin_canonical (m e : Z) (H : canonical m e = true) :
  mkfin m e = Fin m e H.
Proof.
  unfold mkfin.
  generalize (@eq_refl bool (canonical m e)).
  generalize (canonical m e) at 2 3.
  intros b Hb. destruct b.
  - now apply Fin_eq.
  - congruence.
Qed.

Lemma F2Q_opp (m e : Z) : (F2Q (- m) e == - F2Q m e)%Q.
Proof. unfold F2Q. rewrite inject_Z_opp. ring. Qed.

Lemma F2Q_exact (m e : Z) : (F2Q m e / 2 ^ e == inject_Z m)%Q.
Proof. unfold F2Q. field. pose proof (bpow_pos e). lra. Qed.

(** A canonical pair of positive significand is its own rounding. *)
Lemma round_pos_canonical (m e : Z) :
  canonical m e = true -> 0 < m -> round_pos (F2Q m e) = (m, e).
Proof.
  intros H Hm. apply canonical_spec in H. rewrite Z.abs_eq in H by lia.
  destruct H as [Hlt He].
  assert (He' : -1074 <= e) by lia.
  assert (Hv : (0 < F2Q m e)%Q).
  { unfold F2Q. apply Qmult_lt_0_compat; [|apply bpow_pos].
    change 0%Q with (inject_Z 0). now apply inject_Z_lt. }
  assert (Hup : (F2Q m e < 2 ^ (e + 53))%Q).
  { unfold F2Q. rewrite Z.add_comm, bpow_add.
    apply Qmult_lt_r; [apply bpow_pos|].
    change (2 ^ 53)%Q with (inject_Z (2 ^ 53)). now apply inject_Z_lt. }
  assert (Hexp : Z.max (ilog2 (F2Q m e) - 52) (-1074) = e).
  { destruct (Z_lt_le_dec m (2 ^ 52)) as [Hsub|Hnorm].
    - assert (e = -1074) by lia.
      assert (ilog2 (F2Q m e) < e + 52); [|lia].
      destruct (ilog2_spec _ Hv) as [H1 _].
      apply bpow_lt_inv. apply Qle_lt_trans with (1 := H1).
      unfold F2Q. rewrite Z.add_comm, bpow_add.
      apply Qmult_lt_r; [apply bpow_pos|].
      change (2 ^ 52)%Q with (inject_Z (2 ^ 52)). now apply inject_Z_lt.
    - rewrite (ilog2_unique (F2Q m e) (e + 52)); [lia| |].
      + unfold F2Q. rewrite Z.add_comm, bpow_add.
        apply Qmult_le_compat_r; [|apply Qlt_le_weak, bpow_pos].
        change (2 ^ 52)%Q with (inject_Z (2 ^ 52)). now apply inject_Z_le.
      + replace (e + 52 + 1) with (e + 53) by lia. exact Hup. }
  unfold round_pos. rewrite Hexp.
  rewrite (rne_eq _ _ (F2Q_exact m e)), rne_Z.
  destruct (Z.eqb_spec m (2 ^ 53)); [lia|reflexivity].
Qed.

Definition sround (x : Q) : Q :=
  if Qlt_bool x 0 then (- rval (Qabs x))%Q else rval (Qabs x).

Lemma sround_mono (x y : Q) : (x <= y)%Q -> (sround x <= sround y)%Q.
Proof.
  intros Hxy. unfold sround.
  pose proof (rval_nonneg (Qabs x) (Qabs_nonneg x)) as Hx.
  pose proof (rval_nonneg (Qabs y) (Qabs_nonneg y)) as Hy.
  destruct (Qlt_bool x 0) eqn:Ex; destruct (Qlt_bool y 0) eqn:Ey.
  - apply Qlt_bool_iff in Ex, Ey.
    apply Qopp_le_compat. apply rval_mono.
    + rewrite Qabs_neg by lra. lra.
    + rewrite !Qabs_neg by lra. lra.
  - lra.
  - apply Qlt_bool_iff in Ey. apply Qlt_bool_false_iff in Ex. exfalso; lra.
  - apply Qlt_bool_false_iff in Ex, Ey.
    destruct (Qeq_dec x 0) as [E0|N0].
    + rewrite (rval_zero (Qabs x)); [exact Hy|]. rewrite E0. reflexivity.
    + apply rval_mono.
      * rewrite Qabs_pos by lra. lra.
      * rewrite !Qabs_pos by lra. lra.
Qed.

Lemma canonical_bound (m e : Z) :
  canonical m e = true -> (Qabs (F2Q m e) < 2 ^ 1024)%Q.
Proof.
  intros H. apply canonical_spec in H. destruct H as [Hm He].
  unfold F2Q. rewrite Qabs_Qmult.
  rewrite (Qabs_pos (2 ^ e)) by apply Qlt_le_weak, bpow_pos.
  assert (E : (Qabs (inject_Z m) == inject_Z (Z.abs m))%Q).
  { unfold Qabs, inject_Z. reflexivity. }
  rewrite E.
  apply Qlt_le_trans with (2 ^ 53 * 2 ^ e)%Q.
  - apply Qmult_lt_r; [apply bpow_pos|].
    change (2 ^ 53)%Q with (inject_Z (2 ^ 53)). now apply inject_Z_lt.
  - rewrite <- bpow_add. apply bpow_le. lia.
Qed.

Lemma round_spec (x : Q) :
  (round x = Inf true /\ sround x <= - 2 ^ 1024)%Q
  \/ (round x = Inf false /\ 2 ^ 1024 <= sround x)%Q
  \/ exists m e H, round x = Fin m e H /\ (F2Q m e == sround x)%Q.
Proof.
  pose proof (F2Q_round_pos (Qabs x)) as Hv.
  unfold round, sround.
  destruct (round_pos (Qabs x)) as [m e] eqn:Erp. cbn [fst snd] in Hv.
  destruct (Z.eqb_spec m 0) as [E0|N0].
  { right. right. exists 0, (-1074), eq_refl. split; [reflexivity|].
    assert (Hr : (rval (Qabs x) == 0)%Q).
    { rewrite <- Hv, E0. unfold F2Q. change (inject_Z 0) with 0%Q. ring. }
    unfold F2Q. change (inject_Z 0) with 0%Q.
    destruct (Qlt_bool x 0); rewrite Hr; ring. }
  assert (Ha : (0 < Qabs x)%Q).
  { destruct (Qeq_dec (Qabs x) 0) as [E|N].
    - exfalso. apply N0.
      pose proof (rval_zero _ E) as Hz. rewrite <- Hv in Hz.
      unfold F2Q in Hz. pose proof (bpow_pos e) as Hp.
      assert (Hm : (inject_Z m == 0)%Q).
      { apply (Qmult_integral_l (2 ^ e)); [lra|]. rewrite Qmult_comm. exact Hz. }
      unfold Qeq in Hm. simpl in Hm. lia.
    - pose proof (Qabs_nonneg x). lra. }
  pose proof (round_pos_spec _ Ha) as Hs. rewrite Erp in Hs.
  cbn [fst snd] in Hs. destruct Hs as (Hm & He & Hn).
  destruct (Z.ltb_spec 971 e) as [Hbig|Hsmall].
  - assert (Hge : (2 ^ 1024 <= F2Q m e)%Q).
    { unfold F2Q. apply Qle_trans with (2 ^ 52 * 2 ^ e)%Q.
      - rewrite <- bpow_add. apply bpow_le. lia.
      - apply Qmult_le_compat_r; [|apply Qlt_le_weak, bpow_pos].
        change (2 ^ 52)%Q with (inject_Z (2 ^ 52)). apply inject_Z_le. lia. }
    destruct (Qlt_bool x 0); [left|right; left]; split;
      try reflexivity; lra.
  - right. right.
    assert (Hc : canonical m e = true).
    { apply canonical_spec. rewrite Z.abs_eq by lia. lia. }
    destruct (Qlt_bool x 0).
    + assert (Hc' : canonical (- m) e = true) by now rewrite canonical_opp.
      exists (- m), e, Hc'. split; [apply mkfin_canonical|].
      rewrite F2Q_opp, Hv. reflexivity.
    + exists m, e, Hc. split; [apply mkfin_canonical|exact Hv].
Qed.

Lemma round_mono (x y : Q) : (x <= y)%Q -> fle (round x) (round y) = true.
Proof.
  intros Hxy. pose proof (sround_mono x y Hxy) as Hs.
  pose proof (bpow_pos 1024) as Hp.
  destruct (round_spec x) as [[-> Hx]|[[-> Hx]|(m & e & H & -> & Hx)]];
    destruct (round_spec y) as [[-> Hy]|[[-> Hy]|(m' & e' & H' & -> & Hy)]];
    unfold fle, fcmp; try reflexivity; try (exfalso; lra).
  - pose proof (canonical_bound _ _ H') as Hb.
    apply Qabs_Qlt_condition in Hb. exfalso. lra.
  - pose proof (canonical_bound _ _ H) as Hb.
    apply Qabs_Qlt_condition in Hb. exfalso. lra.
  - destruct (Qcompare_spec (F2Q m e) (F2Q m' e')); try reflexivity.
    exfalso. lra.
Qed.

Lemma round_exact (m e : Z) (H : canonical m e = true) :
  round (F2Q m e) = Fin m e H.
Proof.
  destruct (Z.lt_trichotomy m 0) as [Hneg|[E0|Hpos]].
  - assert (Hc : canonical (- m) e = true) by now rewrite canonical_opp.
    assert (Hv : (0 < F2Q (- m) e)%Q).
    { unfold F2Q. apply Qmult_lt_0_compat; [|apply bpow_pos].
      change 0%Q with (inject_Z 0). apply inject_Z_lt. lia. }
    pose proof (F2Q_opp m e) as Ho.
    unfold round.
    rewrite (round_pos_eq (Qabs (F2Q m e)) (F2Q (- m) e)).
    + rewrite (round_pos_canonical _ _ Hc) by lia.
      destruct (Z.eqb_spec (- m) 0); [lia|].
      apply canonical_spec in Hc.
      destruct (Z.ltb_spec 971 e); [lia|].
      assert (El : Qlt_bool (F2Q m e) 0 = true) by (apply Qlt_bool_iff; lra).
      rewrite El, Z.opp_involutive. apply mkfin_canonical.
    + rewrite Qabs_neg by lra. lra.
    + rewrite Qabs_neg by lra. lra.
  - subst m. assert (e = -1074).
    { apply canonical_spec in H. simpl in H. lia. }
    subst e. apply Fin_eq; reflexivity.
  - assert (Hv : (0 < F2Q m e)%Q).
    { unfold F2Q. apply Qmult_lt_0_compat; [|apply bpow_pos].
      change 0%Q with (inject_Z 0). apply inject_Z_lt. lia. }
    unfold round.
    rewrite (round_pos_eq (Qabs (F2Q m e)) (F2Q m e)).
    + rewrite (round_pos_canonical _ _ H) by lia.
      destruct (Z.eqb_spec m 0); [lia|].
      pose proof H as Hc. apply canonical_spec in Hc.
      destruct (Z.ltb_spec 971 e); [lia|].
      assert (El : Qlt_bool (F2Q m e) 0 = false)
        by (apply Qlt_bool_false_iff; lra).
      rewrite El. apply mkfin_canonical.
    + rewrite Qabs_pos by lra. lra.
    + rewrite Qabs_pos by lra. reflexivity.
Qed.

(** ** Neighbouring doubles

    Two positive doubles [q < i] are far enough apart for the exact
    quotient [q / i] to be at most [1 - 2^-53], the largest double below
    1. *)

Definition below_one : Q := F2Q (2 ^ 53 - 1) (-53).

Lemma canonical_pos_exponent (m e m' e' : Z) :
  canonical m e = true -> canonical m' e' = true -> 0 < m -> 0 < m' ->
  (F2Q m e < F2Q m' e')%Q -> e <= e'.
Proof.
  intros H H' Hm Hm' Hlt.
  apply canonical_spec in H, H'. rewrite Z.abs_eq in H, H' by lia.
  destruct (Z_le_gt_dec e e') as [Hle|Hgt]; [exact Hle|exfalso].
  assert (H52 : 2 ^ 52 <= m) by lia.
  assert (Hlo : (2 ^ (e' + 53) <= F2Q m e)%Q).
  { unfold F2Q. apply Qle_trans with (2 ^ 52 * 2 ^ e)%Q.
    - rewrite <- bpow_add. apply bpow_le. lia.
    - apply Qmult_le_compat_r; [|apply Qlt_le_weak, bpow_pos].
      change (2 ^ 52)%Q with (inject_Z (2 ^ 52)). now apply inject_Z_le. }
  assert (Hhi : (F2Q m' e' < 2 ^ (e' + 53))%Q).
  { unfold F2Q. rewrite Z.add_comm, bpow_add.
    apply Qmult_lt_r; [apply bpow_pos|].
    change (2 ^ 53)%Q with (inject_Z (2 ^ 53)). apply inject_Z_lt. lia. }
  lra.
Qed.

Lemma quotient_below_one (m e m' e' : Z) :
  canonical m e = true -> canonical m' e' = true ->
  (F2Q m e < F2Q m' e')%Q -> (0 < F2Q m' e')%Q ->
  (F2Q m e / F2Q m' e' <= below_one)%Q.
Proof.
  intros H H' Hlt Hpos.
  assert (Hb : (below_one == 9007199254740991 # 9007199254740992)%Q)
    by reflexivity.
  apply Qle_shift_div_r; [exact Hpos|]. rewrite Hb.
  assert (Hm' : 0 < m').
  { destruct (Z_lt_le_dec 0 m') as [?|Hn]; [assumption|exfalso].
    unfold F2Q in Hpos. pose proof (bpow_pos e').
    apply inject_Z_le in Hn. change (inject_Z 0) with 0%Q in Hn. nra. }
  destruct (Z_lt_le_dec 0 m) as [Hm|Hm].
  2:{ apply Qle_trans with 0%Q; [|lra].
      unfold F2Q. pose proof (bpow_pos e).
      apply inject_Z_le in Hm. change (inject_Z 0) with 0%Q in Hm. nra. }
  pose proof (canonical_pos_exponent _ _ _ _ H H' Hm Hm' Hlt) as Hee.
  apply canonical_spec in H, H'. rewrite Z.abs_eq in H, H' by lia.
  pose proof (bpow_pos e') as Hp'. pose proof (bpow_pos e) as Hp.
  destruct (Z.eq_dec e e') as [E|NE].
  - subst e'. unfold F2Q in *.
    assert (Hmm : m < m').
    { destruct (Z_lt_le_dec m m') as [?|Hn]; [assumption|exfalso].
      apply inject_Z_le in Hn. nra. }
    assert (Hz : m * 9007199254740992 <= 9007199254740991 * m') by lia.
    apply inject_Z_le in Hz. rewrite !inject_Z_mult in Hz.
    change (inject_Z 9007199254740992) with 9007199254740992%Q in Hz.
    change (inject_Z 9007199254740991) with 9007199254740991%Q in Hz.
    assert (Ek : ((9007199254740991 # 9007199254740992)
                  == 9007199254740991 / 9007199254740992)%Q) by reflexivity.
    rewrite Ek.
    assert (Hgoal : (inject_Z m * 2 ^ e * 9007199254740992
                     <= 9007199254740991 * (inject_Z m' * 2 ^ e))%Q) by nra.
    apply Qle_shift_div_l in Hgoal; [|reflexivity].
    apply Qle_trans with (1 := Hgoal). apply Qle_lteq. right. field.
  - assert (Hm52 : 2 ^ 52 <= m') by lia.
    assert (Hpw : (2 ^ e * 2 <= 2 ^ e')%Q).
    { change 2%Q with (2 ^ 1)%Q at 2. rewrite <- bpow_add. apply bpow_le. lia. }
    unfold F2Q.
    assert (H1 : (inject_Z m <= 9007199254740991)%Q).
    { change 9007199254740991%Q with (inject_Z 9007199254740991).
      apply inject_Z_le. lia. }
    assert (H2 : (4503599627370496 <= inject_Z m')%Q).
    { change 4503599627370496%Q with (inject_Z 4503599627370496).
      apply inject_Z_le. lia. }
    assert (H0 : (0 < inject_Z m)%Q).
    { change 0%Q with (inject_Z 0). now apply inject_Z_lt. }
    apply Qle_trans with (9007199254740991 * 2 ^ e)%Q; [nra|].
    apply Qle_trans with
      ((9007199254740991 # 9007199254740992) * (4503599627370496 * 2 ^ e'))%Q.
    + assert (Ek : ((9007199254740991 # 9007199254740992) * (4503599627370496 * 2 ^ e')
                  == 9007199254740991 * (2 ^ e' / 2))%Q) by (field).
      rewrite Ek. assert (2 ^ e <= 2 ^ e' / 2)%Q by (apply Qle_shift_div_l; lra).
      nra.
    + apply Qmult_le_l; [reflexivity|]. nra.
Qed.


(** ** The operations of the code on doubles *)

Lemma F2Q_zero : (F2Q 0 (-1074) == 0)%Q.
Proof. reflexivity. Qed.

Lemma round_ge_fin (q : Q) (m e : Z) (H : canonical m e = true) :
  (F2Q m e <= q)%Q -> fle (Fin m e H) (round q) = true.
Proof.
  intros Hq. rewrite <- (round_exact m e H). now apply round_mono.
Qed.

Lemma round_le_fin (q : Q) (m e : Z) (H : canonical m e = true) :
  (q <= F2Q m e)%Q -> fle (round q) (Fin m e H) = true.
Proof.
  intros Hq. rewrite <- (round_exact m e H). now apply round_mono.
Qed.

Lemma round_nonneg (q : Q) : (0 <= q)%Q -> fle zero (round q) = true.
Proof. intros H. apply round_ge_fin. rewrite F2Q_zero. exact H. Qed.


Lemma fcmp_fin (m e m' e' : Z) (H : canonical m e = true)
  (H' : canonical m' e' = true) :
  fcmp (Fin m e H) (Fin m' e' H') = Some (F2Q m e ?= F2Q m' e')%Q.
Proof. reflexivity. Qed.

Lemma flt_fin_false (m e m' e' : Z) (H : canonical m e = true)
  (H' : canonical m' e' = true) :
  flt (Fin m e H) (Fin m' e' H') = false <-> (F2Q m' e' <= F2Q m e)%Q.
Proof.
  unfold flt. rewrite fcmp_fin.
  destruct (Qcompare_spec (F2Q m e) (F2Q m' e')); split; intros Hx;
    try reflexivity; try discriminate; lra.
Qed.

Lemma flt_fin_true (m e m' e' : Z) (H : canonical m e = true)
  (H' : canonical m' e' = true) :
  flt (Fin m e H) (Fin m' e' H') = true <-> (F2Q m e < F2Q m' e')%Q.
Proof.
  unfold flt. rewrite fcmp_fin.
  destruct (Qcompare_spec (F2Q m e) (F2Q m' e')); split; intros Hx;
    try reflexivity; try discriminate; lra.
Qed.

Lemma fle_fin (m e m' e' : Z) (H : canonical m e = true)
  (H' : canonical m' e' = true) :
  fle (Fin m e H) (Fin m' e' H') = true <-> (F2Q m e <= F2Q m' e')%Q.
Proof.
  unfold fle. rewrite fcmp_fin.
  destruct (Qcompare_spec (F2Q m e) (F2Q m' e')); split; intros Hx;
    try reflexivity; try discriminate; lra.
Qed.



Lemma fle_trans_fin (x : float) (m e m' e' : Z) (H : canonical m e = true)
  (H' : canonical m' e' = true) :
  fle x (Fin m e H) = true -> (F2Q m e < F2Q m' e')%Q ->
  flt x (Fin m' e' H') = true.
Proof.
  intros Hx Hlt. destruct x as [|sx|m0 e0 H0]; try discriminate.
  - destruct sx; [reflexivity|discriminate].
  - apply fle_fin in Hx. apply flt_fin_true. lra.
Qed.

(** Taking a quantity that is 0 or more off a stock leaves it below
    whatever threshold it was below, in the order of the server. *)
Lemma fsub_keeps_below (x y t : float) :
  pg_lt x t = true -> flt x y = false -> fle zero y = true ->
  t <> NaN -> pg_lt (fsub x y) t = true.
Proof.
  intros Hxt Hxy Hy Ht.
  destruct y as [|sy|m' e' H']; [discriminate|destruct sy; [discriminate|]|].
  - destruct x as [|[]|m e H]; try discriminate.
    destruct t as [|[]|mt et Ht']; [congruence|discriminate|discriminate|
                                    discriminate].
  - destruct x as [|[]|m e H]; try discriminate.
    + destruct t as [|[]|mt et Ht']; [congruence|discriminate|discriminate|
                                      discriminate].
    + cbn [fsub].
      assert (Hle : fle (round (F2Q m e - F2Q m' e')) (Fin m e H) = true).
      { apply round_le_fin. apply fle_fin in Hy. rewrite F2Q_zero in Hy.
        lra. }
      destruct t as [|[]|mt et Ht']; [congruence|discriminate| |].
      * destruct (round (F2Q m e - F2Q m' e')) as [|[]|m0 e0 H0];
          try discriminate; reflexivity.
      * assert (Hlt : (F2Q m e < F2Q mt et)%Q)
          by (now apply flt_fin_true in Hxt).
        pose proof (fle_trans_fin _ _ _ _ _ H Ht' Hle Hlt) as Hr.
        destruct (round (F2Q m e - F2Q m' e')) as [|s|m0 e0 H0];
          try discriminate; exact Hr.
Qed.

Lemma fadd_nonneg (x y : float) :
  fle zero x = true -> fle zero y = true -> fle zero (fadd x y) = true.
Proof.
  intros Hx Hy.
  destruct x as [|sx|m e H]; try discriminate;
    destruct y as [|sy|m' e' H']; try discriminate;
    try (destruct sx; discriminate); try (destruct sy; discriminate).
  - destruct sx, sy; try discriminate. reflexivity.
  - destruct sx; [discriminate|reflexivity].
  - destruct sy; [discriminate|reflexivity].
  - cbn [fadd]. apply round_nonneg.
    apply fle_fin in Hx, Hy. rewrite F2Q_zero in Hx, Hy. lra.
Qed.

Lemma canonical_abs (m e : Z) :
  canonical m e = true -> canonical (Z.abs m) e = true.
Proof. unfold canonical. now rewrite Z.abs_idemp. Qed.

Lemma fabs_nonneg (x : float) : x <> NaN -> fle zero (fabs x) = true.
Proof.
  destruct x as [|s|m e H]; [congruence|reflexivity|]. intros _.
  cbn [fabs]. rewrite (mkfin_canonical _ _ (canonical_abs _ _ H)).
  apply fle_fin. rewrite F2Q_zero. unfold F2Q.
  apply Qmult_le_0_compat; [|apply Qlt_le_weak, bpow_pos].
  change 0%Q with (inject_Z 0). apply inject_Z_le. lia.
Qed.


(** A difference is a number when its first operand is above the
    second. *)
Lemma fsub_of_greater (x y : float) : flt y x = true -> fsub x y <> NaN.
Proof.
  destruct x as [|sx|m e H]; destruct y as [|sy|m' e' H']; try discriminate.
  - destruct sx, sy; discriminate.
  - intros _. cbn [fsub].
    destruct (round_spec (F2Q m e - F2Q m' e'))
      as [[-> _]|[[-> _]|(m0 & e0 & H0 & -> & _)]]; discriminate.
Qed.

(** ** Floors of quotients *)

Lemma flt_zero_pos (i : float) :
  flt zero i = true ->
  feq i zero = false
  /\ (i = Inf false
      \/ exists m e H, i = Fin m e H /\ (0 < F2Q m e)%Q).
Proof.
  destruct i as [|[]|m e H]; try discriminate.
  - intros _. split; [reflexivity|now left].
  - intros Hi. apply flt_fin_true in Hi. rewrite F2Q_zero in Hi. split.
    + unfold feq, zero. rewrite fcmp_fin.
      destruct (Qcompare_spec (F2Q m e) (F2Q 0 (-1074))) as [E|E|E];
        try reflexivity. rewrite F2Q_zero in E. exfalso. lra.
    + right. eauto.
Qed.

Definition one : float := Fin (2 ^ 52) (-52) eq_refl.

Lemma below_one_canonical : canonical (2 ^ 53 - 1) (-53) = true.
Proof. reflexivity. Qed.

(** Line 198 gives an [int] exactly when the ingredient takes nothing or
    the quotient is a finite double, and then it is the floor of the
    quotient. *)
Lemma avail_contributes (p : Product) (i : MealIngredient) (n : Z) :
  avail p i = Ok n
  <-> (if flt zero (mi_quantity i)
       then exists m e H,
              fdiv (p_quantity p) (mi_quantity i) = Fin m e H
              /\ n = Qfloor (F2Q m e)
       else n = 0).
Proof.
  unfold avail, truediv.
  destruct (flt zero (mi_quantity i)) eqn:Ei.
  - destruct (flt_zero_pos _ Ei) as [-> _].
    destruct (fdiv (p_quantity p) (mi_quantity i)) as [|s|m e H];
      cbn [math_floor]; split.
    + discriminate.
    + intros (m & e & H & [=] & _).
    + discriminate.
    + intros (m & e & H & [=] & _).
    + intros [= <-]. eauto.
    + intros (m0 & e0 & H0 & [= <- <-] & ->). reflexivity.
  - split; [intros [= <-]; reflexivity|intros ->; reflexivity].
Qed.


(** For an ingredient that takes a positive quantity, the availability is
    1 or more exactly when the stock covers the ingredient. *)
Lemma avail_ge_1_iff (p : Product) (i : MealIngredient) (n : Z) :
  flt zero (mi_quantity i) = true ->
  avail p i = Ok n ->
  (1 <= n <-> flt (p_quantity p) (mi_quantity i) = false).
Proof.
  intros Hi Hav. apply avail_contributes in Hav. rewrite Hi in Hav.
  destruct Hav as (m0 & e0 & H0 & Hdiv & ->).
  destruct (flt_zero_pos _ Hi) as [_ [Ei|(m' & e' & H' & Ei & Hpos)]];
    rewrite Ei in *; clear Ei.
  - destruct (p_quantity p) as [|s|m e H]; try discriminate.
    cbn [fdiv] in Hdiv. injection Hdiv as <- <-.
    split; [intros Hn; vm_compute in Hn; exfalso; now apply Hn|discriminate].
  - destruct (p_quantity p) as [|s|m e H]; try discriminate.
    cbn [fdiv] in Hdiv. rewrite flt_fin_false.
    assert (E1 : (F2Q (2 ^ 52) (-52) == 1)%Q) by reflexivity.
    split.
    + intros Hn.
      destruct (Qlt_le_dec (F2Q m e) (F2Q m' e')) as [Hlt|Hle];
        [exfalso|exact Hle].
      pose proof (quotient_below_one _ _ _ _ H H' Hlt Hpos) as Hq.
      pose proof (round_le_fin _ _ _ below_one_canonical Hq) as Hr.
      rewrite Hdiv in Hr. apply fle_fin in Hr.
      fold below_one in Hr.
      assert (Hb : (below_one < 1)%Q) by reflexivity.
      pose proof (Qfloor_le (F2Q m0 e0)) as Hf.
      apply inject_Z_le in Hn. change (inject_Z 1) with 1%Q in Hn. lra.
    + intros Hle.
      assert (Hq : (F2Q (2 ^ 52) (-52) <= F2Q m e / F2Q m' e')%Q).
      { rewrite E1. apply Qle_shift_div_l; lra. }
      pose proof (round_ge_fin _ _ _ (eq_refl : canonical (2 ^ 52) (-52) = true)
                    Hq) as Hr.
      rewrite Hdiv in Hr. apply fle_fin in Hr. rewrite E1 in Hr.
      rewrite <- (Qfloor_Z 1). now apply Qfloor_resp_le.
Qed.

(** From a stock that is 0 or more, no availability is negative. *)
Lemma avail_nonneg (p : Product) (i : MealIngredient) (n : Z) :
  fle zero (p_quantity p) = true -> avail p i = Ok n -> 0 <= n.
Proof.
  intros Hq Hav. apply avail_contributes in Hav.
  destruct (flt zero (mi_quantity i)) eqn:Hi; [|lia].
  destruct Hav as (m0 & e0 & H0 & Hdiv & ->).
  assert (Hge : fle zero (fdiv (p_quantity p) (mi_quantity i)) = true).
  { destruct (flt_zero_pos _ Hi) as [_ [Ei|(m' & e' & H' & Ei & Hpos)]];
      rewrite Ei in *; clear Ei;
      destruct (p_quantity p) as [|s|m e H]; try discriminate;
      [reflexivity|].
    cbn [fdiv]. apply round_nonneg.
    apply fle_fin in Hq. rewrite F2Q_zero in Hq.
    apply Qle_shift_div_l; lra. }
  rewrite Hdiv in Hge. apply fle_fin in Hge. rewrite F2Q_zero in Hge.
  rewrite <- (Qfloor_Z 0). now apply Qfloor_resp_le.
Qed.

(** ** Rows and lookups *)

Section Lookup.

Variable f : Product -> Product.
Hypothesis f_keeps_id : forall p, p_id (f p) = p_id p.

Lemma first_update_first_other (pid pid' : Z) (rows : list Product) :
  pid <> pid' ->
  first (fun p => p_id p =? pid') (update_first pid f rows)
  = first (fun p => p_id p =? pid') rows.
Proof.
  intros Hne. unfold first.
  induction rows as [|p rest IH]; simpl; [reflexivity|].
  destruct (p_id p =? pid) eqn:Ep; simpl.
  - rewrite f_keeps_id. apply Z.eqb_eq in Ep.
    destruct (p_id p =? pid') eqn:Ep'; [|reflexivity].
    apply Z.eqb_eq in Ep'. congruence.
  - destruct (p_id p =? pid'); simpl; [reflexivity|exact IH].
Qed.

Lemma first_update_first_same (pid : Z) (rows : list Product) (p : Product) :
  first (fun p => p_id p =? pid) rows = Some p ->
  first (fun p => p_id p =? pid) (update_first pid f rows) = Some (f p).
Proof.
  unfold first.
  induction rows as [|r rest IH]; simpl; [discriminate|].
  destruct (p_id r =? pid) eqn:Er; simpl.
  - rewrite f_keeps_id, Er. simpl. congruence.
  - rewrite Er. exact IH.
Qed.

Lemma map_id_update_first (pid : Z) (rows : list Product) :
  map p_id (update_first pid f rows) = map p_id rows.
Proof.
  induction rows as [|r rest IH]; simpl; [reflexivity|].
  destruct (p_id r =? pid); simpl; [rewrite f_keeps_id|rewrite IH];
    reflexivity.
Qed.

End Lookup.

Lemma update_first_ext (pid : Z) (f g : Product -> Product)
  (rows : list Product) (p : Product) :
  first (fun p => p_id p =? pid) rows = Some p ->
  f p = g p ->
  update_first pid f rows = update_first pid g rows.
Proof.
  unfold first. intros Hp Hfg.
  induction rows as [|r rest IH]; simpl in *; [reflexivity|].
  destruct (p_id r =? pid) eqn:Er; simpl in *.
  - congruence.
  - f_equal. auto.
Qed.

Lemma first_some_in {A : Type} (c : A -> bool) (rows : list A) (a : A) :
  first c rows = Some a -> In a rows /\ c a = true.
Proof.
  unfold first. intros H.
  assert (Hin : In a (filter c rows)).
  { destruct (filter c rows); simpl in H; [discriminate|].
    injection H as ->. now left. }
  now apply filter_In in Hin.
Qed.

Lemma first_none {A : Type} (c : A -> bool) (rows : list A) :
  first c rows = None -> forall a, In a rows -> c a = false.
Proof.
  unfold first. intros H a Hin.
  destruct (c a) eqn:Ec; [|reflexivity].
  assert (Hf : In a (filter c rows)) by (apply filter_In; auto).
  destruct (filter c rows); [contradiction|discriminate].
Qed.

Lemma map_name_update_quantity (pid : Z) (g : Product -> float)
  (rows : list Product) :
  map p_name (update_first pid (fun p => set_quantity (g p) p) rows)
  = map p_name rows.
Proof.
  induction rows as [|r rest IH]; simpl; [reflexivity|].
  destruct (p_id r =? pid); simpl; [|rewrite IH]; reflexivity.
Qed.

(** ** Lookups by an id of the request *)

Lemma select_first_found {A : Type} (find : Z -> database -> option A)
  (id : Z) (r : A) (w : world) :
  find id (session w) = Some r ->
  select_first find id w = (Ok (Some r), w).
Proof.
  intros H. unfold select_first, bind, query. now rewrite H.
Qed.

Lemma select_first_absent {A : Type} (find : Z -> database -> option A)
  (id : Z) (w : world) :
  find id (session w) = None ->
  select_first find id w
  = (if int4 id then Ok None else Raise (DBAPIError "value out of int32 range"),
     w).
Proof.
  intros H. unfold select_first, bind, query. rewrite H.
  destruct (int4 id); reflexivity.
Qed.

Lemma select_all_found {A : Type} (find : Z -> database -> list A)
  (id : Z) (w : world) :
  find id (session w) <> [] ->
  select_all find id w = (Ok (find id (session w)), w).
Proof.
  intros H. unfold select_all, bind, query.
  destruct (find id (session w)); [congruence|reflexivity].
Qed.

(** ** Distinct keys *)

Lemma distinct_snoc {A : Type} (eqb : A -> A -> bool) (l : list A) (x : A) :
  distinct eqb l = true ->
  (forall y, In y l -> eqb y x = false) ->
  distinct eqb (l ++ [x]) = true.
Proof.
  induction l as [|a l IH]; simpl; intros Hd Hx; [reflexivity|].
  apply andb_true_iff in Hd as [Ha Hl].
  apply andb_true_iff; split.
  - rewrite existsb_app, negb_orb, Ha. simpl.
    rewrite (Hx a (or_introl eq_refl)). reflexivity.
  - apply IH; auto.
Qed.

Lemma distinct_Z_NoDup (l : list Z) :
  distinct Z.eqb l = true -> NoDup l.
Proof.
  induction l as [|a l IH]; simpl; intros H; constructor;
    apply andb_true_iff in H as [Ha Hl]; auto.
  intros Hin. apply negb_true_iff in Ha.
  assert (existsb (Z.eqb a) l = true)
    by (apply existsb_exists; exists a; split; [auto|apply Z.eqb_refl]).
  congruence.
Qed.

(** The primary key of [meal_ingredients]: within one meal no product is
    listed twice. *)
Lemma ingredients_of_NoDup (mid : Z) (d : database) :
  distinct key_eqb (map ingredient_key (meal_ingredients d)) = true ->
  NoDup (map mi_product_id (ingredients_of mid d)).
Proof.
  unfold ingredients_of.
  induction (meal_ingredients d) as [|i l IH]; simpl; intros H;
    [constructor|].
  apply andb_true_iff in H as [Hi Hl].
  destruct (mi_meal_id i =? mid) eqn:Em; simpl; auto.
  constructor; auto.
  intros Hin. apply in_map_iff in Hin as (j & Hj & Hin).
  apply filter_In in Hin as [Hin Hm].
  apply negb_true_iff in Hi.
  assert (existsb (key_eqb (ingredient_key i)) (map ingredient_key l) = true).
  { apply existsb_exists. exists (ingredient_key j). split.
    - now apply in_map.
    - unfold key_eqb, ingredient_key; simpl.
      apply Z.eqb_eq in Em, Hm. rewrite Em, Hm, Hj, !Z.eqb_refl.
      reflexivity. }
  congruence.
Qed.

(** ** The loop of [serve_meal] *)

Lemma take_while_ext {A : Type} (c c' : A -> bool) (l : list A) :
  (forall x, In x l -> c x = c' x) -> take_while c l = take_while c' l.
Proof.
  induction l as [|x l IH]; simpl; intros H; [reflexivity|].
  rewrite <- (H x (or_introl eq_refl)), IH; auto.
Qed.

Lemma forallb_ext_in {A : Type} (c c' : A -> bool) (l : list A) :
  (forall x, In x l -> c x = c' x) -> forallb c l = forallb c' l.
Proof.
  induction l as [|x l IH]; simpl; intros H; [reflexivity|].
  rewrite <- (H x (or_introl eq_refl)), IH; auto.
Qed.

Lemma take_while_all {A : Type} (c : A -> bool) (l : list A) :
  forallb c l = true -> take_while c l = l.
Proof.
  induction l as [|x l IH]; simpl; [reflexivity|].
  intros H. apply andb_true_iff in H as [-> Hl]. now rewrite IH.
Qed.

Lemma serve_ingredient_ok (user_id : Z) (i : MealIngredient) (w : world) :
  sufficient (session w) i = true ->
  serve_ingredient user_id i w = (Ok tt, after_ingredient user_id w i).
Proof.
  unfold sufficient, serve_ingredient, bind, query. intros H.
  destruct (product_by_id (mi_product_id i) (session w)) as [p|] eqn:Ep;
    [|discriminate].
  apply negb_true_iff in H. rewrite H.
  unfold modify, utcnow, add_InventoryLog, publish, after_ingredient,
    consume_db, consume, set_session; simpl.
  rewrite (update_first_ext (mi_product_id i)
             (set_quantity (fsub (p_quantity p) (mi_quantity i)))
             (fun p => set_quantity (fsub (p_quantity p) (mi_quantity i)) p)
             (products (session w)) p Ep eq_refl).
  reflexivity.
Qed.

Lemma serve_ingredient_fail (user_id : Z) (i : MealIngredient) (w : world) :
  sufficient (session w) i = false ->
  exists detail,
    serve_ingredient user_id i w = (Raise (HTTPException 400 ("Insufficient quantity for " ++ detail)),
       w).
Proof.
  unfold sufficient, serve_ingredient, bind, query. intros H.
  destruct (product_by_id (mi_product_id i) (session w)) as [p|].
  - apply negb_false_iff in H. rewrite H. exists (p_name p). reflexivity.
  - exists "product". reflexivity.
Qed.

Lemma product_by_id_consume_db_other (user_id : Z) (clk : nat -> datetime)
  (n : nat) (i : MealIngredient) (d : database) (pid : Z) :
  mi_product_id i <> pid ->
  product_by_id pid (consume_db user_id clk n i d) = product_by_id pid d.
Proof.
  intros Hne. unfold product_by_id, consume_db, consume; simpl.
  now apply first_update_first_other.
Qed.

Lemma product_by_id_consume_db_same (user_id : Z) (clk : nat -> datetime)
  (n : nat) (i : MealIngredient) (d : database) (p : Product) :
  product_by_id (mi_product_id i) d = Some p ->
  product_by_id (mi_product_id i) (consume_db user_id clk n i d)
  = Some (set_quantity (fsub (p_quantity p) (mi_quantity i)) p).
Proof.
  intros Hp. unfold product_by_id, consume_db, consume; simpl.
  now apply (first_update_first_same
               (fun p => set_quantity (fsub (p_quantity p) (mi_quantity i)) p)).
Qed.

Lemma sufficient_consume_db_other (user_id : Z) (clk : nat -> datetime)
  (n : nat) (i j : MealIngredient) (d : database) :
  mi_product_id i <> mi_product_id j ->
  sufficient (consume_db user_id clk n i d) j = sufficient d j.
Proof.
  intros Hne. unfold sufficient.
  now rewrite product_by_id_consume_db_other.
Qed.

(** The loop stops at the first ingredient the stock does not cover; the
    ingredients before it have been processed. *)
Lemma serve_loop (user_id : Z) (ingredients : list MealIngredient) :
  NoDup (map mi_product_id ingredients) ->
  forall w,
  exists r,
    for_each ingredients (serve_ingredient user_id) w
    = (r, fold_left (after_ingredient user_id)
            (take_while (sufficient (session w)) ingredients) w)
    /\ (forallb (sufficient (session w)) ingredients = true -> r = Ok tt)
    /\ (forallb (sufficient (session w)) ingredients = false ->
        exists detail,
          r = Raise (HTTPException 400
                       ("Insufficient quantity for " ++ detail))).
Proof.
  induction ingredients as [|i rest IH]; intros Hnd w; simpl.
  - exists (Ok tt). repeat split; auto; discriminate.
  - inversion Hnd as [|? ? Hnotin Hrest]; subst.
    unfold bind.
    destruct (sufficient (session w) i) eqn:Es.
    + rewrite (serve_ingredient_ok _ _ _ Es).
      destruct (IH Hrest (after_ingredient user_id w i)) as (r & Hr & Hok & Hko).
      assert (Hsame : forall j, In j rest ->
                sufficient (session (after_ingredient user_id w i)) j
                = sufficient (session w) j).
      { intros j Hj. simpl. apply sufficient_consume_db_other.
        intros Heq. apply Hnotin. rewrite Heq. now apply in_map. }
      rewrite (take_while_ext _ _ _ Hsame) in Hr.
      rewrite (forallb_ext_in _ _ _ Hsame) in Hok, Hko.
      exists r. simpl. auto.
    + destruct (serve_ingredient_fail user_id i w Es) as (detail & ->).
      simpl.
      exists (Raise (HTTPException 400
                       ("Insufficient quantity for " ++ detail))).
      repeat split; [discriminate|]. intros _. now exists detail.
Qed.

Lemma fold_after_ingredient_frame (user_id : Z) (l : list MealIngredient) :
  forall w,
    let w' := fold_left (after_ingredient user_id) l w in
    committed w' = committed w
    /\ clock w' = clock w
    /\ trace w' = (trace w ++ map publication l)%list.
Proof.
  induction l as [|i l IH]; intros w; simpl.
  - now rewrite app_nil_r.
  - destruct (IH (after_ingredient user_id w i)) as (Hc & Hk & Ht).
    simpl in *. rewrite Hc, Hk, Ht, <- app_assoc. auto.
Qed.

(** What the loop leaves behind when it is entered on a fresh session. *)
Lemma serve_loop_outcome (user_id : Z) (ingredients : list MealIngredient)
  (w : world) :
  NoDup (map mi_product_id ingredients) ->
  exists r w1,
    for_each ingredients (serve_ingredient user_id)
      (set_session (committed w) w) = (r, w1)
    /\ w1 = fold_left (after_ingredient user_id)
              (take_while (sufficient (committed w)) ingredients)
              (set_session (committed w) w)
    /\ committed w1 = committed w
    /\ trace w1
       = (trace w
          ++ map publication
               (take_while (sufficient (committed w)) ingredients))%list
    /\ (forallb (sufficient (committed w)) ingredients = true -> r = Ok tt)
    /\ (forallb (sufficient (committed w)) ingredients = false ->
        exists detail,
          r = Raise (HTTPException 400
                       ("Insufficient quantity for " ++ detail))).
Proof.
  intros Hnd.
  destruct (serve_loop user_id ingredients Hnd (set_session (committed w) w))
    as (r & Hr & Hok & Hko).
  change (session (set_session (committed w) w)) with (committed w) in *.
  destruct (fold_after_ingredient_frame user_id
              (take_while (sufficient (committed w)) ingredients)
              (set_session (committed w) w)) as (Hc & _ & Ht).
  exists r. eexists. split; [exact Hr|].
  split; [reflexivity|]. auto.
Qed.

(** ** C1: [serve_meal] is all-or-nothing *)

(** C1.  If the stock does not cover some ingredient of the meal (its
    product is missing, or holds strictly less than the ingredient takes),
    the call raises the 400 "Insufficient quantity" exception and the
    committed database is the one the call started from: no quantity, ledger
    entry or serving differs, also for the ingredients the loop went through
    before the failing one.  The hypothesis is the primary key of
    [meal_ingredients]. *)
Theorem serve_meal_all_or_nothing (w : world)
  (meal_serving : MealServingCreate) (user_id : Z)
  (ingredient : MealIngredient) :
  distinct key_eqb (map ingredient_key (meal_ingredients (committed w)))
  = true ->
  In ingredient (ingredients_of (msc_meal_id meal_serving) (committed w)) ->
  (product_by_id (mi_product_id ingredient) (committed w) = None
   \/ exists p,
        product_by_id (mi_product_id ingredient) (committed w) = Some p
        /\ flt (p_quantity p) (mi_quantity ingredient) = true) ->
  exists name w',
    get_db (serve_meal meal_serving user_id) w
    = (Raise (HTTPException 400 ("Insufficient quantity for " ++ name)),
       w')
    /\ committed w' = committed w
    /\ session w' = committed w.
Proof.
  intros Hkey Hin Hshort.
  assert (Hins : sufficient (committed w) ingredient = false).
  { unfold sufficient. destruct Hshort as [-> | (p & -> & Hlt)]; auto.
    now apply negb_false_iff. }
  pose proof (ingredients_of_NoDup (msc_meal_id meal_serving) _ Hkey) as Hnd.
  unfold get_db, serve_meal, select_all, bind, query, redis_from_url, ret.
  cbn [session set_session].
  destruct (ingredients_of (msc_meal_id meal_serving) (committed w))
    as [|i0 rest] eqn:Ei; [contradiction|].
  unfold try_finally, bind.
  destruct (serve_loop_outcome user_id (i0 :: rest) w Hnd)
    as (r & w1 & -> & _ & Hc & _ & _ & Hko).
  destruct Hko as (name & ->).
  { apply not_true_is_false. intros Hall.
    rewrite forallb_forall in Hall. specialize (Hall _ Hin). congruence. }
  unfold redis_aclose, ret.
  exists name, (set_session (committed w1) w1).
  cbn [committed session set_session]. rewrite Hc. auto.
Qed.

Lemma serve_meal_all_or_nothing_witness :
  In (mkMealIngredient 1 2 20)
    (ingredients_of 1 (committed (world_of kitchen_short_of_flour)))
  /\ exists name w',
       get_db (serve_meal (mkMealServingCreate 1) 2)
         (world_of kitchen_short_of_flour)
       = (Raise (HTTPException 400 ("Insufficient quantity for " ++ name)),
       w')
       /\ committed w' = kitchen_short_of_flour
       /\ session w' = kitchen_short_of_flour.
Proof.
  split; [simpl; auto|].
  apply (serve_meal_all_or_nothing (world_of kitchen_short_of_flour)
           (mkMealServingCreate 1) 2 (mkMealIngredient 1 2 20)).
  - reflexivity.
  - simpl; auto.
  - right. eexists. split; [reflexivity|]. reflexivity.
Defined.

(** ** C7: when the notifications are published *)

(** C7, as stated, fails: with 100 of Milk and 10 of Flour, serving
    Breakfast (50 of Milk, then 20 of Flour) aborts on Flour, and the
    notification for Milk is on the channel already. *)
Lemma serve_meal_abort_has_published :
  let '(r, w') := serve_meal_endpoint (mkMealServingCreate 1) cook
                    (world_of kitchen_short_of_flour) in
  r = Raise (HTTPException 400 "Insufficient quantity for Flour")
  /\ committed w' = kitchen_short_of_flour
  /\ trace w' = [EPublish "inventory_updates" (mkNotification 50 1)]
  /\ publications (trace w') <> [].
Proof.
  vm_compute. repeat split; discriminate.
Qed.

(** C7, amended.  [serve_meal] publishes the notification of an ingredient
    inside the loop, once that ingredient has passed the stock check and its
    decrement and ledger entry are pending, and before the commit.  So the
    trace of a call grows by one publication for every ingredient that comes
    before the first one the stock does not cover, in ingredient order,
    followed by the commit exactly when the call returns a serving; and a
    call that returns a serving has published one notification for each
    ingredient of the meal. *)
Theorem serve_meal_publications (w : world)
  (meal_serving : MealServingCreate) (user_id : Z)
  (r : result MealServing) (w' : world) :
  distinct key_eqb (map ingredient_key (meal_ingredients (committed w)))
  = true ->
  get_db (serve_meal meal_serving user_id) w = (r, w') ->
  let ingredients :=
    ingredients_of (msc_meal_id meal_serving) (committed w) in
  trace w'
  = (trace w
     ++ map publication (take_while (sufficient (committed w)) ingredients)
     ++ match r with Ok _ => [ECommit] | Raise _ => [] end)%list
  /\ (forall serving, r = Ok serving ->
      publications (trace w')
      = (publications (trace w) ++ map notification_of ingredients)%list).
Proof.
  intros Hkey Hrun ingredients.
  pose proof (ingredients_of_NoDup (msc_meal_id meal_serving) _ Hkey) as Hnd.
  fold ingredients in Hnd.
  assert (Hpub : forall l t,
            publications (t ++ map publication l ++ [ECommit])
            = (publications t ++ map notification_of l)%list).
  { intros l t. unfold publications. rewrite !flat_map_app. simpl.
    rewrite app_nil_r. f_equal.
    induction l as [|i l IH]; simpl; [reflexivity|now rewrite IH]. }
  revert Hrun.
  unfold get_db, serve_meal, select_all, bind, query, redis_from_url, ret.
  cbn [session set_session]. fold ingredients.
  destruct ingredients as [|i0 rest] eqn:Ei.
  - unfold out_of_int4, raise.
    destruct (int4 (msc_meal_id meal_serving)); intros [= <- <-]; cbn;
      rewrite app_nil_r; (split; [reflexivity|discriminate]).
  - unfold try_finally, bind.
    destruct (serve_loop_outcome user_id (i0 :: rest) w Hnd)
      as (r0 & w1 & -> & _ & Hc & Ht & Hok & Hko).
    destruct (forallb (sufficient (committed w)) (i0 :: rest)) eqn:Eall.
    + rewrite (Hok eq_refl).
      rewrite (take_while_all _ _ Eall) in *.
      unfold utcnow, add_MealServing, commit, flush, bind, refresh, ret,
        redis_aclose, set_session.
      cbn [session committed trace clock reads].
      destruct (violated_constraint _).
      * intros [= <- <-]. cbn [trace]. rewrite Ht, app_nil_r.
        split; [reflexivity|discriminate].
      * intros [= <- <-]. cbn [trace]. rewrite Ht, <- app_assoc.
        split; [reflexivity|]. intros _ _. apply Hpub.
    + destruct (Hko eq_refl) as (detail & ->).
      unfold redis_aclose, ret. intros [= <- <-]. cbn [trace set_session].
      rewrite Ht, app_nil_r. split; [reflexivity|discriminate].
Qed.

Lemma serve_meal_publications_witness :
  let run := get_db (serve_meal (mkMealServingCreate 1) 2)
               (world_of kitchen) in
  trace (snd run)
  = [publication (mkMealIngredient 1 1 50);
     publication (mkMealIngredient 1 2 20); ECommit]
  /\ forall serving, fst run = Ok serving ->
       publications (trace (snd run))
       = [mkNotification 50 1; mkNotification 20 2].
Proof.
  intros run.
  pose proof (serve_meal_publications (world_of kitchen)
                (mkMealServingCreate 1) 2 (fst run) (snd run)
                eq_refl (surjective_pairing run)) as H.
  vm_compute in H. exact H.
Defined.

(** ** Constraints and sequences *)

Lemma violated_constraint_None (d : database) :
  violated_constraint d = None <->
  distinct Z.eqb (map p_id (products d)) = true
  /\ distinct String.eqb (map p_name (products d)) = true
  /\ distinct Z.eqb (map m_id (meals d)) = true
  /\ distinct String.eqb (map m_name (meals d)) = true
  /\ distinct key_eqb (map ingredient_key (meal_ingredients d)) = true
  /\ distinct Z.eqb (map ms_id (meal_servings d)) = true
  /\ distinct Z.eqb (map il_id (inventory_logs d)) = true.
Proof.
  unfold violated_constraint.
  destruct (distinct Z.eqb (map p_id (products d)));
    destruct (distinct String.eqb (map p_name (products d)));
    destruct (distinct Z.eqb (map m_id (meals d)));
    destruct (distinct String.eqb (map m_name (meals d)));
    destruct (distinct key_eqb (map ingredient_key (meal_ingredients d)));
    destruct (distinct Z.eqb (map ms_id (meal_servings d)));
    destruct (distinct Z.eqb (map il_id (inventory_logs d)));
    simpl; intuition congruence.
Qed.

Lemma well_formed_wf (d : database) : well_formed d = true <-> wf d.
Proof.
  unfold well_formed. rewrite !andb_true_iff. split.
  - intros ((((Hv & Hp) & Hm) & Hs) & Hl).
    destruct (violated_constraint d) eqn:Ev; [discriminate|].
    apply violated_constraint_None in Ev.
    destruct Ev as (? & ? & ? & ? & ? & ? & ?).
    constructor; assumption.
  - intros [].
    assert (Ev : violated_constraint d = None)
      by (apply violated_constraint_None; auto 10).
    rewrite Ev. auto.
Qed.

Lemma wf_no_violation (d : database) : wf d -> violated_constraint d = None.
Proof.
  intros []. apply violated_constraint_None. auto 10.
Qed.

(** A key drawn from a sequence that is ahead of the table is new. *)
Lemma distinct_fresh {A : Type} (key : A -> Z) (rows : list A) (seq : Z) :
  distinct Z.eqb (map key rows) = true ->
  forallb (fun r => key r <? seq) rows = true ->
  distinct Z.eqb (map key rows ++ [seq]) = true.
Proof.
  intros Hd Hs. apply distinct_snoc; [exact Hd|].
  intros y Hy. apply in_map_iff in Hy as (r & <- & Hr).
  rewrite forallb_forall in Hs. specialize (Hs r Hr).
  apply Z.ltb_lt in Hs. apply Z.eqb_neq. lia.
Qed.

Lemma forallb_below_succ {A : Type} (key : A -> Z) (rows : list A) (seq : Z)
  (r : A) :
  forallb (fun r => key r <? seq) rows = true ->
  key r = seq ->
  forallb (fun r => key r <? seq + 1) (rows ++ [r]) = true.
Proof.
  intros Hs Hr. rewrite forallb_app. apply andb_true_iff. split.
  - rewrite forallb_forall in *. intros x Hx. specialize (Hs x Hx).
    apply Z.ltb_lt in Hs. apply Z.ltb_lt. lia.
  - simpl. rewrite Hr, andb_true_r. apply Z.ltb_lt. lia.
Qed.

Lemma wf_consume_db (user_id : Z) (clk : nat -> datetime) (n : nat)
  (i : MealIngredient) (d : database) :
  wf d -> wf (consume_db user_id clk n i d).
Proof.
  intros []. unfold consume_db, consume.
  constructor; simpl; auto.
  - now rewrite map_id_update_first.
  - now rewrite map_name_update_quantity.
  - rewrite map_app. simpl. now apply distinct_fresh.
  - clear - wf_products_seq0.
    induction (products d) as [|p l IH]; simpl in *; [reflexivity|].
    apply andb_true_iff in wf_products_seq0 as [Hp Hl].
    destruct (p_id p =? mi_product_id i); simpl; rewrite Hp; auto.
  - now apply forallb_below_succ.
Qed.

Lemma wf_insert_meal_serving (s : MealServing) (d : database) :
  wf d -> ms_id s = meal_servings_id_seq d -> wf (insert_meal_serving s d).
Proof.
  intros [] Hs. constructor; simpl; auto.
  - rewrite map_app. simpl. rewrite Hs. now apply distinct_fresh.
  - now apply forallb_below_succ.
Qed.

Lemma wf_consume_all (user_id : Z) (clk : nat -> datetime)
  (l : list MealIngredient) :
  forall n d, wf d -> wf (consume_all user_id clk n l d).
Proof.
  induction l as [|i l IH]; simpl; intros n d H; [exact H|].
  apply IH. now apply wf_consume_db.
Qed.

(** ** What the loop of [serve_meal] leaves in the session *)

Lemma fold_after_ingredient_session (user_id : Z) (l : list MealIngredient) :
  forall w,
    let w' := fold_left (after_ingredient user_id) l w in
    session w' = consume_all user_id (clock w) (reads w) l (session w)
    /\ reads w' = (reads w + List.length l)%nat.
Proof.
  induction l as [|i l IH]; intros w; simpl.
  - split; [reflexivity|lia].
  - destruct (IH (after_ingredient user_id w i)) as (Hs & Hr).
    simpl in *. rewrite Hs, Hr. split; [reflexivity|lia].
Qed.

Lemma consume_all_frame (user_id : Z) (clk : nat -> datetime)
  (l : list MealIngredient) :
  forall n d,
    let d' := consume_all user_id clk n l d in
    meals d' = meals d
    /\ meal_ingredients d' = meal_ingredients d
    /\ meal_servings d' = meal_servings d
    /\ meal_servings_id_seq d' = meal_servings_id_seq d.
Proof.
  induction l as [|i l IH]; simpl; intros n d; [auto|].
  destruct (IH (S n) (consume_db user_id clk n i d)) as (? & ? & ? & ?).
  simpl in *. auto.
Qed.

Lemma consume_all_ids (user_id : Z) (clk : nat -> datetime)
  (l : list MealIngredient) :
  forall n d,
    map p_id (products (consume_all user_id clk n l d))
    = map p_id (products d).
Proof.
  induction l as [|i l IH]; simpl; intros n d; [reflexivity|].
  rewrite IH. unfold consume_db, consume. cbn [products insert_inventory_log
    with_products].
  now apply map_id_update_first.
Qed.

Lemma consume_all_logs (user_id : Z) (clk : nat -> datetime)
  (l : list MealIngredient) :
  forall n d,
  exists entries,
    inventory_logs (consume_all user_id clk n l d)
    = (inventory_logs d ++ entries)%list
    /\ map entry_facts entries
       = map (fun i => (mi_product_id i, "consumption", mi_quantity i,
                        user_id)) l.
Proof.
  induction l as [|i l IH]; simpl; intros n d.
  - exists []. now rewrite app_nil_r.
  - destruct (IH (S n) (consume_db user_id clk n i d)) as (entries & He & Hf).
    simpl in He. rewrite <- app_assoc in He.
    eexists. split; [exact He|]. simpl. now rewrite Hf.
Qed.

Lemma consume_all_products_other (user_id : Z) (clk : nat -> datetime)
  (l : list MealIngredient) (pid : Z) :
  ~ In pid (map mi_product_id l) ->
  forall n d,
    product_by_id pid (consume_all user_id clk n l d) = product_by_id pid d.
Proof.
  induction l as [|i l IH]; simpl; intros Hnot n d; [reflexivity|].
  rewrite IH by tauto.
  apply product_by_id_consume_db_other. tauto.
Qed.

Lemma consume_all_products_same (user_id : Z) (clk : nat -> datetime)
  (l : list MealIngredient) (i : MealIngredient) (p : Product) :
  NoDup (map mi_product_id l) ->
  In i l ->
  forall n d,
    product_by_id (mi_product_id i) d = Some p ->
    product_by_id (mi_product_id i) (consume_all user_id clk n l d)
    = Some (set_quantity (fsub (p_quantity p) (mi_quantity i)) p).
Proof.
  induction l as [|i0 l IH]; simpl; intros Hnd Hin n d Hp; [contradiction|].
  inversion Hnd as [|? ? Hnotin Hrest]; subst.
  destruct Hin as [-> | Hin].
  - rewrite consume_all_products_other by exact Hnotin.
    now apply product_by_id_consume_db_same.
  - apply IH; auto.
    rewrite product_by_id_consume_db_other; [exact Hp|].
    intros Heq. apply Hnotin. rewrite Heq. now apply in_map.
Qed.

(** The run of [serve_meal] when the stock covers every ingredient. *)
Lemma serve_meal_run_sufficient (w : world)
  (meal_serving : MealServingCreate) (user_id : Z) :
  let ingredients :=
    ingredients_of (msc_meal_id meal_serving) (committed w) in
  NoDup (map mi_product_id ingredients) ->
  ingredients <> [] ->
  forallb (sufficient (committed w)) ingredients = true ->
  let n := (reads w + List.length ingredients)%nat in
  let d1 := consume_all user_id (clock w) (reads w) ingredients
              (committed w) in
  let serving := mkMealServing (meal_servings_id_seq d1)
                   (msc_meal_id meal_serving) user_id (clock w n) in
  let d2 := insert_meal_serving serving d1 in
  get_db (serve_meal meal_serving user_id) w
  = match violated_constraint d2 with
    | Some c =>
        (Raise (IntegrityError c),
         mkWorld (with_sequences_of d2 (committed w))
           (with_sequences_of d2 (committed w))
           (trace w ++ map publication ingredients) (clock w) (S n))
    | None =>
        (Ok serving,
         mkWorld d2 d2 (trace w ++ map publication ingredients ++ [ECommit])
           (clock w) (S n))
    end.
Proof.
  intros ingredients Hnd Hne Hall n d1 serving d2.
  unfold get_db, serve_meal, select_all, bind, query, redis_from_url, ret.
  cbn [session set_session]. fold ingredients.
  destruct ingredients as [|i0 rest] eqn:Ei; [congruence|].
  unfold try_finally, bind.
  destruct (serve_loop_outcome user_id (i0 :: rest) w Hnd)
    as (r0 & w1 & -> & Hw1 & Hc & Ht & Hok & _).
  rewrite (Hok Hall).
  rewrite (take_while_all _ _ Hall) in *.
  destruct (fold_after_ingredient_session user_id (i0 :: rest)
              (set_session (committed w) w)) as (Hs & Hr).
  destruct (fold_after_ingredient_frame user_id (i0 :: rest)
              (set_session (committed w) w)) as (_ & Hk & _).
  rewrite <- Hw1 in Hs, Hr, Hk. cbn [session set_session clock reads] in *.
  unfold utcnow, add_MealServing, commit, flush, bind, refresh, ret,
    redis_aclose, set_session.
  cbn [session committed trace clock reads].
  rewrite Hs, Hr, Hk, Hc, Ht.
  fold n d1 serving d2.
  destruct (violated_constraint d2); cbn; rewrite <- ?app_assoc; reflexivity.
Qed.

Lemma serve_meal_ok_inv (w : world) (meal_serving : MealServingCreate)
  (user_id : Z) (serving : MealServing) (w' : world) :
  let ingredients :=
    ingredients_of (msc_meal_id meal_serving) (committed w) in
  NoDup (map mi_product_id ingredients) ->
  get_db (serve_meal meal_serving user_id) w = (Ok serving, w') ->
  ingredients <> [] /\ forallb (sufficient (committed w)) ingredients = true.
Proof.
  intros ingredients Hnd.
  unfold get_db, serve_meal, select_all, bind, query, redis_from_url, ret.
  cbn [session set_session]. fold ingredients.
  destruct ingredients as [|i0 rest] eqn:Ei;
    [unfold out_of_int4, raise;
     destruct (int4 (msc_meal_id meal_serving)); discriminate|].
  unfold try_finally, bind.
  destruct (serve_loop_outcome user_id (i0 :: rest) w Hnd)
    as (r0 & w1 & -> & _ & _ & _ & _ & Hko).
  destruct (forallb (sufficient (committed w)) (i0 :: rest));
    [split; [discriminate|reflexivity]|].
  destruct (Hko eq_refl) as (detail & ->). discriminate.
Qed.

(** ** C6: the effects of a successful [serve_meal] *)

(** C6.  On rows that satisfy the primary key of [meal_ingredients]:
    (1) when the database is well formed, the meal has ingredients and the
    stock covers each of them, [serve_meal] returns a serving; (2) whenever
    it returns a serving, that serving carries the meal id and the actor
    and is the one row appended to [meal_servings]; the ledger has grown by
    exactly one "consumption" entry per ingredient, in ingredient order,
    recording the product, the quantity consumed and the actor; the table
    of products holds the same rows in the same order, the row of the
    product of every ingredient with its quantity replaced by the former
    quantity minus the ingredient's quantity (the difference of the two
    doubles, as [-=] computes it) and its other columns as they were, and
    every other row unchanged. *)
Theorem serve_meal_success (w : world) (meal_serving : MealServingCreate)
  (user_id : Z) :
  let d := committed w in
  let ingredients := ingredients_of (msc_meal_id meal_serving) d in
  distinct key_eqb (map ingredient_key (meal_ingredients d)) = true ->
  (well_formed d = true ->
   ingredients <> [] ->
   forallb (sufficient d) ingredients = true ->
   exists serving w',
     get_db (serve_meal meal_serving user_id) w = (Ok serving, w'))
  /\ (forall serving w',
      get_db (serve_meal meal_serving user_id) w = (Ok serving, w') ->
      ms_meal_id serving = msc_meal_id meal_serving
      /\ ms_user_id serving = user_id
      /\ meal_servings (committed w') = (meal_servings d ++ [serving])%list
      /\ (exists entries,
           inventory_logs (committed w')
           = (inventory_logs d ++ entries)%list
           /\ map entry_facts entries
              = map (fun i => (mi_product_id i, "consumption",
                               mi_quantity i, user_id)) ingredients)
      /\ map p_id (products (committed w')) = map p_id (products d)
      /\ (forall i p,
           In i ingredients ->
           product_by_id (mi_product_id i) d = Some p ->
           exists p',
             product_by_id (mi_product_id i) (committed w') = Some p'
             /\ p_quantity p' = fsub (p_quantity p) (mi_quantity i)
             /\ p_id p' = p_id p
             /\ p_name p' = p_name p
             /\ p_delivery_date p' = p_delivery_date p
             /\ p_threshold p' = p_threshold p)
      /\ (forall pid,
           ~ In pid (map mi_product_id ingredients) ->
           product_by_id pid (committed w') = product_by_id pid d)).
Proof.
  intros d ingredients Hkey.
  pose proof (ingredients_of_NoDup (msc_meal_id meal_serving) _ Hkey) as Hnd.
  fold d ingredients in Hnd.
  split.
  - intros Hwf Hne Hall.
    rewrite (serve_meal_run_sufficient w meal_serving user_id Hnd Hne Hall).
    apply well_formed_wf in Hwf.
    rewrite wf_no_violation; [eauto|].
    apply wf_insert_meal_serving; [|reflexivity].
    now apply wf_consume_all.
  - intros serving w' Hrun.
    destruct (serve_meal_ok_inv w meal_serving user_id serving w' Hnd Hrun)
      as (Hne & Hall).
    rewrite (serve_meal_run_sufficient w meal_serving user_id Hnd Hne Hall)
      in Hrun.
    destruct (violated_constraint _); [discriminate|].
    injection Hrun as <- <-.
    cbn [committed ms_meal_id ms_user_id insert_meal_serving meal_servings
         inventory_logs].
    destruct (consume_all_frame user_id (clock w) ingredients (reads w) d)
      as (_ & _ & Hserv & _).
    fold d ingredients.
    repeat split.
    + now rewrite Hserv.
    + apply consume_all_logs.
    + apply consume_all_ids.
    + intros i p Hin Hp.
      exists (set_quantity (fsub (p_quantity p) (mi_quantity i)) p).
      split; [|repeat split].
      unfold product_by_id in *. cbn [products].
      now apply (consume_all_products_same user_id (clock w) ingredients i p
                   Hnd Hin (reads w) d).
    + intros pid Hnot. unfold product_by_id in *. cbn [products].
      now apply (consume_all_products_other user_id (clock w) ingredients
                   pid Hnot (reads w) d).
Qed.

Lemma serve_meal_success_witness :
  well_formed kitchen = true
  /\ forallb (sufficient kitchen) (ingredients_of 1 kitchen) = true
  /\ exists serving w',
       get_db (serve_meal (mkMealServingCreate 1) 2) (world_of kitchen)
       = (Ok serving, w').
Proof.
  split; [reflexivity|]. split; [reflexivity|].
  apply (proj1 (serve_meal_success (world_of kitchen)
                  (mkMealServingCreate 1) 2 eq_refl)).
  - reflexivity.
  - discriminate.
  - reflexivity.
Defined.

(** ** Invariants of the database across a coroutine *)

Section Invariant.

Variable I : database -> Prop.

Lemma keeps_ret {A : Type} (a : A) : keeps I (ret a).
Proof. intros w Hc Hs. auto. Qed.

Lemma keeps_raise {A : Type} (e : exn) : keeps I (@raise A e).
Proof. intros w Hc Hs. auto. Qed.

Lemma keeps_bind {A B : Type} (m : M A) (k : A -> M B) :
  keeps I m -> (forall a, keeps I (k a)) -> keeps I (bind m k).
Proof.
  intros Hm Hk w Hc Hs. unfold bind.
  specialize (Hm w Hc Hs). destruct (m w) as [[a|e] w1]; simpl in *.
  - now apply Hk.
  - exact Hm.
Qed.

Lemma keeps_try_except {A : Type} (body : M A) (handler : exn -> M A) :
  keeps I body -> (forall e, keeps I (handler e)) ->
  keeps I (try_except body handler).
Proof.
  intros Hb Hh w Hc Hs. unfold try_except.
  specialize (Hb w Hc Hs). destruct (body w) as [[a|e] w1]; simpl in *.
  - exact Hb.
  - now apply Hh.
Qed.

Lemma keeps_try_finally {A : Type} (body : M A) (cleanup : M unit) :
  keeps I body -> keeps I cleanup -> keeps I (try_finally body cleanup).
Proof.
  intros Hb Hcl w Hc Hs. unfold try_finally.
  specialize (Hb w Hc Hs). destruct (body w) as [r w1]; simpl in *.
  destruct Hb as [Hc1 Hs1]. specialize (Hcl w1 Hc1 Hs1).
  destruct (cleanup w1) as [[u|e] w2]; exact Hcl.
Qed.

Lemma keeps_for_each {A : Type} (xs : list A) (body : A -> M unit) :
  (forall x, keeps I (body x)) -> keeps I (for_each xs body).
Proof.
  intros Hb. induction xs as [|x xs IH]; simpl.
  - apply keeps_ret.
  - apply keeps_bind; auto.
Qed.

Lemma keeps_query {A : Type} (f : database -> A) : keeps I (query f).
Proof. intros w Hc Hs. auto. Qed.

Lemma keeps_modify (f : database -> database) :
  (forall d, I d -> I (f d)) -> keeps I (modify f).
Proof. intros Hf w Hc Hs. simpl. auto. Qed.

Lemma keeps_utcnow : keeps I utcnow.
Proof. intros w Hc Hs. auto. Qed.

(** A flush moves the sequences of the server: it keeps what does not
    depend on them. *)
Hypothesis I_of_tables : forall s d, I d -> I (with_sequences_of s d).

Lemma keeps_flush : keeps I flush.
Proof.
  intros w Hc Hs. unfold flush.
  destruct (violated_constraint (session w)); simpl; auto.
Qed.

Lemma keeps_commit : keeps I commit.
Proof.
  intros w Hc Hs. unfold commit, bind, flush.
  destruct (violated_constraint (session w)); simpl; auto.
Qed.

Lemma keeps_rollback : keeps I rollback.
Proof. intros w Hc Hs. simpl. auto. Qed.

Lemma keeps_publish (channel : string) (message : notification) :
  keeps I (publish channel message).
Proof. intros w Hc Hs. auto. Qed.

(** A request keeps [I] on the committed rows: its session starts from
    them. *)
Lemma get_db_keeps {A : Type} (handler : M A) (w : world) :
  keeps I handler -> I (committed w) ->
  I (committed (snd (get_db handler w))).
Proof.
  intros Hh Hc. unfold get_db.
  specialize (Hh (set_session (committed w) w) Hc Hc).
  destruct (handler _) as [r w1]. simpl in *. tauto.
Qed.

End Invariant.

(** ** Quantities across the requests

    What every request keeps of the stock, the ingredient quantities and
    the ledger, for properties [P], [Qi] and [L] of the three that the
    arithmetic of the code respects. *)

(** A value read from the session may be used with what the invariant
    says about the session it was read from. *)
Lemma keeps_bind_query (I : database -> Prop) {A B : Type}
  (f : database -> A) (k : A -> M B) :
  (forall d, I d -> keeps I (k (f d))) -> keeps I (bind (query f) k).
Proof.
  intros Hk w Hc Hs. unfold bind, query. now apply (Hk (session w)).
Qed.

Lemma keeps_bind_select_first (I : database -> Prop) {A B : Type}
  (find : Z -> database -> option A) (id : Z) (k : option A -> M B) :
  (forall d, I d -> keeps I (k (find id d))) ->
  keeps I (bind (select_first find id) k).
Proof.
  intros Hk w Hc Hs. unfold select_first, bind, query, ret, out_of_int4, raise.
  pose proof (Hk (session w) Hs w Hc Hs) as H.
  destruct (find id (session w)) as [r|]; [exact H|].
  destruct (int4 id); [exact H|auto].
Qed.

Lemma keeps_bind_select_all (I : database -> Prop) {A B : Type}
  (find : Z -> database -> list A) (id : Z) (k : list A -> M B) :
  (forall d, I d -> keeps I (k (find id d))) ->
  keeps I (bind (select_all find id) k).
Proof.
  intros Hk w Hc Hs. unfold select_all, bind, query, ret, out_of_int4, raise.
  pose proof (Hk (session w) Hs w Hc Hs) as H.
  destruct (find id (session w)) as [|r rest]; [|exact H].
  destruct (int4 id); [exact H|auto].
Qed.

Lemma keeps_select_first (I : database -> Prop) {A : Type}
  (find : Z -> database -> option A) (id : Z) :
  keeps I (select_first find id).
Proof.
  intros w Hc Hs. unfold select_first, bind, query, ret, out_of_int4, raise.
  destruct (find id (session w)); [auto|]. destruct (int4 id); auto.
Qed.

Lemma keeps_for_each_in (I : database -> Prop) {A : Type} (xs : list A)
  (body : A -> M unit) :
  (forall x, In x xs -> keeps I (body x)) -> keeps I (for_each xs body).
Proof.
  induction xs as [|x xs IH]; simpl; intros Hb.
  - apply keeps_ret.
  - apply keeps_bind; auto.
Qed.

Lemma keeps_ProductSchema_validate (I : database -> Prop) (p : Product) :
  keeps I (ProductSchema_validate p).
Proof.
  unfold ProductSchema_validate.
  destruct (p_delivery_date p); [apply keeps_ret|apply keeps_raise].
Qed.

Lemma Forall_update_first (Q : Product -> Prop) (pid : Z)
  (f : Product -> Product) (rows : list Product) :
  (forall p, Q p -> Q (f p)) ->
  Forall Q rows -> Forall Q (update_first pid f rows).
Proof.
  intros Hf. induction 1 as [|p rows Hp Hrows IH]; simpl; [constructor|].
  destruct (p_id p =? pid); constructor; auto.
Qed.

Section Quantities.

Variables P Qi : float -> Prop.
Variable L : InventoryLog -> Prop.

Local Abbreviation I := (quantities P Qi L).

(** What the schema lets in. *)
Hypothesis body_stock : forall q, fle zero q = true -> P q.
Hypothesis body_ingredient : forall q, fle zero q = true -> Qi q.

(** Line 164, after the test of line 162. *)
Hypothesis served_stock :
  forall q i, P q -> Qi i -> flt q i = false -> P (fsub q i).

(** The four kinds of ledger entries. *)
Hypothesis delivery_entry :
  forall id pid q t u,
    fle zero q = true -> L (mkInventoryLog id pid "delivery" q t u).
Hypothesis change_entry :
  forall id pid old new t u,
    P old -> fle zero new = true -> fne old new = true ->
    L (mkInventoryLog id pid
         (if flt old new then "delivery" else "adjustment")
         (fabs (fsub new old)) t u).
Hypothesis removal_entry :
  forall id pid q t u, P q -> L (mkInventoryLog id pid "removal" q t u).
Hypothesis consumption_entry :
  forall id pid q t u, Qi q -> L (mkInventoryLog id pid "consumption" q t u).

Lemma quantities_of_tables (s d : database) :
  I d -> I (with_sequences_of s d).
Proof. intros H. exact H. Qed.

Lemma quantities_frame (d d' : database) :
  products d' = products d ->
  meal_ingredients d' = meal_ingredients d ->
  inventory_logs d' = inventory_logs d ->
  I d -> I d'.
Proof. unfold quantities. intros -> -> ->. auto. Qed.

Lemma quantities_add_InventoryLog (product_id : Z) (change_type : string)
  (quantity : float) (timestamp : datetime) (user_id : Z) :
  (forall id,
     L (mkInventoryLog id product_id change_type quantity timestamp user_id))
  -> keeps I
       (add_InventoryLog product_id change_type quantity timestamp user_id).
Proof.
  intros Hq w Hc Hs. simpl. split; [exact Hc|].
  destruct Hs as (Hp & Hi & Hl). repeat split; auto.
  simpl. apply Forall_app. split; [exact Hl|].
  constructor; [apply Hq|constructor].
Qed.

Lemma quantities_set_products (f : list Product -> list Product) :
  (forall rows, Forall (fun p => P (p_quantity p)) rows ->
                Forall (fun p => P (p_quantity p)) (f rows)) ->
  keeps I (modify (fun d => with_products (f (products d)) d)).
Proof.
  intros Hf. apply keeps_modify. intros d (Hp & Hi & Hl).
  repeat split; auto. simpl. auto.
Qed.

Lemma quantities_add_MealIngredient (meal_id product_id : Z)
  (quantity : float) :
  Qi quantity ->
  keeps I (add_MealIngredient meal_id product_id quantity).
Proof.
  intros Hq. apply keeps_modify. intros d (Hp & Hi & Hl).
  repeat split; auto. simpl.
  apply Forall_app. split; [exact Hi|]. constructor; [exact Hq|constructor].
Qed.

Lemma quantities_execute (s : statement) : keeps I (execute s).
Proof.
  destruct s. apply keeps_modify. intros d (Hp & Hi & Hl).
  repeat split; auto. simpl.
  apply Forall_forall. intros x Hx. apply filter_In in Hx as [Hx _].
  rewrite Forall_forall in Hi. auto.
Qed.

Lemma quantities_product_by_id (d : database) (pid : Z) (p : Product) :
  I d -> product_by_id pid d = Some p -> P (p_quantity p).
Proof.
  intros (Hp & _) H. apply first_some_in in H as [Hin _].
  rewrite Forall_forall in Hp. auto.
Qed.

Lemma quantities_create_product (product : ProductCreate) :
  ProductCreate_valid product = true ->
  keeps I (create_product product).
Proof.
  intros Hv. apply andb_true_iff in Hv as [Hq _].
  unfold create_product.
  apply keeps_bind; [apply keeps_utcnow|]. intros now.
  apply keeps_bind.
  { intros w Hc (Hp & Hi & Hl). simpl. split; [exact Hc|].
    repeat split; auto. simpl.
    apply Forall_app. split; [exact Hp|].
    constructor; [now apply body_stock|constructor]. }
  intros db_product.
  apply keeps_bind; [apply keeps_flush, quantities_of_tables|]. intros _.
  apply keeps_bind; [apply keeps_utcnow|]. intros now'.
  apply keeps_bind.
  { apply quantities_add_InventoryLog. intros id. now apply delivery_entry. }
  intros _.
  apply keeps_bind; [|intros _; apply keeps_ret].
  apply keeps_try_except; [apply keeps_commit, quantities_of_tables|].
  intros e. destruct e as [ | orig | | | | | | | | ];
    try apply keeps_raise.
  apply keeps_bind; [apply keeps_rollback|]. intros _.
  destruct (contains _ _); apply keeps_raise.
Qed.

Lemma quantities_update_product (product_id : Z) (product : ProductCreate) :
  ProductCreate_valid product = true ->
  keeps I (update_product product_id product).
Proof.
  intros Hv. apply andb_true_iff in Hv as [Hq _].
  unfold update_product.
  apply keeps_bind_select_first. intros d Hd.
  destruct (product_by_id product_id d) as [db_product|] eqn:Ep;
    [|apply keeps_ret].
  pose proof (quantities_product_by_id d product_id db_product Hd Ep) as Hold.
  apply keeps_bind.
  { apply (quantities_set_products
             (update_first product_id
                (fun _ => mkProduct (p_id db_product) (pc_name product)
                            (pc_quantity product) (pc_delivery_date product)
                            (pc_threshold product)))).
    intros rows Hrows. apply Forall_update_first; [|exact Hrows].
    intros _ _. cbn [p_quantity]. now apply body_stock. }
  intros _. apply keeps_bind.
  { cbn [p_quantity].
    destruct (fne (p_quantity db_product) (pc_quantity product)) eqn:En;
      [|apply keeps_ret].
    apply keeps_bind; [apply keeps_utcnow|]. intros now.
    apply quantities_add_InventoryLog. intros id. now apply change_entry. }
  intros _. apply keeps_bind; [apply keeps_commit, quantities_of_tables|].
  intros _. apply keeps_bind; [apply keeps_ret|]. intros; apply keeps_ret.
Qed.

Lemma quantities_delete_product (product_id : Z) :
  keeps I (delete_product product_id).
Proof.
  unfold delete_product.
  apply keeps_bind_select_first. intros d Hd.
  destruct (product_by_id product_id d) as [db_product|] eqn:Ep;
    [|apply keeps_ret].
  apply keeps_bind; [apply keeps_utcnow|]. intros now.
  apply keeps_bind.
  { apply quantities_add_InventoryLog. intros id. apply removal_entry.
    exact (quantities_product_by_id d product_id db_product Hd Ep). }
  intros _. apply keeps_bind; [apply keeps_ret|]. intros _.
  apply keeps_bind; [apply keeps_commit, quantities_of_tables|].
  intros _. apply keeps_ret.
Qed.

Lemma quantities_create_meal (meal : MealCreate) :
  MealCreate_valid meal = true ->
  keeps I (create_meal meal).
Proof.
  intros Hv. unfold MealCreate_valid in Hv. rewrite forallb_forall in Hv.
  unfold create_meal.
  apply keeps_bind.
  { intros w Hc Hs. simpl. split; [exact Hc|].
    apply (quantities_frame (session w)); auto. }
  intros db_meal.
  apply keeps_bind; [apply keeps_commit, quantities_of_tables|]. intros _.
  apply keeps_bind; [apply keeps_ret|]. intros db_meal'.
  apply keeps_bind;
    [|intros _; apply keeps_bind;
        [apply keeps_commit, quantities_of_tables
        |intros _; apply keeps_ret]].
  apply keeps_for_each_in. intros ingredient Hin.
  apply keeps_bind; [apply keeps_select_first|].
  intros [p|]; [|apply keeps_raise].
  apply quantities_add_MealIngredient. apply body_ingredient. auto.
Qed.

Lemma quantities_update_meal (meal_id : Z) (meal : MealCreate) :
  MealCreate_valid meal = true ->
  keeps I (update_meal meal_id meal).
Proof.
  intros Hv. unfold MealCreate_valid in Hv. rewrite forallb_forall in Hv.
  unfold update_meal.
  apply keeps_bind; [apply keeps_select_first|]. intros [db_meal|];
    [|apply keeps_ret].
  apply keeps_bind.
  { apply keeps_modify. intros d Hd. now apply (quantities_frame d). }
  intros _.
  apply keeps_bind; [apply keeps_raise|]. intros stmt.
  apply keeps_bind; [apply quantities_execute|]. intros _.
  apply keeps_bind.
  { apply keeps_for_each_in. intros ingredient Hin.
    apply quantities_add_MealIngredient. apply body_ingredient. auto. }
  intros _. apply keeps_bind; [apply keeps_commit, quantities_of_tables|].
  intros _. apply keeps_bind; [apply keeps_ret|]. intros; apply keeps_ret.
Qed.

Lemma quantities_delete_meal (meal_id : Z) : keeps I (delete_meal meal_id).
Proof.
  unfold delete_meal.
  apply keeps_bind; [apply keeps_select_first|]. intros [db_meal|];
    [|apply keeps_ret].
  apply keeps_bind; [apply keeps_query|]. intros [|s rest];
    [|apply keeps_raise].
  apply keeps_bind; [apply keeps_raise|]. intros stmt.
  apply keeps_bind; [apply quantities_execute|]. intros _.
  apply keeps_bind; [apply keeps_ret|]. intros _.
  apply keeps_bind; [apply keeps_commit, quantities_of_tables|].
  intros _. apply keeps_ret.
Qed.

Lemma quantities_serve_ingredient (user_id : Z) (i : MealIngredient) :
  Qi (mi_quantity i) ->
  keeps I (serve_ingredient user_id i).
Proof.
  intros Hi. unfold serve_ingredient.
  apply keeps_bind_query. intros d Hd.
  destruct (product_by_id (mi_product_id i) d) as [p|] eqn:Ep;
    [|apply keeps_raise].
  pose proof (quantities_product_by_id d _ p Hd Ep) as Hp.
  destruct (flt (p_quantity p) (mi_quantity i)) eqn:E;
    [apply keeps_raise|].
  apply keeps_bind.
  { apply (quantities_set_products
             (update_first (mi_product_id i)
                (set_quantity (fsub (p_quantity p) (mi_quantity i))))).
    intros rows Hrows. apply Forall_update_first; [|exact Hrows].
    intros q _. cbn [set_quantity p_quantity]. now apply served_stock. }
  intros _. apply keeps_bind; [apply keeps_utcnow|]. intros now.
  apply keeps_bind.
  { apply quantities_add_InventoryLog. intros id.
    now apply consumption_entry. }
  intros _. apply keeps_publish.
Qed.

Lemma quantities_serve_meal (meal_serving : MealServingCreate)
  (user_id : Z) :
  keeps I (serve_meal meal_serving user_id).
Proof.
  unfold serve_meal.
  apply keeps_bind_select_all. intros d (_ & Hd & _).
  destruct (ingredients_of (msc_meal_id meal_serving) d)
    as [|i0 rest] eqn:Ei; [apply keeps_raise|].
  apply keeps_bind; [apply keeps_ret|]. intros _.
  apply keeps_try_finally; [|apply keeps_ret].
  apply keeps_bind.
  { apply keeps_for_each_in. intros i Hin.
    apply quantities_serve_ingredient.
    rewrite <- Ei in Hin. apply filter_In in Hin as [Hin _].
    rewrite Forall_forall in Hd. auto. }
  intros _. apply keeps_bind; [apply keeps_utcnow|]. intros now.
  apply keeps_bind.
  { intros w Hc Hs. simpl. split; [exact Hc|].
    apply (quantities_frame (session w)); auto. }
  intros serving.
  apply keeps_bind; [apply keeps_commit, quantities_of_tables|].
  intros _. apply keeps_ret.
Qed.

(** The four requests that write product quantities. *)
Lemma quantities_handle (w : world) (req : request) :
  I (committed w) -> I (committed (handle w req)).
Proof.
  intros H.
  destruct req as [product u | product_id product u | product_id u
                  | meal_serving u]; simpl.
  - unfold create_new_product.
    destruct (ProductCreate_valid product) eqn:Ev; [|exact H].
    apply get_db_keeps; [|exact H].
    destruct (role_in _ u); [|apply keeps_raise].
    apply keeps_bind; [now apply quantities_create_product|].
    intros p. apply keeps_ProductSchema_validate.
  - unfold update_existing_product.
    destruct (ProductCreate_valid product) eqn:Ev; [|exact H].
    apply get_db_keeps; [|exact H].
    destruct (role_in _ u); [|apply keeps_raise].
    apply keeps_bind; [now apply quantities_update_product|].
    intros [p|]; [apply keeps_ProductSchema_validate|apply keeps_raise].
  - unfold delete_existing_product.
    apply get_db_keeps; [|exact H].
    destruct (role_in _ u); [|apply keeps_raise].
    apply keeps_bind; [apply quantities_delete_product|].
    intros [p|]; [apply keeps_ret|apply keeps_raise].
  - unfold serve_meal_endpoint.
    apply get_db_keeps; [|exact H].
    destruct (role_in _ u); [apply quantities_serve_meal|apply keeps_raise].
Qed.

(** Every request that writes. *)
Lemma quantities_after (w : world) (req : api_request) :
  I (committed w) -> I (committed (after w req)).
Proof.
  intros H. unfold after, answer.
  destruct req as [product u | product_id product u | product_id u
                  | meal u | meal_id meal u | meal_id u | meal_serving u];
    cbn [snd].
  - exact (quantities_handle w (CreateProduct product u) H).
  - exact (quantities_handle w (UpdateProduct product_id product u) H).
  - exact (quantities_handle w (DeleteProduct product_id u) H).
  - unfold create_new_meal.
    destruct (MealCreate_valid meal) eqn:Ev; [|exact H].
    apply get_db_keeps; [|exact H].
    destruct (role_in _ u); [now apply quantities_create_meal|].
    apply keeps_raise.
  - unfold update_existing_meal.
    destruct (MealCreate_valid meal) eqn:Ev; [|exact H].
    apply get_db_keeps; [|exact H].
    destruct (role_in _ u); [|apply keeps_raise].
    apply keeps_bind; [now apply quantities_update_meal|].
    intros [m|]; [apply keeps_ret|apply keeps_raise].
  - unfold delete_existing_meal.
    apply get_db_keeps; [|exact H].
    destruct (role_in _ u); [|apply keeps_raise].
    apply keeps_bind; [apply quantities_delete_meal|].
    intros [m|]; [apply keeps_ret|apply keeps_raise].
  - exact (quantities_handle w (ServeMeal meal_serving u) H).
Qed.

Lemma quantities_after_all (requests : list api_request) :
  forall w, I (committed w) -> I (committed (fold_left after requests w)).
Proof.
  induction requests as [|req rest IH]; intros w H; simpl; auto.
  apply IH. now apply quantities_after.
Qed.

End Quantities.

(** ** C5: a product quantity that is not 0 or more

    The schema asks [quantity >= 0] of a product and of an ingredient, and
    line 162 refuses to take more than there is: the code means to keep
    every product quantity at 0 or more.  It misses the infinite
    quantities: [Infinity] passes [Field(ge=0)], [inf < inf] is false, and
    [inf - inf] is NaN, which is committed as the product's quantity. *)

(** The two bodies pass their schema, and the kitchen they lead to has
    every product quantity at 0 or more. *)
Lemma kitchen_with_brine_reached :
  body_valid (PostProduct salt_body admin) = true
  /\ body_valid (PostMeal brine_body admin) = true
  /\ map p_quantity (products kitchen_with_brine)
     = [float_of_Z 100; float_of_Z 30; infinity]
  /\ ingredients_of 3 kitchen_with_brine = [mkMealIngredient 3 3 infinity]
  /\ stock_nonneg kitchen_with_brine.
Proof.
  repeat split; try (vm_compute; reflexivity).
  unfold stock_nonneg. vm_compute products. repeat constructor.
Qed.

(** C5 fails on the code: in that kitchen, serving Brine once is answered
    with a serving, and the committed quantity of Salt is NaN, for which
    [quantity >= 0] is false. *)
Theorem quantity_not_a_number_after_serving :
  let w := serve_meal_endpoint (mkMealServingCreate 3) cook
             (world_of kitchen_with_brine) in
  stock_nonneg kitchen_with_brine
  /\ (exists serving, fst w = Ok serving)
  /\ map p_quantity (products (committed (snd w)))
     = [float_of_Z 100; float_of_Z 30; NaN]
  /\ fle zero NaN = false
  /\ ~ stock_nonneg
         (committed (handle (world_of kitchen_with_brine)
                       (ServeMeal (mkMealServingCreate 3) cook))).
Proof.
  cbv zeta. split; [apply kitchen_with_brine_reached|].
  split; [eexists; vm_compute; reflexivity|].
  split; [vm_compute; reflexivity|].
  split; [reflexivity|].
  intros H. unfold stock_nonneg in H. rewrite Forall_forall in H.
  assert (Hin : exists p,
            In p (products
                    (committed (handle (world_of kitchen_with_brine)
                                  (ServeMeal (mkMealServingCreate 3) cook))))
            /\ p_quantity p = NaN).
  { vm_compute. eexists. split; [right; right; left; reflexivity|].
    reflexivity. }
  destruct Hin as (p & Hp & Eq). specialize (H p Hp). rewrite Eq in H.
  discriminate.
Qed.



(** ** C9: a created product reads back *)

Lemma wf_insert_product (row : Product) (d : database) :
  wf d ->
  p_id row = products_id_seq d ->
  existsb (fun p => String.eqb (p_name p) (p_name row)) (products d) = false ->
  wf (insert_product row d).
Proof.
  intros [] Hid Hname. constructor; simpl; auto.
  - rewrite map_app. simpl. rewrite Hid. now apply distinct_fresh.
  - rewrite map_app. simpl. apply distinct_snoc; [assumption|].
    intros y Hy. apply in_map_iff in Hy as (p & <- & Hp).
    destruct (String.eqb (p_name p) (p_name row)) eqn:E; [|reflexivity].
    assert (existsb (fun p => String.eqb (p_name p) (p_name row))
              (products d) = true)
      by (apply existsb_exists; eauto).
    congruence.
  - now apply forallb_below_succ.
Qed.

Lemma wf_insert_inventory_log (l : InventoryLog) (d : database) :
  wf d -> il_id l = inventory_logs_id_seq d -> wf (insert_inventory_log l d).
Proof.
  intros [] Hid. constructor; simpl; auto.
  - rewrite map_app. simpl. rewrite Hid. now apply distinct_fresh.
  - now apply forallb_below_succ.
Qed.

Lemma first_snoc_fresh {A : Type} (c : A -> bool) (rows : list A) (a : A) :
  (forall r, In r rows -> c r = false) -> c a = true ->
  first c (rows ++ [a]) = Some a.
Proof.
  intros Hrows Ha. unfold first. rewrite filter_app.
  assert (Hnil : filter c rows = []).
  { induction rows as [|r rows IH]; simpl; [reflexivity|].
    rewrite (Hrows r (or_introl eq_refl)). apply IH.
    intros x Hx. apply Hrows. now right. }
  rewrite Hnil. simpl. now rewrite Ha.
Qed.

(** C9.  On a well-formed database that holds no product of the given
    name, [create_product] returns a product; reading that product by its
    id in the next request returns it; its name, quantity and threshold are
    those of the input, and its delivery timestamp is the reading of the
    server clock taken by the call, whatever [delivery_date] the client
    sent. *)
Theorem create_product_then_get_product (w : world) (product : ProductCreate) :
  well_formed (committed w) = true ->
  existsb (fun p => String.eqb (p_name p) (pc_name product))
    (products (committed w)) = false ->
  exists created w',
    get_db (create_product product) w = (Ok created, w')
    /\ fst (get_db (get_product (p_id created)) w') = Ok (Some created)
    /\ p_name created = pc_name product
    /\ p_quantity created = pc_quantity product
    /\ p_threshold created = pc_threshold product
    /\ p_delivery_date created = Some (clock w (reads w)).
Proof.
  intros Hwf Hfresh. apply well_formed_wf in Hwf.
  set (d := committed w) in *.
  set (row := mkProduct (products_id_seq d) (pc_name product)
                (pc_quantity product) (Some (clock w (reads w)))
                (pc_threshold product)).
  assert (Hwf1 : wf (insert_product row d))
    by (apply wf_insert_product; auto).
  set (entry := mkInventoryLog
                  (inventory_logs_id_seq (insert_product row d)) (p_id row)
                  "delivery" (pc_quantity product) (clock w (S (reads w))) 1).
  assert (Hwf2 : wf (insert_inventory_log entry (insert_product row d)))
    by (apply wf_insert_inventory_log; auto).
  exists row. eexists. split; [|split].
  - unfold get_db, create_product, bind, utcnow, add_Product, flush,
      add_InventoryLog, try_except, commit, flush, bind, refresh, ret,
      set_session.
    cbn [session committed trace clock reads]. fold d row.
    rewrite (wf_no_violation _ Hwf1).
    cbn [session committed trace clock reads]. fold entry.
    rewrite (wf_no_violation _ Hwf2).
    reflexivity.
  - unfold get_db, get_product.
    rewrite (select_first_found product_by_id (p_id row) row);
      [reflexivity|].
    unfold product_by_id, set_session.
    cbn [fst session committed products insert_inventory_log insert_product].
    apply first_snoc_fresh.
    + intros r Hr. destruct Hwf as [_ _ _ _ _ _ _ Hseq _ _ _].
      rewrite forallb_forall in Hseq. specialize (Hseq r Hr).
      apply Z.ltb_lt in Hseq. apply Z.eqb_neq. simpl. lia.
    + apply Z.eqb_refl.
  - auto.
Qed.

Lemma create_product_then_get_product_witness :
  well_formed kitchen = true
  /\ exists created w',
       get_db (create_product (mkProductCreate "Eggs" 20 5 (Some 77)))
         (world_of kitchen) = (Ok created, w')
       /\ fst (get_db (get_product (p_id created)) w') = Ok (Some created)
       /\ p_name created = "Eggs"
       /\ p_quantity created = float_of_Z 20
       /\ p_threshold created = float_of_Z 5
       /\ p_delivery_date created = Some 1000.
Proof.
  split; [reflexivity|].
  apply (create_product_then_get_product (world_of kitchen)
           (mkProductCreate "Eggs" 20 5 (Some 77))).
  - reflexivity.
  - reflexivity.
Defined.

(** ** The loops of [get_portion_estimates] *)

Lemma py_min_PyInt (z a : Z) : py_min (PyInt z) a = PyInt (Z.min z a).
Proof.
  unfold py_min. destruct (a <? z) eqn:E; f_equal.
  - apply Z.ltb_lt in E. lia.
  - apply Z.ltb_ge in E. lia.
Qed.

Lemma fold_py_min_PyInt (l : list Z) :
  forall z, fold_left py_min l (PyInt z) = PyInt (fold_left Z.min l z).
Proof.
  induction l as [|a l IH]; cbn [fold_left]; intros z; [reflexivity|].
  now rewrite py_min_PyInt, IH.
Qed.

Lemma fold_py_min_inf (l : list Z) :
  fold_left py_min l PyFloatInf
  = match minimum l with
    | Some z => PyInt z
    | None => PyFloatInf
    end.
Proof.
  destruct l as [|a l]; cbn [fold_left minimum]; [reflexivity|].
  apply fold_py_min_PyInt.
Qed.

(** The inner loop reads the session and nothing else: it folds [min] over
    the availabilities of the ingredients whose product exists, up to the
    first one that raises. *)
Lemma portions_fold_run (ingredients : list MealIngredient) (w : world) :
  forall portions,
    for_fold ingredients portions
      (fun portions ingredient =>
         product <- query (product_by_id (mi_product_id ingredient)) ;;
         match product with
         | Some p =>
             available <- eval (avail p ingredient) ;;
             ret (py_min portions available)
         | None => ret portions
         end) w
    = (fold_min (availabilities (session w) ingredients) portions, w).
Proof.
  induction ingredients as [|i l IH]; simpl; intros portions; [reflexivity|].
  unfold bind at 1. unfold bind at 1. unfold query at 1.
  destruct (product_by_id (mi_product_id i) (session w)) as [p|].
  - unfold bind at 1, eval at 1. cbn [app fold_min].
    destruct (avail p i) as [a|e]; [|reflexivity].
    unfold ret at 1. apply IH.
  - unfold ret at 1. apply IH.
Qed.

Lemma portions_loop_run (ingredients : list MealIngredient) (w : world) :
  portions_loop ingredients w
  = (fold_min (availabilities (session w) ingredients) PyFloatInf, w).
Proof.
  unfold portions_loop. apply portions_fold_run.
Qed.

(** One turn of the outer loop. *)
Lemma estimate_meal_run (estimates : list PortionEstimate) (meal : Meal)
  (w : world) :
  (ingredients <- query (ingredients_of (m_id meal)) ;;
   match ingredients with
   | [] =>
       ret (estimates
            ++ [mkPortionEstimate (m_id meal) (m_name meal) 0])%list
   | _ :: _ =>
       portions <- portions_loop ingredients ;;
       n <- eval (py_int portions) ;;
       ret (estimates
            ++ [mkPortionEstimate (m_id meal) (m_name meal) n])%list
   end) w
  = match expected_portions (session w) meal with
    | Ok n =>
        (Ok (estimates
             ++ [mkPortionEstimate (m_id meal) (m_name meal) n])%list, w)
    | Raise e => (Raise e, w)
    end.
Proof.
  unfold expected_portions, bind at 1, query.
  destruct (ingredients_of (m_id meal) (session w)) as [|i rest];
    [reflexivity|].
  unfold bind. rewrite portions_loop_run.
  destruct (fold_min (availabilities (session w) (i :: rest)) PyFloatInf)
    as [portions|e]; [|reflexivity].
  unfold eval. destruct (py_int portions); reflexivity.
Qed.

Lemma estimates_loop_run (all_meals : list Meal) (w : world) :
  forall estimates,
    for_fold all_meals estimates
      (fun estimates meal =>
         ingredients <- query (ingredients_of (m_id meal)) ;;
         match ingredients with
         | [] =>
             ret (estimates
                  ++ [mkPortionEstimate (m_id meal) (m_name meal) 0])%list
         | _ :: _ =>
             portions <- portions_loop ingredients ;;
             n <- eval (py_int portions) ;;
             ret (estimates
                  ++ [mkPortionEstimate (m_id meal) (m_name meal) n])%list
         end) w
    = (expected_estimates (session w) all_meals estimates, w).
Proof.
  induction all_meals as [|meal rest IH]; simpl; intros estimates.
  - reflexivity.
  - unfold bind at 1. rewrite estimate_meal_run.
    destruct (expected_portions (session w) meal) as [n|e]; [|reflexivity].
    apply IH.
Qed.

(** [get_portion_estimates] is a function of the committed rows, and
    writes nothing. *)
Lemma get_portion_estimates_run (w : world) :
  get_db get_portion_estimates w
  = (expected_estimates (committed w) (meals (committed w)) [],
     set_session (committed w) w).
Proof.
  unfold get_db, get_portion_estimates, bind at 1, query at 1.
  rewrite estimates_loop_run. reflexivity.
Qed.

Lemma fold_min_le (l : list Z) :
  forall x, fold_left Z.min l x <= x
            /\ (forall y, In y l -> fold_left Z.min l x <= y)
            /\ (fold_left Z.min l x = x \/ In (fold_left Z.min l x) l).
Proof.
  induction l as [|a l IH]; simpl; intros x.
  - repeat split; [lia|contradiction|auto].
  - destruct (IH (Z.min x a)) as (Hle & Hall & Hin).
    repeat split.
    + lia.
    + intros y [<- | Hy]; [lia|auto].
    + destruct Hin as [Heq | Hin]; [|auto].
      rewrite Heq. destruct (Z.min_spec x a) as [[_ ->] | [_ ->]]; auto.
Qed.

(** [minimum] is the least element. *)
Lemma minimum_spec (l : list Z) (z : Z) :
  minimum l = Some z -> In z l /\ forall y, In y l -> z <= y.
Proof.
  destruct l as [|x l]; simpl; [discriminate|]. intros [= <-].
  destruct (fold_min_le l x) as (Hle & Hall & Hin).
  split.
  - destruct Hin as [-> | Hin]; auto.
  - intros y [<- | Hy]; auto.
Qed.

(** The availabilities are those of the ingredients whose product exists. *)
Lemma availabilities_spec (d : database) (ingredients : list MealIngredient)
  (r : result Z) :
  In r (availabilities d ingredients) <->
  exists i p, In i ingredients
              /\ product_by_id (mi_product_id i) d = Some p
              /\ r = avail p i.
Proof.
  unfold availabilities. rewrite in_flat_map. split.
  - intros (i & Hi & Hz).
    destruct (product_by_id (mi_product_id i) d) as [p|] eqn:Ep;
      [|contradiction].
    destruct Hz as [<- | []]. eauto.
  - intros (i & p & Hi & Hp & ->). exists i. rewrite Hp. simpl. auto.
Qed.

(** The inner loop ends without an exception exactly when no availability
    raises, and then with the fold of [min] over them. *)
Lemma fold_min_Ok (availables : list (result Z)) :
  forall portions r,
    fold_min availables portions = Ok r <->
    exists zs, availables = map Ok zs /\ r = fold_left py_min zs portions.
Proof.
  induction availables as [|[a|e] l IH]; intros portions r; cbn [fold_min].
  - split.
    + intros [= <-]. exists []. auto.
    + intros ([|z zs] & Hl & ->); [reflexivity|discriminate].
  - rewrite IH. split.
    + intros (zs & -> & ->). exists (a :: zs). auto.
    + intros ([|z zs] & Hl & ->); [discriminate|].
      injection Hl as <- ->. eauto.
  - split; [discriminate|].
    intros ([|z zs] & Hl & _); discriminate.
Qed.

Lemma fold_min_Raise (availables : list (result Z)) (e : exn) :
  forall portions,
    fold_min availables portions = Raise e -> In (Raise e) availables.
Proof.
  induction availables as [|[a|e'] l IH]; intros portions; cbn [fold_min].
  - discriminate.
  - intros H. right. eapply IH, H.
  - intros [= ->]. now left.
Qed.

(** What the code appends for a meal, in terms of the availabilities. *)
Lemma expected_portions_Ok (d : database) (meal : Meal) (n : Z) :
  expected_portions d meal = Ok n <->
  match ingredients_of (m_id meal) d with
  | [] => n = 0
  | i :: rest =>
      exists zs, availabilities d (i :: rest) = map Ok zs
                 /\ minimum zs = Some n
  end.
Proof.
  unfold expected_portions.
  destruct (ingredients_of (m_id meal) d) as [|i rest].
  - split; [intros [= <-]; reflexivity|intros ->; reflexivity].
  - destruct (fold_min (availabilities d (i :: rest)) PyFloatInf)
      as [r|e] eqn:Ef.
    + apply fold_min_Ok in Ef as (zs & Hz & ->).
      rewrite fold_py_min_inf. split.
      * intros H. exists zs. split; [exact Hz|].
        destruct (minimum zs); [injection H as <-; reflexivity|discriminate].
      * intros (zs' & Hz' & Hmin). rewrite Hz in Hz'.
        assert (zs' = zs).
        { clear -Hz'. revert zs' Hz'.
          induction zs as [|z zs IH]; intros [|z' zs'] H;
            try discriminate; [reflexivity|].
          injection H as -> H. f_equal. now apply IH. }
        subst zs'. now rewrite Hmin.
    + split; [discriminate|].
      intros (zs & Hz & _).
      assert (Hok : fold_min (availabilities d (i :: rest)) PyFloatInf
                    = Ok (fold_left py_min zs PyFloatInf))
        by (apply fold_min_Ok; eauto).
      congruence.
Qed.

Lemma truediv_positive (q i : float) :
  flt zero i = true -> truediv q i = Ok (fdiv q i).
Proof.
  intros Hi. unfold truediv. now destruct (flt_zero_pos i Hi) as [-> _].
Qed.

(** What an availability can raise: [math.floor] on an infinite or NaN
    quotient. *)
Lemma avail_Raise (p : Product) (i : MealIngredient) (e : exn) :
  avail p i = Raise e ->
  (e = OverflowError "cannot convert float infinity to integer"
   /\ exists s, fdiv (p_quantity p) (mi_quantity i) = Inf s)
  \/ (e = ValueError "cannot convert float NaN to integer"
      /\ fdiv (p_quantity p) (mi_quantity i) = NaN).
Proof.
  unfold avail. destruct (flt zero (mi_quantity i)) eqn:Hi; [|discriminate].
  rewrite (truediv_positive _ _ Hi).
  destruct (fdiv (p_quantity p) (mi_quantity i)) as [|s|m e0 H];
    cbn [math_floor]; intros [= <-]; eauto.
Qed.

Lemma expected_portions_Raise (d : database) (meal : Meal) (e : exn) :
  expected_portions d meal = Raise e ->
  e = OverflowError "cannot convert float infinity to integer"
  \/ (e = ValueError "cannot convert float NaN to integer"
      /\ exists i p,
           In i (ingredients_of (m_id meal) d)
           /\ product_by_id (mi_product_id i) d = Some p
           /\ fdiv (p_quantity p) (mi_quantity i) = NaN).
Proof.
  unfold expected_portions.
  destruct (ingredients_of (m_id meal) d) as [|i rest]; [discriminate|].
  destruct (fold_min (availabilities d (i :: rest)) PyFloatInf)
    as [r|e'] eqn:Ef.
  - destruct r; cbn [py_int]; intros [= <-]; auto.
  - intros [= ->]. apply fold_min_Raise in Ef.
    apply availabilities_spec in Ef as (i' & p & Hi & Hp & Hr).
    symmetry in Hr. apply avail_Raise in Hr as [[-> _]|[-> Hn]]; [auto|].
    right. split; [reflexivity|]. eauto.
Qed.

(** The outer loop: one estimate per meal, in order, or the exception of
    the first meal whose turn raises. *)
Lemma expected_estimates_Ok (d : database) (all_meals : list Meal) :
  forall estimates result,
    expected_estimates d all_meals estimates = Ok result ->
    exists added,
      result = (estimates ++ added)%list
      /\ Forall2 (fun meal e =>
                    pe_meal_id e = m_id meal
                    /\ pe_name e = m_name meal
                    /\ expected_portions d meal = Ok (pe_portions e))
           all_meals added.
Proof.
  induction all_meals as [|meal rest IH]; intros estimates result;
    cbn [expected_estimates].
  - intros [= <-]. exists []. rewrite app_nil_r. split; constructor.
  - destruct (expected_portions d meal) as [n|e] eqn:En; [|discriminate].
    intros H. apply IH in H as (added & -> & Hall).
    exists (mkPortionEstimate (m_id meal) (m_name meal) n :: added).
    split; [now rewrite <- app_assoc|].
    constructor; [auto|exact Hall].
Qed.


Lemma expected_estimates_Raise (d : database) (all_meals : list Meal) :
  forall estimates meal e,
    In meal all_meals ->
    expected_portions d meal = Raise e ->
    exists meal' e',
      In meal' all_meals
      /\ expected_portions d meal' = Raise e'
      /\ expected_estimates d all_meals estimates = Raise e'.
Proof.
  induction all_meals as [|m rest IH]; intros estimates meal e Hin Hr;
    [contradiction|].
  cbn [expected_estimates].
  destruct (expected_portions d m) as [n|e0] eqn:En.
  - destruct Hin as [-> | Hin]; [congruence|].
    destruct (IH (estimates
                  ++ [mkPortionEstimate (m_id m) (m_name m) n])%list
                meal e Hin Hr) as (meal' & e' & Hin' & He' & Hrun).
    exists meal', e'. split; [now right|]. auto.
  - exists m, e0. split; [now left|]. auto.
Qed.

(** ** C2: the portion estimate *)


Lemma in_map_Ok (zs : list Z) (z : Z) : In (Ok z) (map Ok zs) <-> In z zs.
Proof.
  rewrite in_map_iff. split.
  - intros (x & [= ->] & Hx). exact Hx.
  - intros H. eauto.
Qed.



(** An ingredient whose product is missing is left out of the minimum, it
    does not count as 0: with 100 of Milk, a meal taking 50 of the missing
    product 7 and 30 of Milk is estimated at 3 portions. *)
Example portion_estimate_skips_missing_product :
  fst (get_portion_estimates_endpoint admin
         (world_of kitchen_half_dangling))
  = Ok [mkPortionEstimate 1 "Breakfast" 3].
Proof.
  vm_compute. reflexivity.
Qed.

(** The quotient is the one of the doubles.  With 1 of Sugar and Tea
    taking 0.1, the estimate is 10: the double nearest to 0.1 is a little
    above 0.1, the exact quotient of the two doubles a little below 10,
    and the double nearest to it is 10. *)
Example portion_estimate_rounds_the_quotient :
  fst (get_portion_estimates_endpoint admin (world_of kitchen_tea))
  = Ok [mkPortionEstimate 1 "Tea" 10]
  /\ fdiv 1 (float_of_Q 0.1) = float_of_Z 10
  /\ float_of_Q 0.1 = Fin 7205759403792794 (-56) eq_refl
  /\ Qfloor (1 / F2Q 7205759403792794 (-56)) = 9.
Proof.
  vm_compute. auto.
Qed.



(** ** C10: ingredients of missing products *)

(** C10.  [get_portion_estimates] skips an ingredient whose product does
    not exist.  For a meal with ingredients none of which names an existing
    product, nothing is folded into the accumulator, which is still
    [float("inf")] when the loop ends, and the call raises instead of
    returning estimates: [OverflowError], at [int(portions)] for this meal
    or earlier for a meal with an infinite quotient, unless a meal before
    it has a quotient that is NaN ([ValueError], from [math.floor]). *)
Theorem portion_estimates_overflow (w : world) (meal : Meal) :
  let d := committed w in
  let ingredients := ingredients_of (m_id meal) d in
  In meal (meals d) ->
  ingredients <> [] ->
  (forall i, In i ingredients -> product_by_id (mi_product_id i) d = None) ->
  availabilities d ingredients = []
  /\ fst (portions_loop ingredients (set_session d w)) = Ok PyFloatInf
  /\ (fst (get_db get_portion_estimates w)
      = Raise (OverflowError "cannot convert float infinity to integer")
      \/ fst (get_db get_portion_estimates w)
         = Raise (ValueError "cannot convert float NaN to integer"))
  /\ ((forall meal' i p,
         In meal' (meals d) ->
         In i (ingredients_of (m_id meal') d) ->
         product_by_id (mi_product_id i) d = Some p ->
         fdiv (p_quantity p) (mi_quantity i) <> NaN) ->
      fst (get_db get_portion_estimates w)
      = Raise (OverflowError "cannot convert float infinity to integer")).
Proof.
  intros d ingredients Hin Hne Hmissing.
  assert (Hav : availabilities d ingredients = []).
  { unfold availabilities. clear Hne.
    induction ingredients as [|i l IH]; simpl; [reflexivity|].
    rewrite (Hmissing i (or_introl eq_refl)). simpl.
    apply IH. intros j Hj. apply Hmissing. now right. }
  assert (Hexp : expected_portions d meal
                 = Raise (OverflowError
                            "cannot convert float infinity to integer")).
  { unfold expected_portions. fold ingredients.
    destruct ingredients as [|i0 rest] eqn:Ei; [congruence|].
    rewrite Hav. reflexivity. }
  destruct (expected_estimates_Raise d (meals d) [] meal _ Hin Hexp)
    as (meal' & e' & Hin' & He' & Hrun).
  rewrite get_portion_estimates_run. fold d. rewrite Hrun. cbn [fst].
  split; [exact Hav|]. split.
  { rewrite portions_loop_run. cbn [session set_session fst].
    fold ingredients. now rewrite Hav. }
  apply expected_portions_Raise in He' as He.
  split.
  - destruct He as [-> | [-> _]]; auto.
  - intros Hnan. destruct He as [-> | [_ (i & p & Hi & Hp & Hd)]];
      [reflexivity|].
    exfalso. exact (Hnan meal' i p Hin' Hi Hp Hd).
Qed.

Lemma portion_estimates_overflow_witness :
  In (mkMeal 1 "Breakfast") (meals kitchen_dangling)
  /\ availabilities kitchen_dangling (ingredients_of 1 kitchen_dangling) = []
  /\ fst (portions_loop (ingredients_of 1 kitchen_dangling)
            (set_session kitchen_dangling (world_of kitchen_dangling)))
     = Ok PyFloatInf
  /\ fst (get_db get_portion_estimates (world_of kitchen_dangling))
     = Raise (OverflowError "cannot convert float infinity to integer").
Proof.
  split; [simpl; auto|].
  destruct (portion_estimates_overflow (world_of kitchen_dangling)
              (mkMeal 1 "Breakfast")) as (H1 & H2 & _ & H4).
  - simpl; auto.
  - discriminate.
  - intros i [<- | []]. reflexivity.
  - split; [exact H1|]. split; [exact H2|].
    apply H4. intros meal' i p [<- | []] [<- | []] Hp. discriminate Hp.
Defined.

(** ** C3: [create_meal] and a missing product *)

(** C3 fails on the code.  Asked for a meal "Lunch" with one ingredient of
    an existing product and one of product 99, which does not exist,
    [create_meal] raises the 422 exception that names product 99, and no
    ingredient row is persisted, but the meal row is: it was committed at
    line 92, before the ingredients were looked at. *)
Theorem create_meal_leaves_meal_row :
  let '(r, w') := create_new_meal lunch_with_unknown_product admin
                    (world_of kitchen) in
  r = Raise (HTTPException 422 "Product with id 99 not found")
  /\ meals (committed w') = (meals kitchen ++ [mkMeal 3 "Lunch"])%list
  /\ meal_ingredients (committed w') = meal_ingredients kitchen
  /\ ingredients_of 3 (committed w') = [].
Proof.
  vm_compute. auto.
Qed.

Lemma wf_insert_meal (row : Meal) (d : database) :
  wf d ->
  m_id row = meals_id_seq d ->
  existsb (fun m => String.eqb (m_name m) (m_name row)) (meals d) = false ->
  wf (insert_meal row d).
Proof.
  intros [] Hid Hname. constructor; simpl; auto.
  - rewrite map_app. simpl. rewrite Hid. now apply distinct_fresh.
  - rewrite map_app. simpl. apply distinct_snoc; [assumption|].
    intros y Hy. apply in_map_iff in Hy as (m & <- & Hm).
    destruct (String.eqb (m_name m) (m_name row)) eqn:E; [|reflexivity].
    assert (existsb (fun m => String.eqb (m_name m) (m_name row))
              (meals d) = true)
      by (apply existsb_exists; eauto).
    congruence.
  - now apply forallb_below_succ.
Qed.

(** The loop of [create_meal] stops at the first ingredient whose product
    is missing and commits nothing (the ids of the request being of the
    range of the column). *)
Lemma create_meal_loop_missing (meal_id : Z)
  (ingredients : list MealIngredientBase) :
  forallb (fun i => int4 (mib_product_id i)) ingredients = true ->
  forall w,
    (exists i, In i ingredients
               /\ product_by_id (mib_product_id i) (session w) = None) ->
    exists i w',
      for_each ingredients
        (fun ingredient =>
           product <- select_first product_by_id
                        (mib_product_id ingredient) ;;
           match product with
           | None =>
               raise (HTTPException 422
                        ("Product with id "
                         ++ string_of_Z (mib_product_id ingredient)
                         ++ " not found"))
           | Some _ =>
               add_MealIngredient meal_id (mib_product_id ingredient)
                 (mib_quantity ingredient)
           end) w
      = (Raise (HTTPException 422
                  ("Product with id " ++ string_of_Z (mib_product_id i)
                   ++ " not found")), w')
      /\ In i ingredients
      /\ product_by_id (mib_product_id i) (session w) = None
      /\ committed w' = committed w.
Proof.
  induction ingredients as [|i0 rest IH]; intros Hrange w (i & Hin & Hmiss);
    [contradiction|].
  cbn [forallb] in Hrange. apply andb_true_iff in Hrange as [Hr0 Hrange].
  cbn [for_each]. unfold bind at 1. unfold bind at 1.
  destruct (product_by_id (mib_product_id i0) (session w)) as [p|] eqn:Ep.
  - rewrite (select_first_found _ _ _ _ Ep).
    destruct Hin as [-> | Hin]; [congruence|].
    unfold add_MealIngredient, modify at 1.
    destruct (IH Hrange (set_session
                    (insert_meal_ingredient
                       (mkMealIngredient meal_id (mib_product_id i0)
                          (mib_quantity i0)) (session w)) w))
      as (j & w' & Hrun & Hj & Hmj & Hc).
    { exists i. split; [exact Hin|exact Hmiss]. }
    exists j, w'. split; [exact Hrun|]. split; [now right|].
    split; [exact Hmj|exact Hc].
  - rewrite (select_first_absent _ _ _ Ep), Hr0.
    exists i0, w. unfold raise. repeat split; auto. now left.
Qed.

(** The same for every request: on a well-formed database without a meal
    of that name, a request with an ingredient of a missing product is
    answered by the 422 exception naming such a product, and what is
    committed afterwards is the former database plus the new meal row. *)
Lemma create_meal_orphan (w : world) (meal : MealCreate) :
  let d := committed w in
  well_formed d = true ->
  existsb (fun m => String.eqb (m_name m) (mc_name meal)) (meals d) = false ->
  forallb (fun i => int4 (mib_product_id i)) (mc_ingredients meal) = true ->
  (exists i, In i (mc_ingredients meal)
             /\ product_by_id (mib_product_id i) d = None) ->
  exists i w',
    get_db (create_meal meal) w
    = (Raise (HTTPException 422
                ("Product with id " ++ string_of_Z (mib_product_id i)
                 ++ " not found")), w')
    /\ In i (mc_ingredients meal)
    /\ product_by_id (mib_product_id i) d = None
    /\ committed w' = insert_meal (mkMeal (meals_id_seq d) (mc_name meal)) d.
Proof.
  intros d Hwf Hfresh Hrange Hmiss. apply well_formed_wf in Hwf.
  set (row := mkMeal (meals_id_seq d) (mc_name meal)).
  assert (Hwf1 : wf (insert_meal row d)) by (apply wf_insert_meal; auto).
  unfold get_db, create_meal.
  unfold bind at 1. unfold add_Meal at 1. cbn [session set_session].
  fold d row.
  unfold bind at 1. unfold commit at 1, bind at 1, flush at 1.
  cbn [session set_session]. rewrite (wf_no_violation _ Hwf1).
  unfold bind at 1. unfold refresh at 1, ret at 1.
  unfold bind at 1.
  match goal with
  | |- context [for_each _ _ ?w1] =>
      destruct (create_meal_loop_missing (m_id row) (mc_ingredients meal)
                  Hrange w1)
        as (i & w' & Hrun & Hi & Hmi & Hc); [exact Hmiss|]
  end.
  rewrite Hrun. exists i. eexists. split; [reflexivity|].
  cbn [committed set_session] in *. auto.
Qed.

(** ** C4: [delete_meal] *)

(** C4 fails on the code in its last part.  Breakfast exists and was never
    served; deleting it raises [AttributeError] at line 144, where the code
    asks a [Select] for a [delete] method, and the meal and its two
    ingredient rows stay. *)
Theorem delete_meal_without_servings_raises :
  let '(r, w') := delete_existing_meal 1 admin (world_of kitchen) in
  meal_by_id 1 kitchen = Some (mkMeal 1 "Breakfast")
  /\ servings_of 1 kitchen = []
  /\ r = Raise (AttributeError "'Select' object has no attribute 'delete'")
  /\ committed w' = kitchen.
Proof.
  vm_compute. auto.
Qed.

(** The first two parts of C4 hold: an absent meal is answered by 404 and
    a meal with a serving by the 400 conflict, and neither changes the
    database. *)
Lemma delete_meal_absent (w : world) (meal_id : Z) :
  meal_by_id meal_id (committed w) = None ->
  int4 meal_id = true ->
  get_db (delete_meal meal_id) w = (Ok None, set_session (committed w) w)
  /\ get_db (meal <- delete_meal meal_id ;;
             match meal with
             | None => raise (HTTPException 404 "Meal not found")
             | Some _ => ret "Meal deleted"
             end) w
     = (Raise (HTTPException 404 "Meal not found"),
        set_session (committed w) w).
Proof.
  intros H Hr.
  assert (E : select_first meal_by_id meal_id (set_session (committed w) w)
              = (Ok None, set_session (committed w) w)).
  { rewrite select_first_absent by exact H. now rewrite Hr. }
  unfold get_db, delete_meal, bind. rewrite E. split; reflexivity.
Qed.

Lemma delete_meal_conflict (w : world) (meal_id : Z) (db_meal : Meal) :
  meal_by_id meal_id (committed w) = Some db_meal ->
  servings_of meal_id (committed w) <> [] ->
  get_db (delete_meal meal_id) w
  = (Raise (HTTPException 400 "Cannot delete meal with existing servings"),
     set_session (committed w) w).
Proof.
  intros Hm Hs. unfold get_db, delete_meal. unfold bind at 1.
  rewrite (select_first_found meal_by_id meal_id db_meal); [|exact Hm].
  unfold bind, query. cbn [session set_session].
  destruct (servings_of meal_id (committed w)); [congruence|reflexivity].
Qed.

(** The third part fails for every meal: whenever the meal exists and has
    no serving, the call raises and the database is unchanged. *)
Lemma delete_meal_never_deletes (w : world) (meal_id : Z) (db_meal : Meal) :
  meal_by_id meal_id (committed w) = Some db_meal ->
  servings_of meal_id (committed w) = [] ->
  get_db (delete_meal meal_id) w
  = (Raise (AttributeError "'Select' object has no attribute 'delete'"),
     set_session (committed w) w).
Proof.
  intros Hm Hs. unfold get_db, delete_meal. unfold bind at 1.
  rewrite (select_first_found meal_by_id meal_id db_meal); [|exact Hm].
  unfold bind, query. cbn [session set_session].
  rewrite Hs. reflexivity.
Qed.

Example delete_meal_conflict_example :
  let '(r, w') := delete_existing_meal 1 admin (world_of kitchen_served) in
  r = Raise (HTTPException 400 "Cannot delete meal with existing servings")
  /\ committed w' = kitchen_served.
Proof.
  vm_compute. auto.
Qed.

(** ** C8: [calculate_discrepancy_rate] *)

(** C8 fails on the code.  The task calls the coroutine function
    [get_portion_estimates] without awaiting it and iterates over the
    coroutine object, so on every database it raises, after counting the
    servings and before any rate is computed; the handler re-raises with
    its own message. *)
Theorem calculate_discrepancy_rate_always_raises (w : world) :
  fst (get_db calculate_discrepancy_rate w)
  = Raise (Exception
             "Failed to calculate discrepancy rate: 'coroutine' object is not iterable").
Proof.
  reflexivity.
Qed.

(** The expression of line 61 itself is the rate of the specification: 0
    when nothing can be served, the percentage otherwise. *)
Lemma rate_of_zero_potential (servings_count : Z) :
  rate_of 0 servings_count = zero.
Proof. reflexivity. Qed.

Lemma rate_of_positive_potential (potential_portions servings_count : Z) :
  0 < potential_portions ->
  rate_of potential_portions servings_count
  = fmul (round (inject_Z (potential_portions - servings_count)
                 / inject_Z potential_portions)) (float_of_Z 100).
Proof.
  intros H. unfold rate_of. apply Z.ltb_lt in H. now rewrite H.
Qed.

(** * Further properties of the code *)

(** ** The request layer: schema and role *)

(** A body that fails its schema is refused with 422 before any handler
    runs: the world is untouched, session and clock included. *)
Theorem invalid_body_is_refused (w : world) (req : api_request) :
  body_valid req = false ->
  answer w req = (Raise (HTTPException 422 "Unprocessable Entity"), w).
Proof.
  destruct req; simpl; intros H; try discriminate;
    unfold create_new_product, update_existing_product, create_new_meal,
      update_existing_meal; rewrite H; reflexivity.
Qed.

Lemma invalid_body_is_refused_witness :
  body_valid (PostProduct (mkProductCreate "Bread" (-1) 5 None) admin) = false
  /\ answer (world_of kitchen)
       (PostProduct (mkProductCreate "Bread" (-1) 5 None) admin)
     = (Raise (HTTPException 422 "Unprocessable Entity"), world_of kitchen).
Proof.
  split; [reflexivity|].
  apply (invalid_body_is_refused (world_of kitchen)). reflexivity.
Defined.

(** A request whose body is valid but whose sender has none of the roles
    the endpoint asks for is answered by 403, and nothing is written,
    published or read from the clock. *)
Theorem unauthorized_request_is_refused (w : world) (req : api_request) :
  body_valid req = true ->
  role_in (allowed_roles req) (requester req) = false ->
  answer w req
  = (Raise (HTTPException 403 "Not authorized"),
     set_session (committed w) w).
Proof.
  destruct req; intros Hv Hr;
    cbn [body_valid allowed_roles requester] in Hv, Hr;
    unfold answer, create_new_product, update_existing_product,
      delete_existing_product, create_new_meal, update_existing_meal,
      delete_existing_meal, serve_meal_endpoint, get_db;
    rewrite ?Hv, Hr; reflexivity.
Qed.

Lemma unauthorized_request_is_refused_witness :
  role_in (allowed_roles (PostServeMeal (mkMealServingCreate 1)
                            (mkUser 3 "manager")))
    (mkUser 3 "manager") = false
  /\ answer (world_of kitchen)
       (PostServeMeal (mkMealServingCreate 1) (mkUser 3 "manager"))
     = (Raise (HTTPException 403 "Not authorized"),
        set_session kitchen (world_of kitchen)).
Proof.
  split; [reflexivity|].
  apply (unauthorized_request_is_refused (world_of kitchen)
           (PostServeMeal (mkMealServingCreate 1) (mkUser 3 "manager")));
    reflexivity.
Defined.

(** ** Absent rows *)





(** ** Replacing a row *)

Lemma first_split (pid : Z) (rows : list Product) (p0 : Product) :
  first (fun p => p_id p =? pid) rows = Some p0 ->
  exists l1 l2,
    rows = (l1 ++ p0 :: l2)%list
    /\ (forall x, In x l1 -> p_id x <> pid)
    /\ p_id p0 = pid
    /\ forall f, update_first pid f rows = (l1 ++ f p0 :: l2)%list.
Proof.
  unfold first.
  induction rows as [|r rest IH]; simpl; [discriminate|].
  destruct (p_id r =? pid) eqn:Er; simpl.
  - intros [= ->]. exists [], rest. apply Z.eqb_eq in Er.
    repeat split; auto; intros x [].
  - intros H. destruct (IH H) as (l1 & l2 & -> & Hl1 & Hid & Hupd).
    exists (r :: l1), l2. apply Z.eqb_neq in Er.
    repeat split; auto.
    + intros x [<- | Hx]; auto.
    + intros f. simpl. now rewrite Hupd.
Qed.

Lemma distinct_replace {A : Type} (eqb : A -> A -> bool)
  (l1 l2 : list A) (x x' : A) :
  (forall a b, eqb a b = eqb b a) ->
  distinct eqb (l1 ++ x :: l2) = true ->
  (forall y, In y (l1 ++ l2) -> eqb y x' = false) ->
  distinct eqb (l1 ++ x' :: l2) = true.
Proof.
  intros Hsym. induction l1 as [|a l1 IH]; simpl; intros Hd Hx'.
  - apply andb_true_iff in Hd as [_ Hl2]. rewrite Hl2, andb_true_r.
    apply negb_true_iff. apply not_true_is_false. intros He.
    apply existsb_exists in He as (y & Hy & He).
    rewrite Hsym, (Hx' y Hy) in He. discriminate.
  - apply andb_true_iff in Hd as [Ha Hrest].
    apply andb_true_iff. split.
    + apply negb_true_iff in Ha. rewrite existsb_app in Ha.
      apply orb_false_iff in Ha as [Ha1 Ha2]. simpl in Ha2.
      apply orb_false_iff in Ha2 as [_ Ha2].
      rewrite existsb_app, Ha1. simpl.
      rewrite (Hx' a (or_introl eq_refl)), Ha2. reflexivity.
    + apply IH; auto.
Qed.

Lemma distinct_ids_after (pid : Z) (l1 l2 : list Product) (p0 : Product) :
  distinct Z.eqb (map p_id (l1 ++ p0 :: l2)) = true ->
  p_id p0 = pid ->
  forall x, In x l2 -> p_id x <> pid.
Proof.
  intros Hd Hid x Hx Heq.
  apply distinct_Z_NoDup in Hd. rewrite map_app in Hd. simpl in Hd.
  apply NoDup_remove_2 in Hd. apply Hd. apply in_or_app. right.
  rewrite Hid, <- Heq. now apply in_map.
Qed.

Lemma String_eqb_sym (a b : string) : String.eqb a b = String.eqb b a.
Proof.
  destruct (String.eqb_spec a b) as [-> | Hne].
  - now rewrite String.eqb_refl.
  - symmetry. apply String.eqb_neq. congruence.
Qed.

(** Replacing the first row of an id by a row of the same id, whose name
    no other product bears, keeps the database well formed. *)
Lemma wf_replace_product (pid : Z) (row' db_product : Product)
  (d : database) :
  wf d ->
  product_by_id pid d = Some db_product ->
  p_id row' = p_id db_product ->
  forallb (fun p => (p_id p =? pid)
                    || negb (String.eqb (p_name p) (p_name row')))
    (products d) = true ->
  wf (with_products (update_first pid (fun _ => row') (products d)) d).
Proof.
  intros Hwf Hp Hid Hname. destruct Hwf.
  destruct (first_split pid (products d) db_product Hp)
    as (l1 & l2 & Hrows & Hl1 & Hid0 & Hupd).
  assert (Hl2 : forall x, In x l2 -> p_id x <> pid).
  { apply (distinct_ids_after pid l1 l2 db_product); [|exact Hid0].
    now rewrite <- Hrows. }
  constructor; simpl; auto; rewrite Hupd.
  - rewrite Hrows in wf_products_pkey0.
    rewrite map_app in *. simpl in *. now rewrite Hid.
  - rewrite Hrows in wf_products_name0. rewrite map_app in *. simpl in *.
    apply (distinct_replace String.eqb _ _ (p_name db_product));
      [apply String_eqb_sym|exact wf_products_name0|].
    intros y Hy. rewrite <- map_app in Hy.
    apply in_map_iff in Hy as (x & <- & Hx).
    rewrite forallb_forall in Hname.
    assert (Hin : In x (products d)).
    { rewrite Hrows. apply in_app_or in Hx as [Hx | Hx];
        apply in_or_app; [left|right; right]; exact Hx. }
    specialize (Hname x Hin).
    assert (Hne : p_id x <> pid)
      by (apply in_app_or in Hx as [Hx | Hx]; auto).
    apply Z.eqb_neq in Hne. rewrite Hne in Hname. simpl in Hname.
    now apply negb_true_iff in Hname.
  - rewrite Hrows in wf_products_seq0. rewrite forallb_app in *.
    simpl in *. now rewrite Hid.
Qed.

Lemma product_by_id_replace (pid other : Z) (row' db_product : Product)
  (d : database) :
  product_by_id pid d = Some db_product ->
  p_id row' = p_id db_product ->
  product_by_id other
    (with_products (update_first pid (fun _ => row') (products d)) d)
  = if other =? pid then Some row' else product_by_id other d.
Proof.
  intros Hp Hid.
  destruct (first_split pid (products d) db_product Hp)
    as (l1 & l2 & Hrows & Hl1 & Hid0 & Hupd).
  unfold product_by_id, first. simpl. rewrite Hupd, Hrows, !filter_app.
  simpl. rewrite Hid, Hid0.
  destruct (other =? pid) eqn:Eo.
  - apply Z.eqb_eq in Eo. subst other. rewrite Z.eqb_refl.
    assert (Hnil : filter (fun p => p_id p =? pid) l1 = []).
    { clear - Hl1. induction l1 as [|a l IH]; simpl; [reflexivity|].
      assert (Ha : p_id a <> pid) by (apply Hl1; now left).
      apply Z.eqb_neq in Ha. rewrite Ha. apply IH.
      intros x Hx. apply Hl1. now right. }
    now rewrite Hnil.
  - rewrite Z.eqb_sym in Eo. rewrite Eo. reflexivity.
Qed.

(** ** [update_product] *)

(** On a well-formed database, updating an existing product with a name no
    other product bears returns the product with the four fields of the
    request, [delivery_date] included (the client's value, [None] if it
    sent none); the product reads back so and no other product changes.
    The ledger grows by nothing when the new quantity equals the old one
    ([==] of Python), and otherwise by one entry for the product:
    "delivery" when the new quantity is above the old one, "adjustment"
    when it is not, recording [abs(new - old)] and user 1. *)
Theorem update_product_effects (w : world) (product_id : Z)
  (product : ProductCreate) (db_product : Product) :
  let d := committed w in
  let row' := mkProduct (p_id db_product) (pc_name product)
                (pc_quantity product) (pc_delivery_date product)
                (pc_threshold product) in
  well_formed d = true ->
  product_by_id product_id d = Some db_product ->
  forallb (fun p => (p_id p =? product_id)
                    || negb (String.eqb (p_name p) (pc_name product)))
    (products d) = true ->
  exists w',
    get_db (update_product product_id product) w = (Ok (Some row'), w')
    /\ (forall other,
          product_by_id other (committed w')
          = if other =? product_id then Some row'
            else product_by_id other d)
    /\ inventory_logs (committed w')
       = (inventory_logs d
          ++ if feq (p_quantity db_product) (pc_quantity product)
             then []
             else [mkInventoryLog (inventory_logs_id_seq d) product_id
                     (if flt (p_quantity db_product) (pc_quantity product)
                      then "delivery" else "adjustment")
                     (fabs (fsub (pc_quantity product)
                              (p_quantity db_product)))
                     (clock w (reads w)) 1])%list.
Proof.
  intros d row' Hwf Hp Hname. apply well_formed_wf in Hwf.
  set (d1 := with_products
               (update_first product_id (fun _ => row') (products d)) d).
  assert (Hwf1 : wf d1) by (now apply (wf_replace_product _ _ db_product)).
  assert (Hlook : forall other,
            product_by_id other d1
            = if other =? product_id then Some row'
              else product_by_id other d)
    by (intros other; now apply (product_by_id_replace _ _ _ db_product)).
  unfold get_db, update_product, bind at 1.
  rewrite (select_first_found product_by_id product_id db_product);
    [|exact Hp].
  cbn [session set_session]. fold d.
  unfold bind at 1, modify at 1. cbn [session set_session]. fold d row' d1.
  change (p_quantity row') with (pc_quantity product).
  unfold bind at 1, fne.
  destruct (feq (p_quantity db_product) (pc_quantity product)) eqn:Eq;
    cbn [negb].
  - unfold ret at 1, bind at 1, commit, bind, flush.
    cbn [session set_session]. rewrite (wf_no_violation _ Hwf1).
    unfold refresh, ret. cbn [session committed set_session].
    eexists. split; [reflexivity|].
    cbn [committed]. split; [exact Hlook|].
    unfold d1. simpl. now rewrite app_nil_r.
  - unfold bind at 1, utcnow at 1, add_InventoryLog.
    cbn [session set_session reads clock].
    set (entry := mkInventoryLog _ _ _ _ _ _).
    assert (Hwf2 : wf (insert_inventory_log entry d1))
      by (apply wf_insert_inventory_log; auto).
    unfold bind at 1, commit, bind, flush.
    cbn [session set_session]. rewrite (wf_no_violation _ Hwf2).
    unfold refresh, ret. cbn [session committed set_session].
    eexists. split; [reflexivity|].
    cbn [committed]. split; [|reflexivity].
    intros other. rewrite <- Hlook. reflexivity.
Qed.

Lemma update_product_effects_witness :
  well_formed kitchen = true
  /\ exists w',
       get_db (update_product 2 (mkProductCreate "Flour" 25 5 None))
         (world_of kitchen)
       = (Ok (Some (mkProduct 2 "Flour" 25 None 5)), w')
       /\ (forall other,
             product_by_id other (committed w')
             = if other =? 2 then Some (mkProduct 2 "Flour" 25 None 5)
               else product_by_id other kitchen)
       /\ inventory_logs (committed w')
          = [mkInventoryLog 1 2 "adjustment" (fabs (fsub 25 30)) 1000 1].
Proof.
  split; [reflexivity|].
  apply (update_product_effects (world_of kitchen) 2
           (mkProductCreate "Flour" 25 5 None) flour); reflexivity.
Defined.

(** ** [delete_product] *)

(** On a well-formed database, deleting an existing product is answered
    with the product, and the ledger grows by one "removal" entry that
    records the product's whole quantity and user 1; but the product row
    is still there afterwards, with the same quantity, and reads back:
    [db.delete(db_product)] at line 84 builds a coroutine that is never
    awaited, so the session is never told to delete the row. *)
Theorem delete_product_keeps_the_row (w : world) (product_id : Z)
  (db_product : Product) :
  let d := committed w in
  well_formed d = true ->
  product_by_id product_id d = Some db_product ->
  exists w',
    get_db (delete_product product_id) w = (Ok (Some db_product), w')
    /\ products (committed w') = products d
    /\ fst (get_db (get_product product_id) w') = Ok (Some db_product)
    /\ inventory_logs (committed w')
       = (inventory_logs d
          ++ [mkInventoryLog (inventory_logs_id_seq d) product_id "removal"
                (p_quantity db_product) (clock w (reads w)) 1])%list.
Proof.
  intros d Hwf Hp. apply well_formed_wf in Hwf.
  set (entry := mkInventoryLog (inventory_logs_id_seq d) product_id
                  "removal" (p_quantity db_product) (clock w (reads w)) 1).
  assert (Hwf1 : wf (insert_inventory_log entry d))
    by (apply wf_insert_inventory_log; auto).
  unfold get_db, delete_product, bind at 1.
  rewrite (select_first_found product_by_id product_id db_product);
    [|exact Hp].
  cbn [session set_session]. fold d.
  unfold bind, utcnow, add_InventoryLog, drop_coroutine, commit, bind,
    flush, ret.
  cbn [session set_session reads clock committed trace]. fold d entry.
  rewrite (wf_no_violation _ Hwf1).
  eexists. split; [reflexivity|].
  cbn [committed set_session session]. repeat split.
  unfold get_db, get_product.
  rewrite (select_first_found product_by_id product_id db_product);
    [reflexivity|].
  cbn [session set_session committed].
  unfold product_by_id in *. cbn [products insert_inventory_log].
  exact Hp.
Qed.

Lemma delete_product_keeps_the_row_witness :
  well_formed kitchen = true
  /\ exists w',
       get_db (delete_product 1) (world_of kitchen) = (Ok (Some milk), w')
       /\ products (committed w') = products kitchen
       /\ fst (get_db (get_product 1) w') = Ok (Some milk)
       /\ inventory_logs (committed w')
          = [mkInventoryLog 1 1 "removal" 100 1000 1].
Proof.
  split; [reflexivity|].
  apply (delete_product_keeps_the_row (world_of kitchen) 1 milk);
    reflexivity.
Defined.

(** ** [create_product] *)

Lemma distinct_snoc_dup {A : Type} (eqb : A -> A -> bool) (l : list A)
  (x : A) :
  existsb (fun y => eqb y x) l = true ->
  distinct eqb (l ++ [x]) = false.
Proof.
  induction l as [|a l IH]; simpl; [discriminate|].
  intros H. apply orb_true_iff in H as [Ha | Hl].
  - rewrite existsb_app. simpl. rewrite Ha, orb_true_r. reflexivity.
  - rewrite (IH Hl). apply andb_false_r.
Qed.

(** On a well-formed database, a product whose name is taken is refused at
    the flush of line 25, by the [IntegrityError] of the unique constraint
    on the name: the flush is outside the [try] of lines 34 to 40, so the
    error is not turned into the 400 "A product with that name already
    exists".  No row is persisted: the five tables are as they were.  The
    id the refused INSERT drew is lost: the sequence of the product ids
    has moved by one, the other sequences not at all. *)
Theorem create_product_duplicate_name (w : world) (product : ProductCreate) :
  let d := committed w in
  well_formed d = true ->
  existsb (fun p => String.eqb (p_name p) (pc_name product)) (products d)
  = true ->
  exists w',
    get_db (create_product product) w
    = (Raise (IntegrityError "products_name_key"), w')
    /\ committed w'
       = mkDatabase (products d) (meals d) (meal_ingredients d)
           (meal_servings d) (inventory_logs d) (products_id_seq d + 1)
           (meals_id_seq d) (meal_servings_id_seq d)
           (inventory_logs_id_seq d).
Proof.
  intros d Hwf Hdup. apply well_formed_wf in Hwf. destruct Hwf.
  unfold get_db, create_product, bind at 1, utcnow at 1.
  cbn [session set_session reads clock].
  unfold bind at 1, add_Product at 1. cbn [session set_session]. fold d.
  unfold bind at 1, flush at 1. cbn [session set_session].
  set (row := mkProduct _ _ _ _ _).
  assert (Hv : violated_constraint (insert_product row d)
               = Some "products_name_key").
  { unfold violated_constraint. cbn [products insert_product].
    rewrite !map_app. cbn [map].
    assert (H1 : distinct Z.eqb (map p_id (products d) ++ [p_id row]) = true)
      by (apply (distinct_fresh p_id (products d) (products_id_seq d));
          assumption).
    rewrite H1. cbn [negb]. rewrite distinct_snoc_dup; [reflexivity|].
    clear - Hdup. change (p_name row) with (pc_name product).
    induction (products d) as [|p l IH]; simpl in *; [discriminate|].
    apply orb_true_iff in Hdup as [H | H]; [now rewrite H|].
    rewrite (IH H). apply orb_true_r. }
  rewrite Hv. eexists. split; reflexivity.
Qed.

Lemma create_product_duplicate_name_witness :
  well_formed kitchen = true
  /\ exists w',
       get_db (create_product (mkProductCreate "Milk" 20 5 None))
         (world_of kitchen)
       = (Raise (IntegrityError "products_name_key"), w')
       /\ committed w'
          = mkDatabase (products kitchen) (meals kitchen)
              (meal_ingredients kitchen) [] [] 4 3 1 1.
Proof.
  split; [reflexivity|].
  apply (create_product_duplicate_name (world_of kitchen)
           (mkProductCreate "Milk" 20 5 None)); reflexivity.
Defined.

(** On a well-formed database without a product of that name,
    [create_product] adds exactly one product row, the one it returns, and
    exactly one ledger entry: a "delivery" of the product's quantity for
    the new product id and user 1.  No other table changes. *)
Theorem create_product_effects (w : world) (product : ProductCreate) :
  let d := committed w in
  well_formed d = true ->
  existsb (fun p => String.eqb (p_name p) (pc_name product)) (products d)
  = false ->
  exists created w',
    get_db (create_product product) w = (Ok created, w')
    /\ products (committed w') = (products d ++ [created])%list
    /\ inventory_logs (committed w')
       = (inventory_logs d
          ++ [mkInventoryLog (inventory_logs_id_seq d) (p_id created)
                "delivery" (pc_quantity product) (clock w (S (reads w)))
                1])%list
    /\ meals (committed w') = meals d
    /\ meal_ingredients (committed w') = meal_ingredients d
    /\ meal_servings (committed w') = meal_servings d
    /\ well_formed (committed w') = true.
Proof.
  intros d Hwf Hfresh. apply well_formed_wf in Hwf.
  set (row := mkProduct (products_id_seq d) (pc_name product)
                (pc_quantity product) (Some (clock w (reads w)))
                (pc_threshold product)).
  assert (Hwf1 : wf (insert_product row d))
    by (apply wf_insert_product; auto).
  set (entry := mkInventoryLog
                  (inventory_logs_id_seq (insert_product row d)) (p_id row)
                  "delivery" (pc_quantity product) (clock w (S (reads w))) 1).
  assert (Hwf2 : wf (insert_inventory_log entry (insert_product row d)))
    by (apply wf_insert_inventory_log; auto).
  exists row. eexists. split.
  - unfold get_db, create_product, bind, utcnow, add_Product, flush,
      add_InventoryLog, try_except, commit, flush, bind, refresh, ret,
      set_session.
    cbn [session committed trace clock reads]. fold d row.
    rewrite (wf_no_violation _ Hwf1).
    cbn [session committed trace clock reads]. fold entry.
    rewrite (wf_no_violation _ Hwf2).
    reflexivity.
  - cbn [committed]. repeat split. now apply well_formed_wf.
Qed.

Lemma create_product_effects_witness :
  well_formed kitchen = true
  /\ exists created w',
       get_db (create_product (mkProductCreate "Eggs" 20 5 (Some 77)))
         (world_of kitchen) = (Ok created, w')
       /\ products (committed w') = (products kitchen ++ [created])%list
       /\ inventory_logs (committed w')
          = [mkInventoryLog 1 (p_id created) "delivery" 20 1001 1]
       /\ meals (committed w') = meals kitchen
       /\ meal_ingredients (committed w') = meal_ingredients kitchen
       /\ meal_servings (committed w') = meal_servings kitchen
       /\ well_formed (committed w') = true.
Proof.
  split; [reflexivity|].
  apply (create_product_effects (world_of kitchen)
           (mkProductCreate "Eggs" 20 5 (Some 77))); reflexivity.
Defined.

(** ** [create_meal] *)

Lemma distinct_app {A : Type} (eqb : A -> A -> bool) (l1 l2 : list A) :
  distinct eqb l1 = true ->
  distinct eqb l2 = true ->
  (forall x y, In x l1 -> In y l2 -> eqb x y = false) ->
  distinct eqb (l1 ++ l2) = true.
Proof.
  induction l1 as [|a l1 IH]; simpl; intros H1 H2 Hx; [exact H2|].
  apply andb_true_iff in H1 as [Ha Hl1].
  apply andb_true_iff. split.
  - rewrite existsb_app, negb_orb, Ha. simpl.
    apply negb_true_iff, not_true_is_false. intros He.
    apply existsb_exists in He as (y & Hy & He).
    rewrite (Hx a y (or_introl eq_refl) Hy) in He. discriminate.
  - apply IH; auto.
Qed.

Lemma ingredient_rows_distinct (meal_id : Z)
  (ingredients : list MealIngredientBase) :
  distinct Z.eqb (map mib_product_id ingredients) = true ->
  distinct key_eqb (map ingredient_key (ingredient_rows meal_id ingredients))
  = true.
Proof.
  induction ingredients as [|i l IH]; simpl; intros H; [reflexivity|].
  apply andb_true_iff in H as [Hi Hl]. rewrite (IH Hl), andb_true_r.
  apply negb_true_iff in Hi. apply negb_true_iff, not_true_is_false.
  intros He. apply existsb_exists in He as (k & Hk & He).
  apply in_map_iff in Hk as (r & <- & Hr).
  apply in_map_iff in Hr as (j & <- & Hj).
  unfold key_eqb, ingredient_key in He. simpl in He.
  apply andb_true_iff in He as [_ He].
  assert (existsb (Z.eqb (mib_product_id i)) (map mib_product_id l) = true)
    by (apply existsb_exists; exists (mib_product_id j);
        split; [now apply in_map|exact He]).
  congruence.
Qed.

(** The loop of [create_meal] when every product is there: one row per
    ingredient of the request, in order. *)
Lemma create_meal_loop_ok (meal_id : Z)
  (ingredients : list MealIngredientBase) :
  forall w,
    forallb (fun i => match product_by_id (mib_product_id i) (session w) with
                      | Some _ => true
                      | None => false
                      end) ingredients = true ->
    for_each ingredients
      (fun ingredient =>
         product <- select_first product_by_id
                      (mib_product_id ingredient) ;;
         match product with
         | None =>
             raise (HTTPException 422
                      ("Product with id "
                       ++ string_of_Z (mib_product_id ingredient)
                       ++ " not found"))
         | Some _ =>
             add_MealIngredient meal_id (mib_product_id ingredient)
               (mib_quantity ingredient)
         end) w
    = (Ok tt,
       set_session
         (append_meal_ingredients (ingredient_rows meal_id ingredients)
            (session w)) w).
Proof.
  induction ingredients as [|i rest IH]; intros w Hall.
  - cbn [for_each ingredient_rows map]. unfold ret, set_session,
      append_meal_ingredients.
    rewrite app_nil_r. destruct w as [c s t k r]. destruct s. reflexivity.
  - cbn [forallb] in Hall. apply andb_true_iff in Hall as [Hi Hrest].
    cbn [for_each]. unfold bind at 1. unfold bind at 1.
    destruct (product_by_id (mib_product_id i) (session w)) as [p|] eqn:Ep;
      [|discriminate].
    rewrite (select_first_found _ _ _ _ Ep).
    unfold add_MealIngredient, modify at 1.
    rewrite IH by exact Hrest.
    unfold set_session, append_meal_ingredients, insert_meal_ingredient.
    cbn [session committed trace clock reads products meals meal_ingredients
         meal_servings inventory_logs products_id_seq meals_id_seq
         meal_servings_id_seq inventory_logs_id_seq ingredient_rows map].
    now rewrite <- app_assoc.
Qed.

Lemma wf_append_meal_ingredients (rows : list MealIngredient) (d : database) :
  wf d ->
  distinct key_eqb (map ingredient_key rows) = true ->
  (forall old new, In old (meal_ingredients d) -> In new rows ->
                   mi_meal_id old <> mi_meal_id new) ->
  wf (append_meal_ingredients rows d).
Proof.
  intros [] Hrows Hcross. constructor; simpl; auto.
  rewrite map_app. apply distinct_app; auto.
  intros x y Hx Hy.
  apply in_map_iff in Hx as (old & <- & Hold).
  apply in_map_iff in Hy as (new & <- & Hnew).
  unfold key_eqb, ingredient_key. simpl.
  specialize (Hcross old new Hold Hnew). apply Z.eqb_neq in Hcross.
  now rewrite Hcross.
Qed.

(** On a well-formed database in which no ingredient row bears the id the
    meal sequence hands out next, a request with a new meal name whose
    ingredients name existing, pairwise different products creates the
    meal: the meal returned carries the next id and the requested name and
    reads back by its id; its ingredient rows are those of the request, in
    order, each under the id of the new meal, whatever [meal_id] the
    client put in the ingredient; products, servings and ledger are
    untouched. *)
Theorem create_meal_round_trip (w : world) (meal : MealCreate) :
  let d := committed w in
  let created := mkMeal (meals_id_seq d) (mc_name meal) in
  well_formed d = true ->
  existsb (fun m => String.eqb (m_name m) (mc_name meal)) (meals d) = false ->
  forallb (fun i => match product_by_id (mib_product_id i) d with
                    | Some _ => true
                    | None => false
                    end) (mc_ingredients meal) = true ->
  distinct Z.eqb (map mib_product_id (mc_ingredients meal)) = true ->
  forallb (fun i => negb (mi_meal_id i =? meals_id_seq d))
    (meal_ingredients d) = true ->
  exists w',
    get_db (create_meal meal) w = (Ok created, w')
    /\ fst (get_db (get_meal (m_id created)) w') = Ok (Some created)
    /\ ingredients_of (m_id created) (committed w')
       = ingredient_rows (m_id created) (mc_ingredients meal)
    /\ meal_ingredients (committed w')
       = (meal_ingredients d
          ++ ingredient_rows (m_id created) (mc_ingredients meal))%list
    /\ products (committed w') = products d
    /\ meal_servings (committed w') = meal_servings d
    /\ inventory_logs (committed w') = inventory_logs d.
Proof.
  intros d created Hwf Hfresh Hprods Hdist Hnone.
  apply well_formed_wf in Hwf.
  assert (Hwf1 : wf (insert_meal created d))
    by (apply wf_insert_meal; auto).
  set (rows := ingredient_rows (m_id created) (mc_ingredients meal)).
  assert (Hwf2 : wf (append_meal_ingredients rows (insert_meal created d))).
  { apply wf_append_meal_ingredients; [exact Hwf1| |].
    - now apply ingredient_rows_distinct.
    - intros old new Hold Hnew. simpl in Hold.
      rewrite forallb_forall in Hnone. specialize (Hnone old Hold).
      apply negb_true_iff, Z.eqb_neq in Hnone.
      apply in_map_iff in Hnew as (i & <- & _). exact Hnone. }
  unfold get_db, create_meal.
  unfold bind at 1, add_Meal at 1. cbn [session set_session]. fold d created.
  unfold bind at 1, commit at 1, bind at 1, flush at 1.
  cbn [session set_session]. rewrite (wf_no_violation _ Hwf1).
  unfold bind at 1, refresh at 1, ret at 1. unfold bind at 1.
  rewrite create_meal_loop_ok by exact Hprods.
  cbn [session set_session committed trace clock reads]. fold rows.
  unfold bind at 1, commit at 1, bind at 1, flush at 1.
  cbn [session set_session]. rewrite (wf_no_violation _ Hwf2).
  unfold ret. eexists. split; [reflexivity|].
  cbn [committed set_session session].
  split; [|split; [|repeat split]].
  - unfold get_db, get_meal.
    rewrite (select_first_found meal_by_id (m_id created) created);
      [reflexivity|].
    unfold meal_by_id.
    cbn [session set_session committed meals append_meal_ingredients
         insert_meal].
    apply first_snoc_fresh; [|apply Z.eqb_refl].
    intros r Hr. destruct Hwf as [_ _ _ _ _ _ _ _ Hseq _ _].
    rewrite forallb_forall in Hseq. specialize (Hseq r Hr).
    apply Z.ltb_lt in Hseq. apply Z.eqb_neq. simpl. lia.
  - unfold ingredients_of.
    cbn [meal_ingredients append_meal_ingredients insert_meal].
    rewrite filter_app.
    assert (Hold : filter (fun i => mi_meal_id i =? m_id created)
                     (meal_ingredients d) = []).
    { clear - Hnone. simpl.
      induction (meal_ingredients d) as [|i l IH]; simpl in *;
        [reflexivity|].
      apply andb_true_iff in Hnone as [Hi Hl].
      apply negb_true_iff in Hi. rewrite Hi. auto. }
    rewrite Hold. simpl. unfold rows, ingredient_rows.
    clear. induction (mc_ingredients meal) as [|i l IH]; simpl;
      [reflexivity|].
    rewrite Z.eqb_refl. f_equal. exact IH.
Qed.

Lemma create_meal_round_trip_witness :
  well_formed kitchen = true
  /\ exists w',
       get_db (create_meal
                 (mkMealCreate "Lunch"
                    [mkMealIngredientBase 0 2 10; mkMealIngredientBase 9 1 5]))
         (world_of kitchen) = (Ok (mkMeal 3 "Lunch"), w')
       /\ fst (get_db (get_meal 3) w') = Ok (Some (mkMeal 3 "Lunch"))
       /\ ingredients_of 3 (committed w')
          = [mkMealIngredient 3 2 10; mkMealIngredient 3 1 5]
       /\ meal_ingredients (committed w')
          = (meal_ingredients kitchen
             ++ [mkMealIngredient 3 2 10; mkMealIngredient 3 1 5])%list
       /\ products (committed w') = products kitchen
       /\ meal_servings (committed w') = meal_servings kitchen
       /\ inventory_logs (committed w') = inventory_logs kitchen.
Proof.
  split; [reflexivity|].
  apply (create_meal_round_trip (world_of kitchen)
           (mkMealCreate "Lunch"
              [mkMealIngredientBase 0 2 10; mkMealIngredientBase 9 1 5]));
    reflexivity.
Defined.

(** On a well-formed database, a meal whose name is taken is refused by
    the [IntegrityError] of the unique constraint on the name, raised by
    the commit of line 92.  No row is persisted: the five tables are as
    they were.  The id the refused INSERT drew is lost: the sequence of
    the meal ids has moved by one, the other sequences not at all. *)
Theorem create_meal_duplicate_name (w : world) (meal : MealCreate) :
  let d := committed w in
  well_formed d = true ->
  existsb (fun m => String.eqb (m_name m) (mc_name meal)) (meals d) = true ->
  exists w',
    get_db (create_meal meal) w
    = (Raise (IntegrityError "meals_name_key"), w')
    /\ committed w'
       = mkDatabase (products d) (meals d) (meal_ingredients d)
           (meal_servings d) (inventory_logs d) (products_id_seq d)
           (meals_id_seq d + 1) (meal_servings_id_seq d)
           (inventory_logs_id_seq d).
Proof.
  intros d Hwf Hdup. apply well_formed_wf in Hwf. destruct Hwf.
  unfold get_db, create_meal.
  unfold bind at 1, add_Meal at 1. cbn [session set_session]. fold d.
  unfold bind at 1, commit at 1, bind at 1, flush at 1.
  cbn [session set_session].
  set (row := mkMeal _ _).
  assert (Hv : violated_constraint (insert_meal row d)
               = Some "meals_name_key").
  { unfold violated_constraint. cbn [products meals insert_meal].
    rewrite wf_products_pkey0, wf_products_name0. cbn [negb].
    rewrite !map_app. cbn [map].
    assert (H1 : distinct Z.eqb (map m_id (meals d) ++ [m_id row]) = true)
      by (apply (distinct_fresh m_id (meals d) (meals_id_seq d));
          assumption).
    rewrite H1. cbn [negb]. rewrite distinct_snoc_dup; [reflexivity|].
    clear - Hdup. change (m_name row) with (mc_name meal).
    induction (meals d) as [|m l IH]; simpl in *; [discriminate|].
    apply orb_true_iff in Hdup as [H | H]; [now rewrite H|].
    rewrite (IH H). apply orb_true_r. }
  rewrite Hv. eexists. split; reflexivity.
Qed.

Lemma create_meal_duplicate_name_witness :
  well_formed kitchen = true
  /\ exists w',
       get_db (create_meal (mkMealCreate "Breakfast" [])) (world_of kitchen)
       = (Raise (IntegrityError "meals_name_key"), w')
       /\ committed w'
          = mkDatabase (products kitchen) (meals kitchen)
              (meal_ingredients kitchen) [] [] 3 4 1 1.
Proof.
  split; [reflexivity|].
  apply (create_meal_duplicate_name (world_of kitchen)
           (mkMealCreate "Breakfast" [])); reflexivity.
Defined.

(** ** [update_meal] *)




(** ** The ledger and the servings only grow *)

Section Appending.

Variable I : database -> Prop.

(** [I] looks at the ledger and the servings only, and holds on when either
    grows at its end. *)
Hypothesis I_frame :
  forall d d', inventory_logs d' = inventory_logs d ->
               meal_servings d' = meal_servings d -> I d -> I d'.
Hypothesis I_log : forall l d, I d -> I (insert_inventory_log l d).
Hypothesis I_serving : forall s d, I d -> I (insert_meal_serving s d).

Lemma appending_of_tables (s d : database) :
  I d -> I (with_sequences_of s d).
Proof. intros H. apply (I_frame d); auto. Qed.

Lemma appending_add_InventoryLog (product_id : Z) (change_type : string)
  (quantity : float) (timestamp : datetime) (user_id : Z) :
  keeps I (add_InventoryLog product_id change_type quantity timestamp user_id).
Proof. intros w Hc Hs. simpl. auto. Qed.

Lemma appending_modify (f : database -> database) :
  (forall d, inventory_logs (f d) = inventory_logs d) ->
  (forall d, meal_servings (f d) = meal_servings d) ->
  keeps I (modify f).
Proof.
  intros Hl Hs. apply keeps_modify. intros d Hd.
  apply (I_frame d); auto.
Qed.

Lemma appending_create_product (product : ProductCreate) :
  keeps I (create_product product).
Proof.
  unfold create_product.
  apply keeps_bind; [apply keeps_utcnow|]. intros now.
  apply keeps_bind.
  { intros w Hc Hs. simpl. split; [exact Hc|].
    apply (I_frame (session w)); auto. }
  intros db_product.
  apply keeps_bind; [apply keeps_flush, appending_of_tables|]. intros _.
  apply keeps_bind; [apply keeps_utcnow|]. intros now'.
  apply keeps_bind; [apply appending_add_InventoryLog|]. intros _.
  apply keeps_bind; [|intros _; apply keeps_ret].
  apply keeps_try_except; [apply keeps_commit, appending_of_tables|].
  intros e. destruct e as [ | orig | | | | | | | | ];
    try apply keeps_raise.
  apply keeps_bind; [apply keeps_rollback|]. intros _.
  destruct (contains _ _); apply keeps_raise.
Qed.

Lemma appending_update_product (product_id : Z) (product : ProductCreate) :
  keeps I (update_product product_id product).
Proof.
  unfold update_product.
  apply keeps_bind; [apply keeps_select_first|]. intros [db_product|];
    [|apply keeps_ret].
  apply keeps_bind; [apply appending_modify; reflexivity|].
  intros _. apply keeps_bind.
  { destruct (fne _ _); [|apply keeps_ret].
    apply keeps_bind; [apply keeps_utcnow|]. intros now.
    apply appending_add_InventoryLog. }
  intros _. apply keeps_bind; [apply keeps_commit, appending_of_tables|].
  intros _. apply keeps_bind; [apply keeps_ret|]. intros; apply keeps_ret.
Qed.

Lemma appending_delete_product (product_id : Z) :
  keeps I (delete_product product_id).
Proof.
  unfold delete_product.
  apply keeps_bind; [apply keeps_select_first|]. intros [db_product|];
    [|apply keeps_ret].
  apply keeps_bind; [apply keeps_utcnow|]. intros now.
  apply keeps_bind; [apply appending_add_InventoryLog|]. intros _.
  apply keeps_bind; [apply keeps_ret|]. intros _.
  apply keeps_bind; [apply keeps_commit, appending_of_tables|].
  intros _. apply keeps_ret.
Qed.

Lemma appending_create_meal (meal : MealCreate) :
  keeps I (create_meal meal).
Proof.
  unfold create_meal.
  apply keeps_bind.
  { intros w Hc Hs. simpl. split; [exact Hc|].
    apply (I_frame (session w)); auto. }
  intros db_meal.
  apply keeps_bind; [apply keeps_commit, appending_of_tables|]. intros _.
  apply keeps_bind; [apply keeps_ret|]. intros db_meal'.
  apply keeps_bind;
    [|intros _; apply keeps_bind;
        [apply keeps_commit, appending_of_tables
        |intros _; apply keeps_ret]].
  apply keeps_for_each. intros ingredient.
  apply keeps_bind; [apply keeps_select_first|].
  intros [p|]; [|apply keeps_raise].
  apply appending_modify; reflexivity.
Qed.

Lemma appending_execute (s : statement) : keeps I (execute s).
Proof. destruct s. apply appending_modify; reflexivity. Qed.

Lemma appending_update_meal (meal_id : Z) (meal : MealCreate) :
  keeps I (update_meal meal_id meal).
Proof.
  unfold update_meal.
  apply keeps_bind; [apply keeps_select_first|]. intros [db_meal|];
    [|apply keeps_ret].
  apply keeps_bind; [apply appending_modify; reflexivity|]. intros _.
  apply keeps_bind; [apply keeps_raise|]. intros stmt.
  apply keeps_bind; [apply appending_execute|]. intros _.
  apply keeps_bind.
  { apply keeps_for_each. intros ingredient.
    apply appending_modify; reflexivity. }
  intros _. apply keeps_bind; [apply keeps_commit, appending_of_tables|].
  intros _. apply keeps_bind; [apply keeps_ret|]. intros; apply keeps_ret.
Qed.

Lemma appending_delete_meal (meal_id : Z) : keeps I (delete_meal meal_id).
Proof.
  unfold delete_meal.
  apply keeps_bind; [apply keeps_select_first|]. intros [db_meal|];
    [|apply keeps_ret].
  apply keeps_bind; [apply keeps_query|]. intros [|s rest];
    [|apply keeps_raise].
  apply keeps_bind; [apply keeps_raise|]. intros stmt.
  apply keeps_bind; [apply appending_execute|]. intros _.
  apply keeps_bind; [apply keeps_ret|]. intros _.
  apply keeps_bind; [apply keeps_commit, appending_of_tables|].
  intros _. apply keeps_ret.
Qed.

Lemma appending_serve_meal (meal_serving : MealServingCreate) (user_id : Z) :
  keeps I (serve_meal meal_serving user_id).
Proof.
  unfold serve_meal.
  apply keeps_bind_select_all. intros d _.
  destruct (ingredients_of (msc_meal_id meal_serving) d) as [|i0 rest];
    [apply keeps_raise|].
  apply keeps_bind; [apply keeps_ret|]. intros _.
  apply keeps_try_finally; [|apply keeps_ret].
  apply keeps_bind.
  { apply keeps_for_each. intros i. unfold serve_ingredient.
    apply keeps_bind; [apply keeps_query|]. intros [p|]; [|apply keeps_raise].
    destruct (flt _ _); [apply keeps_raise|].
    apply keeps_bind; [apply appending_modify; reflexivity|]. intros _.
    apply keeps_bind; [apply keeps_utcnow|]. intros now.
    apply keeps_bind; [apply appending_add_InventoryLog|]. intros _.
    apply keeps_publish. }
  intros _. apply keeps_bind; [apply keeps_utcnow|]. intros now.
  apply keeps_bind; [intros w Hc Hs; simpl; auto|]. intros serving.
  apply keeps_bind; [apply keeps_commit, appending_of_tables|].
  intros _. apply keeps_ret.
Qed.

Lemma appending_after (w : world) (req : api_request) :
  I (committed w) -> I (committed (after w req)).
Proof.
  intros H. unfold after, answer.
  destruct req as [product u | product_id product u | product_id u
                  | meal u | meal_id meal u | meal_id u | meal_serving u];
    cbn [snd].
  - unfold create_new_product.
    destruct (ProductCreate_valid product); [|exact H].
    apply get_db_keeps; [|exact H].
    destruct (role_in _ u); [|apply keeps_raise].
    apply keeps_bind; [apply appending_create_product|].
    intros p. apply keeps_ProductSchema_validate.
  - unfold update_existing_product.
    destruct (ProductCreate_valid product); [|exact H].
    apply get_db_keeps; [|exact H].
    destruct (role_in _ u); [|apply keeps_raise].
    apply keeps_bind; [apply appending_update_product|].
    intros [p|]; [apply keeps_ProductSchema_validate|apply keeps_raise].
  - unfold delete_existing_product.
    apply get_db_keeps; [|exact H].
    destruct (role_in _ u); [|apply keeps_raise].
    apply keeps_bind; [apply appending_delete_product|].
    intros [p|]; [apply keeps_ret|apply keeps_raise].
  - unfold create_new_meal.
    destruct (MealCreate_valid meal); [|exact H].
    apply get_db_keeps; [|exact H].
    destruct (role_in _ u); [apply appending_create_meal|].
    apply keeps_raise.
  - unfold update_existing_meal.
    destruct (MealCreate_valid meal); [|exact H].
    apply get_db_keeps; [|exact H].
    destruct (role_in _ u); [|apply keeps_raise].
    apply keeps_bind; [apply appending_update_meal|].
    intros [m|]; [apply keeps_ret|apply keeps_raise].
  - unfold delete_existing_meal.
    apply get_db_keeps; [|exact H].
    destruct (role_in _ u); [|apply keeps_raise].
    apply keeps_bind; [apply appending_delete_meal|].
    intros [m|]; [apply keeps_ret|apply keeps_raise].
  - unfold serve_meal_endpoint.
    apply get_db_keeps; [|exact H].
    destruct (role_in _ u); [apply appending_serve_meal|apply keeps_raise].
Qed.

End Appending.

(** No sequence of requests removes or rewrites a ledger entry or a
    serving: after the requests, the ledger and the table of servings are
    what they were, with rows added at the end. *)
Theorem ledger_and_servings_only_grow (w : world)
  (requests : list api_request) :
  exists entries servings,
    inventory_logs (committed (fold_left after requests w))
    = (inventory_logs (committed w) ++ entries)%list
    /\ meal_servings (committed (fold_left after requests w))
       = (meal_servings (committed w) ++ servings)%list.
Proof.
  set (I := fun logs0 servings0 (d : database) =>
              (exists entries, inventory_logs d = (logs0 ++ entries)%list)
              /\ (exists servings,
                    meal_servings d = (servings0 ++ servings)%list)).
  assert (Hstep : forall logs0 servings0 w req,
            I logs0 servings0 (committed w) ->
            I logs0 servings0 (committed (after w req))).
  { intros logs0 servings0 w0 req. apply appending_after; unfold I.
    - intros d d' Hl Hs. now rewrite Hl, Hs.
    - intros l d [(entries & He) Hs]. split; [|exact Hs]. simpl.
      exists (entries ++ [l])%list. now rewrite He, app_assoc.
    - intros s d [Hl (servings & Hs)]. split; [exact Hl|]. simpl.
      exists (servings ++ [s])%list. now rewrite Hs, app_assoc. }
  assert (Hall : forall w0,
            I (inventory_logs (committed w)) (meal_servings (committed w))
              (committed w0) ->
            I (inventory_logs (committed w)) (meal_servings (committed w))
              (committed (fold_left after requests w0))).
  { induction requests as [|req rest IH]; intros w0 H; simpl; auto. }
  destruct (Hall w) as [(entries & He) (servings & Hs)].
  { split; exists []; now rewrite app_nil_r. }
  eauto.
Qed.

(** ** No negative quantity anywhere *)



(** ** Serving, then deleting or estimating again *)

(** What a successful [serve_meal] has committed. *)
Lemma serve_meal_ok_committed (w : world) (meal_serving : MealServingCreate)
  (user_id : Z) (serving : MealServing) (w' : world) :
  let ingredients :=
    ingredients_of (msc_meal_id meal_serving) (committed w) in
  NoDup (map mi_product_id ingredients) ->
  get_db (serve_meal meal_serving user_id) w = (Ok serving, w') ->
  ingredients <> []
  /\ forallb (sufficient (committed w)) ingredients = true
  /\ ms_meal_id serving = msc_meal_id meal_serving
  /\ committed w'
     = insert_meal_serving serving
         (consume_all user_id (clock w) (reads w) ingredients (committed w)).
Proof.
  intros ingredients Hnd Hrun.
  destruct (serve_meal_ok_inv w meal_serving user_id serving w' Hnd Hrun)
    as (Hne & Hall).
  rewrite (serve_meal_run_sufficient w meal_serving user_id Hnd Hne Hall)
    in Hrun.
  destruct (violated_constraint _); [discriminate|].
  injection Hrun as <- <-. auto.
Qed.

(** Once a meal that exists has been served, [delete_meal] refuses it with
    the 400 conflict, and the refusal changes nothing. *)
Theorem served_meal_cannot_be_deleted (w : world)
  (meal_serving : MealServingCreate) (user_id : Z) (serving : MealServing)
  (w' : world) (db_meal : Meal) :
  distinct key_eqb (map ingredient_key (meal_ingredients (committed w)))
  = true ->
  meal_by_id (msc_meal_id meal_serving) (committed w) = Some db_meal ->
  get_db (serve_meal meal_serving user_id) w = (Ok serving, w') ->
  get_db (delete_meal (msc_meal_id meal_serving)) w'
  = (Raise (HTTPException 400 "Cannot delete meal with existing servings"),
     set_session (committed w') w').
Proof.
  intros Hkey Hmeal Hrun.
  pose proof (ingredients_of_NoDup (msc_meal_id meal_serving) _ Hkey) as Hnd.
  destruct (serve_meal_ok_committed w meal_serving user_id serving w' Hnd Hrun)
    as (_ & _ & Hid & Hc).
  destruct (consume_all_frame user_id (clock w)
              (ingredients_of (msc_meal_id meal_serving) (committed w))
              (reads w) (committed w)) as (Hm & _ & _ & _).
  apply (delete_meal_conflict w' _ db_meal).
  - rewrite Hc. unfold meal_by_id in *. cbn [meals insert_meal_serving].
    now rewrite Hm.
  - rewrite Hc. unfold servings_of. cbn [meal_servings insert_meal_serving].
    rewrite filter_app. cbn [filter]. rewrite Hid, Z.eqb_refl.
    intros H. apply app_eq_nil in H as [_ H]. discriminate.
Qed.

Lemma served_meal_cannot_be_deleted_witness :
  let run := get_db (serve_meal (mkMealServingCreate 1) 2)
               (world_of kitchen) in
  fst (get_db (delete_meal 1) (snd run))
  = Raise (HTTPException 400 "Cannot delete meal with existing servings").
Proof.
  intros run.
  assert (Hrun : run = (Ok (mkMealServing 1 1 2 1002), snd run))
    by (vm_compute; reflexivity).
  pose proof (served_meal_cannot_be_deleted (world_of kitchen)
                (mkMealServingCreate 1) 2 (mkMealServing 1 1 2 1002)
                (snd run) (mkMeal 1 "Breakfast") eq_refl eq_refl Hrun) as H.
  cbn [msc_meal_id] in H. rewrite H. reflexivity.
Defined.

(** ** The estimate and the serving agree *)

Lemma sufficient_iff_avail (d : database) (i : MealIngredient) (p : Product)
  (n : Z) :
  product_by_id (mi_product_id i) d = Some p ->
  flt zero (mi_quantity i) = true ->
  avail p i = Ok n ->
  (sufficient d i = true <-> 1 <= n).
Proof.
  intros Hp Hq Hav. unfold sufficient. rewrite Hp, negb_true_iff.
  symmetry. now apply avail_ge_1_iff.
Qed.

(** For a meal whose ingredients all take a positive quantity of an
    existing product: one portion or more is expected exactly when the
    meal has ingredients and the stock covers each. *)
Lemma expected_ge_1_iff_sufficient (d : database) (meal : Meal) (n : Z) :
  (forall i, In i (ingredients_of (m_id meal) d) ->
             flt zero (mi_quantity i) = true
             /\ product_by_id (mi_product_id i) d <> None) ->
  expected_portions d meal = Ok n ->
  (1 <= n <->
   ingredients_of (m_id meal) d <> []
   /\ forallb (sufficient d) (ingredients_of (m_id meal) d) = true).
Proof.
  intros Hpos Hexp. apply expected_portions_Ok in Hexp.
  destruct (ingredients_of (m_id meal) d) as [|i0 rest] eqn:Ei.
  - subst n. split; [lia|]. intros [H _]. congruence.
  - destruct Hexp as (zs & Hz & Hmin).
    apply minimum_spec in Hmin as [Hin Hle].
    split.
    + intros Hn. split; [discriminate|].
      apply forallb_forall. intros i Hi.
      destruct (Hpos i Hi) as [Hq Hex].
      destruct (product_by_id (mi_product_id i) d) as [p|] eqn:Ep;
        [|congruence].
      assert (H : In (avail p i) (availabilities d (i0 :: rest)))
        by (apply availabilities_spec; eauto).
      rewrite Hz in H. apply in_map_iff in H as (z & Hz' & Hzin).
      apply (sufficient_iff_avail d i p z Ep Hq); [now symmetry|].
      specialize (Hle z Hzin). lia.
    + intros [_ Hall]. rewrite forallb_forall in Hall.
      assert (H : In (Ok n) (availabilities d (i0 :: rest)))
        by (rewrite Hz; apply in_map; exact Hin).
      apply availabilities_spec in H as (i & p & Hi & Hp & Hr).
      destruct (Hpos i Hi) as [Hq _].
      apply (sufficient_iff_avail d i p n Hp Hq); [now symmetry|]. auto.
Qed.

Lemma Forall2_In_r {A B : Type} (R : A -> B -> Prop) (l : list A)
  (l' : list B) (b : B) :
  Forall2 R l l' -> In b l' -> exists a, In a l /\ R a b.
Proof.
  induction 1 as [|x y l l' Hxy Hl IH]; simpl; [contradiction|].
  intros [<- | Hb]; [eauto|].
  destruct (IH Hb) as (a & Ha & Hab). eauto.
Qed.

(** What [get_portion_estimates] returned is, entry by entry, the expected
    portions of a meal of the table. *)
Lemma estimate_of_meal (w : world) (estimates : list PortionEstimate)
  (w1 : world) (e : PortionEstimate) :
  get_db get_portion_estimates w = (Ok estimates, w1) ->
  In e estimates ->
  exists meal,
    In meal (meals (committed w))
    /\ pe_meal_id e = m_id meal
    /\ pe_name e = m_name meal
    /\ expected_portions (committed w) meal = Ok (pe_portions e).
Proof.
  rewrite get_portion_estimates_run. intros [= H _] Hin.
  apply expected_estimates_Ok in H as (added & -> & Hall).
  cbn [app] in Hin.
  destruct (Forall2_In_r _ _ _ _ Hall Hin) as (meal & Hmeal & H1 & H2 & H3).
  eauto.
Qed.

Lemma serve_meal_succeeds_iff (w : world) (meal_serving : MealServingCreate)
  (user_id : Z) :
  let ingredients :=
    ingredients_of (msc_meal_id meal_serving) (committed w) in
  well_formed (committed w) = true ->
  ((exists serving w',
      get_db (serve_meal meal_serving user_id) w = (Ok serving, w'))
   <-> ingredients <> []
       /\ forallb (sufficient (committed w)) ingredients = true).
Proof.
  intros ingredients Hwf. apply well_formed_wf in Hwf.
  pose proof (ingredients_of_NoDup (msc_meal_id meal_serving) _
                (wf_ingredients_pkey _ Hwf)) as Hnd.
  split.
  - intros (serving & w' & Hrun).
    exact (serve_meal_ok_inv w meal_serving user_id serving w' Hnd Hrun).
  - intros [Hne Hall].
    rewrite (serve_meal_run_sufficient w meal_serving user_id Hnd Hne Hall).
    rewrite wf_no_violation; [eauto|].
    apply wf_insert_meal_serving; [|reflexivity].
    now apply wf_consume_all.
Qed.

(** The estimate tells whether the meal can be served.  On a well-formed
    database, for an estimate returned by [get_portion_estimates] whose
    meal has only ingredients that take a positive quantity of an existing
    product: the estimate is 1 or more exactly when [serve_meal] returns a
    serving for that meal.  (A meal without ingredients is estimated at 0
    and refused.) *)
Theorem estimate_tells_whether_meal_is_served (w : world)
  (estimates : list PortionEstimate) (w1 : world) (e : PortionEstimate)
  (user_id : Z) :
  let d := committed w in
  well_formed d = true ->
  get_db get_portion_estimates w = (Ok estimates, w1) ->
  In e estimates ->
  (forall i, In i (ingredients_of (pe_meal_id e) d) ->
             flt zero (mi_quantity i) = true
             /\ product_by_id (mi_product_id i) d <> None) ->
  (1 <= pe_portions e <->
   exists serving w',
     get_db (serve_meal (mkMealServingCreate (pe_meal_id e)) user_id) w
     = (Ok serving, w')).
Proof.
  intros d Hwf Hrun Hin Hpos.
  destruct (estimate_of_meal w estimates w1 e Hrun Hin)
    as (meal & _ & Hid & _ & Hexp).
  rewrite Hid in Hpos.
  rewrite (serve_meal_succeeds_iff w (mkMealServingCreate (pe_meal_id e))
             user_id Hwf).
  cbn [msc_meal_id]. rewrite Hid.
  exact (expected_ge_1_iff_sufficient d meal (pe_portions e) Hpos Hexp).
Qed.

Lemma estimate_tells_whether_meal_is_served_witness :
  let run := get_db get_portion_estimates (world_of kitchen) in
  run = (Ok [mkPortionEstimate 1 "Breakfast" 1;
             mkPortionEstimate 2 "EmptyMeal" 0], snd run)
  /\ (1 <= 1 <->
      exists serving w',
        get_db (serve_meal (mkMealServingCreate 1) 2) (world_of kitchen)
        = (Ok serving, w')).
Proof.
  intros run.
  assert (Hrun : run = (Ok [mkPortionEstimate 1 "Breakfast" 1;
                            mkPortionEstimate 2 "EmptyMeal" 0], snd run))
    by (vm_compute; reflexivity).
  split; [exact Hrun|].
  apply (estimate_tells_whether_meal_is_served (world_of kitchen) _ (snd run)
           (mkPortionEstimate 1 "Breakfast" 1) 2 eq_refl Hrun).
  - simpl; auto.
  - intros i [<- | [<- | []]]; split;
      solve [reflexivity | discriminate].
Defined.

(** ** Serving raises no estimate *)

(** What line 164 leaves of a stock [q] that passed the test of line 162
    for an ingredient that takes a positive quantity [i]: a number between
    0 and [q], or what is neither when [q] is not a number or is
    infinite. *)
Lemma served_quantity (q i : float) :
  flt zero i = true -> flt q i = false ->
  (exists m e H m' e' H',
     q = Fin m e H /\ fsub q i = Fin m' e' H'
     /\ (0 <= F2Q m' e' <= F2Q m e)%Q)
  \/ q = NaN
  \/ q = Inf false.
Proof.
  intros Hi Hq.
  destruct (flt_zero_pos i Hi) as [_ [->|(mi & ei & Hci & -> & Hpos)]].
  - destruct q as [|[]|m e H]; try discriminate; auto.
  - destruct q as [|[]|m e H]; try discriminate; auto.
    left. apply flt_fin_false in Hq. cbn [fsub].
    assert (H0 : fle zero (round (F2Q m e - F2Q mi ei)) = true)
      by (apply round_nonneg; lra).
    assert (H1 : fle (round (F2Q m e - F2Q mi ei)) (Fin m e H) = true)
      by (apply round_le_fin; lra).
    destruct (round (F2Q m e - F2Q mi ei)) as [|[]|m' e' H'];
      try discriminate.
    exists m, e, H, m', e', H'. repeat split.
    + apply fle_fin in H0. rewrite F2Q_zero in H0. exact H0.
    + now apply fle_fin in H1.
Qed.

(** Line 198 after the serving gives no more than before, and an [int]
    where it gave one. *)
Lemma avail_after_serving (p : Product) (i j : MealIngredient) (k : Z) :
  flt zero (mi_quantity i) = true ->
  flt (p_quantity p) (mi_quantity i) = false ->
  avail p j = Ok k ->
  exists k',
    avail (set_quantity (fsub (p_quantity p) (mi_quantity i)) p) j = Ok k'
    /\ k' <= k.
Proof.
  intros Hi Hq Hav. apply avail_contributes in Hav.
  destruct (flt zero (mi_quantity j)) eqn:Hj.
  - destruct Hav as (m0 & e0 & H0 & Hdiv & ->).
    destruct (served_quantity _ _ Hi Hq)
      as [(m & e & H & m' & e' & H' & Eq & Eq' & Hlo & Hhi)|[Eq|Eq]].
    + rewrite Eq in Hdiv.
      destruct (flt_zero_pos _ Hj) as [_ [Ej|(mj & ej & Hcj & Ej & Hpos)]].
      * exists (Qfloor (F2Q m0 e0)). split; [|lia].
        apply avail_contributes. rewrite Hj. cbn [p_quantity set_quantity].
        rewrite Eq'. rewrite Ej in *. exists m0, e0, H0. auto.
      * rewrite Ej in Hdiv. cbn [fdiv] in Hdiv.
        assert (Hinv : (0 <= / F2Q mj ej)%Q)
          by (apply Qinv_le_0_compat; lra).
        assert (Hle : (F2Q m' e' / F2Q mj ej <= F2Q m e / F2Q mj ej)%Q)
          by (unfold Qdiv; now apply Qmult_le_compat_r).
        assert (H1 : fle (round (F2Q m' e' / F2Q mj ej)) (Fin m0 e0 H0)
                     = true)
          by (rewrite <- Hdiv; now apply round_mono).
        assert (H2 : fle zero (round (F2Q m' e' / F2Q mj ej)) = true).
        { apply round_nonneg. unfold Qdiv.
          now apply Qmult_le_0_compat. }
        destruct (round (F2Q m' e' / F2Q mj ej)) as [|[]|m1 e1 H1'] eqn:Er;
          try discriminate.
        exists (Qfloor (F2Q m1 e1)). split.
        -- apply avail_contributes. rewrite Hj.
           cbn [p_quantity set_quantity]. rewrite Eq', Ej. cbn [fdiv].
           rewrite Er. exists m1, e1, H1'. auto.
        -- apply Qfloor_resp_le. now apply fle_fin in H1.
    + rewrite Eq in Hdiv. destruct (mi_quantity j); discriminate.
    + rewrite Eq in Hdiv. destruct (mi_quantity j); discriminate.
  - subst k. exists 0. split; [|lia].
    apply avail_contributes. now rewrite Hj.
Qed.

Lemma fold_min_mono (l' l : list Z) :
  Forall2 Z.le l' l ->
  forall x' x, x' <= x -> fold_left Z.min l' x' <= fold_left Z.min l x.
Proof.
  induction 1 as [|a' a l' l Ha Hl IH]; simpl; intros x' x Hx; [exact Hx|].
  apply IH. lia.
Qed.

Lemma minimum_mono (l' l : list Z) (n : Z) :
  Forall2 Z.le l' l -> minimum l = Some n ->
  exists n', minimum l' = Some n' /\ n' <= n.
Proof.
  intros H. destruct H as [|a' a t' t Ha Ht]; simpl; [discriminate|].
  intros [= <-]. eexists. split; [reflexivity|].
  now apply fold_min_mono.
Qed.

Section AfterServing.

(** The stock [d] before, and [consume_all user_id clk n served d] after,
    the ingredients [served] went through the loop of [serve_meal]. *)
Variables (user_id : Z) (clk : nat -> datetime) (n : nat).
Variable served : list MealIngredient.
Variable d : database.

Hypothesis served_NoDup : NoDup (map mi_product_id served).
Hypothesis served_sufficient : forallb (sufficient d) served = true.
Hypothesis served_positive :
  forall i, In i served -> flt zero (mi_quantity i) = true.

Lemma after_serving_missing (pid : Z) :
  product_by_id pid d = None ->
  product_by_id pid (consume_all user_id clk n served d) = None.
Proof.
  intros H.
  rewrite consume_all_products_other; [exact H|].
  intros Hin. apply in_map_iff in Hin as (i & <- & Hi).
  rewrite forallb_forall in served_sufficient.
  specialize (served_sufficient i Hi). unfold sufficient in *.
  now rewrite H in served_sufficient.
Qed.

Lemma after_serving_avail (j : MealIngredient) (p : Product) (k : Z) :
  product_by_id (mi_product_id j) d = Some p ->
  avail p j = Ok k ->
  exists p' k',
    product_by_id (mi_product_id j) (consume_all user_id clk n served d)
    = Some p'
    /\ avail p' j = Ok k' /\ k' <= k.
Proof.
  intros H Hav.
  destruct (in_dec Z.eq_dec (mi_product_id j) (map mi_product_id served))
    as [Hin | Hnot].
  - apply in_map_iff in Hin as (i & Hid & Hi).
    rewrite <- Hid in *.
    rewrite (consume_all_products_same user_id clk served i p
               served_NoDup Hi n d H).
    pose proof served_sufficient as Hs. rewrite forallb_forall in Hs.
    specialize (Hs i Hi). unfold sufficient in Hs. rewrite H in Hs.
    apply negb_true_iff in Hs.
    destruct (avail_after_serving p i j k (served_positive i Hi) Hs Hav)
      as (k' & Hk' & Hle).
    eauto.
  - rewrite consume_all_products_other by exact Hnot.
    exists p, k. repeat split; [exact H|exact Hav|lia].
Qed.

Lemma availabilities_after_serving (l : list MealIngredient) :
  forall zs,
    availabilities d l = map Ok zs ->
    exists zs',
      availabilities (consume_all user_id clk n served d) l = map Ok zs'
      /\ Forall2 Z.le zs' zs.
Proof.
  unfold availabilities.
  induction l as [|j l IH]; intros zs; cbn [flat_map].
  - intros H. destruct zs; [|discriminate]. exists []. split; constructor.
  - destruct (product_by_id (mi_product_id j) d) as [p|] eqn:Ep.
    + cbn [app]. destruct zs as [|z zs]; [discriminate|]. cbn [map].
      intros [= Hz Hrest].
      destruct (after_serving_avail j p z Ep Hz) as (p' & k' & -> & Hk & Hle).
      destruct (IH zs Hrest) as (zs' & Hzs' & Hall).
      exists (k' :: zs'). cbn [app map]. rewrite Hk, Hzs'.
      split; [reflexivity|]. constructor; assumption.
    + rewrite (after_serving_missing _ Ep). cbn [app]. apply IH.
Qed.

End AfterServing.

(** The outer loop on two states of the rows of which the second expects
    no more for any meal than the first. *)
Lemma expected_estimates_le (d d' : database) (all_meals : list Meal) :
  (forall meal k, expected_portions d meal = Ok k ->
                  exists k', expected_portions d' meal = Ok k' /\ k' <= k) ->
  forall estimates estimates' result,
    Forall2 (fun e1 e2 =>
               pe_meal_id e2 = pe_meal_id e1
               /\ pe_name e2 = pe_name e1
               /\ pe_portions e2 <= pe_portions e1) estimates estimates' ->
    expected_estimates d all_meals estimates = Ok result ->
    exists result',
      expected_estimates d' all_meals estimates' = Ok result'
      /\ Forall2 (fun e1 e2 =>
                    pe_meal_id e2 = pe_meal_id e1
                    /\ pe_name e2 = pe_name e1
                    /\ pe_portions e2 <= pe_portions e1) result result'.
Proof.
  intros Hexp.
  induction all_meals as [|meal rest IH]; intros estimates estimates' result
    Hall; cbn [expected_estimates].
  - intros [= <-]. eauto.
  - destruct (expected_portions d meal) as [k|e] eqn:Ek; [|discriminate].
    destruct (Hexp meal k Ek) as (k' & -> & Hle).
    apply IH. apply Forall2_app; [exact Hall|].
    constructor; [|constructor]. cbn. auto.
Qed.

(** Serving a meal raises no estimate.  When every ingredient of the meal
    takes a positive quantity and [get_portion_estimates] returned
    estimates before a successful [serve_meal], it returns estimates again
    afterwards, for the same meals in the same order, and none is larger
    than before.  (The estimate of the served meal need not be smaller by
    1: the quotients are rounded.) *)
Theorem serving_raises_no_estimate (w : world)
  (meal_serving : MealServingCreate) (user_id : Z) (serving : MealServing)
  (w2 : world) (before : list PortionEstimate) (w1 : world) :
  let d := committed w in
  distinct key_eqb (map ingredient_key (meal_ingredients d)) = true ->
  (forall i, In i (ingredients_of (msc_meal_id meal_serving) d) ->
             flt zero (mi_quantity i) = true) ->
  get_db get_portion_estimates w = (Ok before, w1) ->
  get_db (serve_meal meal_serving user_id) w = (Ok serving, w2) ->
  exists after_serving w3,
    get_db get_portion_estimates w2 = (Ok after_serving, w3)
    /\ Forall2 (fun e1 e2 =>
                  pe_meal_id e2 = pe_meal_id e1
                  /\ pe_name e2 = pe_name e1
                  /\ pe_portions e2 <= pe_portions e1)
         before after_serving.
Proof.
  intros d Hkey Hpos Hest Hrun.
  pose proof (ingredients_of_NoDup (msc_meal_id meal_serving) _ Hkey) as Hnd.
  destruct (serve_meal_ok_committed w meal_serving user_id serving w2 Hnd Hrun)
    as (Hne & Hall & _ & Hc).
  fold d in Hnd, Hne, Hall, Hc.
  set (served := ingredients_of (msc_meal_id meal_serving) d) in *.
  set (d1 := consume_all user_id (clock w) (reads w) served d) in *.
  destruct (consume_all_frame user_id (clock w) served (reads w) d)
    as (Hmeals & Hings & _ & _). fold d1 in Hmeals, Hings.
  assert (Hav : forall l, availabilities (committed w2) l
                          = availabilities d1 l).
  { intros l. rewrite Hc. reflexivity. }
  assert (Hio : forall mid, ingredients_of mid (committed w2)
                            = ingredients_of mid d).
  { intros mid. rewrite Hc. unfold ingredients_of.
    cbn [meal_ingredients insert_meal_serving]. now rewrite Hings. }
  assert (Hexp : forall meal k,
            expected_portions d meal = Ok k ->
            exists k', expected_portions (committed w2) meal = Ok k'
                       /\ k' <= k).
  { intros meal k Hk. apply expected_portions_Ok in Hk.
    destruct (ingredients_of (m_id meal) d) as [|i0 rest] eqn:Ei.
    - subst k. exists 0. split; [|lia].
      apply expected_portions_Ok. now rewrite Hio, Ei.
    - destruct Hk as (zs & Hzs & Hmin).
      destruct (availabilities_after_serving user_id (clock w) (reads w)
                  served d Hnd Hall Hpos (i0 :: rest) zs Hzs)
        as (zs' & Hzs' & Hle).
      destruct (minimum_mono _ _ k Hle Hmin) as (k' & Hk' & Hkle).
      exists k'. split; [|exact Hkle].
      apply expected_portions_Ok. rewrite Hio, Ei, Hav. eauto. }
  rewrite get_portion_estimates_run in Hest. fold d in Hest.
  injection Hest as Hest _.
  assert (Hmeals2 : meals (committed w2) = meals d)
    by (rewrite Hc; exact Hmeals).
  rewrite get_portion_estimates_run, Hmeals2.
  destruct (expected_estimates_le d (committed w2) (meals d) Hexp [] []
              before (Forall2_nil _) Hest) as (result' & -> & Hres).
  eauto.
Qed.

Lemma serving_raises_no_estimate_witness :
  let w := world_of kitchen in
  let served := get_db (serve_meal (mkMealServingCreate 1) 2) w in
  exists after_serving w3,
    get_db get_portion_estimates (snd served) = (Ok after_serving, w3)
    /\ Forall2 (fun e1 e2 =>
                  pe_meal_id e2 = pe_meal_id e1
                  /\ pe_name e2 = pe_name e1
                  /\ pe_portions e2 <= pe_portions e1)
         [mkPortionEstimate 1 "Breakfast" 1;
          mkPortionEstimate 2 "EmptyMeal" 0]
         after_serving.
Proof.
  intros w served.
  assert (Hest : get_db get_portion_estimates w
                 = (Ok [mkPortionEstimate 1 "Breakfast" 1;
                        mkPortionEstimate 2 "EmptyMeal" 0],
                    snd (get_db get_portion_estimates w)))
    by (vm_compute; reflexivity).
  assert (Hrun : served = (Ok (mkMealServing 1 1 2 1002), snd served))
    by (vm_compute; reflexivity).
  apply (serving_raises_no_estimate w (mkMealServingCreate 1) 2
           (mkMealServing 1 1 2 1002) (snd served)
           [mkPortionEstimate 1 "Breakfast" 1;
            mkPortionEstimate 2 "EmptyMeal" 0]
           (snd (get_db get_portion_estimates w)) eq_refl).
  - intros i [<- | [<- | []]]; reflexivity.
  - exact Hest.
  - exact Hrun.
Defined.

(** ** The 400 of [create_product] *)

Lemma violated_after_log (l : InventoryLog) (d : database) (c : string) :
  violated_constraint d = None ->
  violated_constraint (insert_inventory_log l d) = Some c ->
  c = "inventory_logs_pkey".
Proof.
  intros Hd. apply violated_constraint_None in Hd
    as (H1 & H2 & H3 & H4 & H5 & H6 & _).
  unfold violated_constraint.
  cbn [products meals meal_ingredients meal_servings inventory_logs
       insert_inventory_log].
  rewrite H1, H2, H3, H4, H5, H6. cbn [negb].
  destruct (distinct Z.eqb (map il_id (inventory_logs d ++ [l])));
    cbn [negb]; intros E; [discriminate E|now injection E].
Qed.

Lemma create_product_outcome (w : world) (product : ProductCreate) :
  match fst (create_product product w) with
  | Ok _ => True
  | Raise (IntegrityError _) => True
  | Raise _ => False
  end.
Proof.
  unfold create_product, bind at 1, utcnow at 1.
  unfold bind at 1, add_Product at 1.
  unfold bind at 1, flush at 1. cbn [session set_session].
  set (s1 := insert_product _ _).
  destruct (violated_constraint s1) eqn:E1; [exact I|].
  unfold bind at 1, utcnow at 1. unfold bind at 1, add_InventoryLog at 1.
  cbn [session set_session reads clock committed trace].
  set (s2 := insert_inventory_log _ _).
  unfold bind at 1, try_except, commit, bind, flush.
  cbn [session set_session].
  destruct (violated_constraint s2) as [c|] eqn:E2.
  - rewrite (violated_after_log _ _ _ E1 E2).
    unfold rollback. cbn. exact I.
  - cbn. exact I.
Qed.

(** [create_product] never raises the 400 "A product with that name
    already exists" that its handler of lines 36 to 39 is written for: a
    name that is taken is found by the flush, outside the [try], and what
    the commit inside the [try] can still find is not about names.  So the
    endpoint answers a request to create a product with the product, with
    422 or 403, or with an [IntegrityError], and never with 400. *)
Theorem create_product_never_answers_400 (w : world)
  (product : ProductCreate) (u : User) (detail : string) :
  fst (create_product product w) <> Raise (HTTPException 400 detail)
  /\ fst (create_new_product product u w)
     <> Raise (HTTPException 400 detail).
Proof.
  assert (H : forall w0, fst (create_product product w0)
                         <> Raise (HTTPException 400 detail)).
  { intros w0 E. pose proof (create_product_outcome w0 product) as Ho.
    rewrite E in Ho. exact Ho. }
  split; [apply H|].
  unfold create_new_product.
  destruct (ProductCreate_valid product); [|discriminate].
  unfold get_db. destruct (role_in _ u).
  - specialize (H (set_session (committed w) w)). unfold bind.
    destruct (create_product product _) as [[created|e] w'];
      [|exact H].
    unfold ProductSchema_validate.
    destruct (p_delivery_date created); discriminate.
  - discriminate.
Qed.

(** ** An ingredient that takes nothing *)

(** The schema lets an ingredient take a quantity of 0.  On a well-formed
    database with non-negative stock, a meal that has an ingredient whose
    quantity is not above 0 and whose ingredients the stock covers can be
    served, and yet every estimate [get_portion_estimates] returns for it
    is 0: the estimator counts the ingredient as available 0 times, the
    serving engine as covered. *)
Theorem zero_quantity_ingredient (w : world) (meal_id : Z)
  (i0 : MealIngredient) (user_id : Z) :
  let d := committed w in
  well_formed d = true ->
  stock_nonneg d ->
  In i0 (ingredients_of meal_id d) ->
  flt zero (mi_quantity i0) = false ->
  forallb (sufficient d) (ingredients_of meal_id d) = true ->
  (exists serving w',
     get_db (serve_meal (mkMealServingCreate meal_id) user_id) w
     = (Ok serving, w'))
  /\ forall estimates w1 e,
       get_db get_portion_estimates w = (Ok estimates, w1) ->
       In e estimates ->
       pe_meal_id e = meal_id ->
       pe_portions e = 0.
Proof.
  intros d Hwf Hstock Hi0 Hq0 Hall. split.
  - apply (serve_meal_succeeds_iff w (mkMealServingCreate meal_id) user_id
             Hwf).
    cbn [msc_meal_id]. split; [|exact Hall].
    intros E. fold d in E. rewrite E in Hi0. contradiction.
  - intros estimates w1 e Hrun Hin Hid.
    destruct (estimate_of_meal w estimates w1 e Hrun Hin)
      as (meal & _ & Hid' & _ & Hexp).
    fold d in Hexp. apply expected_portions_Ok in Hexp.
    rewrite <- Hid', Hid in Hexp.
    destruct (ingredients_of meal_id d) as [|i1 rest] eqn:Ei;
      [contradiction|].
    destruct Hexp as (zs & Hzs & Hmin).
    apply minimum_spec in Hmin as [Hmem Hle].
    assert (Hlow : pe_portions e <= 0).
    { rewrite forallb_forall in Hall. specialize (Hall i0 Hi0).
      unfold sufficient in Hall.
      destruct (product_by_id (mi_product_id i0) d) as [p|] eqn:Ep;
        [|discriminate].
      assert (Hz : avail p i0 = Ok 0)
        by (apply avail_contributes; now rewrite Hq0).
      apply Hle. apply in_map_Ok. rewrite <- Hzs, <- Hz.
      apply availabilities_spec. eauto. }
    assert (Hhigh : 0 <= pe_portions e).
    { apply in_map_Ok in Hmem. rewrite <- Hzs in Hmem.
      apply availabilities_spec in Hmem as (i & p & _ & Hp & Hav).
      apply (avail_nonneg p i); [|now symmetry].
      apply first_some_in in Hp as [Hp _].
      unfold stock_nonneg in Hstock. rewrite Forall_forall in Hstock.
      auto. }
    lia.
Qed.

Lemma zero_quantity_ingredient_witness :
  let d := mkDatabase [milk] [mkMeal 1 "Water and milk"]
             [mkMealIngredient 1 1 0] [] [] 2 2 1 1 in
  (exists serving w',
     get_db (serve_meal (mkMealServingCreate 1) 2) (world_of d)
     = (Ok serving, w'))
  /\ forall estimates w1 e,
       get_db get_portion_estimates (world_of d) = (Ok estimates, w1) ->
       In e estimates ->
       pe_meal_id e = 1 ->
       pe_portions e = 0.
Proof.
  intros d.
  apply (zero_quantity_ingredient (world_of d) 1 (mkMealIngredient 1 1 0) 2).
  - reflexivity.
  - repeat constructor.
  - simpl; auto.
  - reflexivity.
  - reflexivity.
Defined.

(** ** [generate_monthly_report] *)

Lemma add_to_report_nonneg (logs : list InventoryLog) :
  Forall (fun l => counted l = true -> fle zero (il_quantity l) = true) logs ->
  forall report,
    fle zero (fst report) = true -> fle zero (snd report) = true ->
    fle zero (fst (fold_left add_to_report logs report)) = true
    /\ fle zero (snd (fold_left add_to_report logs report)) = true.
Proof.
  induction 1 as [|l logs Hl Hlogs IH]; simpl; intros report H1 H2; [auto|].
  unfold counted in Hl.
  apply IH; unfold add_to_report;
    destruct (String.eqb (il_change_type l) "delivery");
    try destruct (String.eqb (il_change_type l) "consumption");
    simpl; auto; apply fadd_nonneg; auto.
Qed.

(** What the requests keep of the entries the report adds up: each is a
    number that is 0 or more, as long as no ingredient takes less than
    0. *)
Lemma counted_after_all (requests : list api_request) (w : world) :
  quantities_nonneg (committed w) ->
  counted_nonneg (committed (fold_left after requests w)).
Proof.
  intros (Hp & Hi & Hl).
  apply (quantities_after_all (fun _ => True)
           (fun q => fle zero q = true)
           (fun l => counted l = true -> fle zero (il_quantity l) = true)).
  - auto.
  - auto.
  - auto.
  - intros id pid q t u Hq _. exact Hq.
  - intros id pid old new t u _ Hnew _.
    destruct (flt old new) eqn:E; [|discriminate].
    intros _. cbn [il_quantity]. apply fabs_nonneg.
    now apply fsub_of_greater.
  - intros id pid q t u _. discriminate.
  - intros id pid q t u Hq _. exact Hq.
  - repeat split.
    + apply Forall_forall. auto.
    + exact Hi.
    + apply Forall_forall. intros l Hin _.
      unfold ledger_nonneg in Hl. rewrite Forall_forall in Hl. auto.
Qed.

(** After any sequence of requests from a database without negative
    quantities, [generate_monthly_report] returns a report (it does not
    raise) whose window ends at the reading of the clock and starts 30
    days before it, whose two totals are non-negative, and writes
    nothing. *)
Theorem monthly_report_totals_are_nonneg (w : world)
  (requests : list api_request) :
  quantities_nonneg (committed w) ->
  let w0 := fold_left after requests w in
  exists report w',
    get_db generate_monthly_report w0 = (Ok report, w')
    /\ mr_end_date report = clock w0 (reads w0)
    /\ mr_start_date report = mr_end_date report - thirty_days
    /\ fle zero (mr_total_deliveries report) = true
    /\ fle zero (mr_total_consumption report) = true
    /\ committed w' = committed w0.
Proof.
  intros H w0.
  pose proof (counted_after_all requests w H) as Hl.
  fold w0 in Hl. unfold counted_nonneg in Hl.
  unfold get_db, generate_monthly_report, try_finally, try_except, bind,
    utcnow, query, ret, rollback.
  cbn [session set_session committed clock reads trace].
  eexists. eexists. split; [reflexivity|].
  cbn [mr_end_date mr_start_date mr_total_deliveries mr_total_consumption
       committed set_session].
  repeat split.
  - apply add_to_report_nonneg; try reflexivity.
    apply Forall_forall. intros l Hin. apply filter_In in Hin as [Hin _].
    rewrite Forall_forall in Hl. auto.
  - apply add_to_report_nonneg; try reflexivity.
    apply Forall_forall. intros l Hin. apply filter_In in Hin as [Hin _].
    rewrite Forall_forall in Hl. auto.
Qed.

Lemma monthly_report_totals_are_nonneg_witness :
  let w0 := fold_left after
              [PostServeMeal (mkMealServingCreate 1) cook;
               PostProduct (mkProductCreate "Eggs" 20 5 None) admin]
              (world_of kitchen) in
  exists report w',
    get_db generate_monthly_report w0 = (Ok report, w')
    /\ mr_end_date report = clock w0 (reads w0)
    /\ mr_start_date report = mr_end_date report - thirty_days
    /\ fle zero (mr_total_deliveries report) = true
    /\ fle zero (mr_total_consumption report) = true
    /\ committed w' = committed w0.
Proof.
  apply (monthly_report_totals_are_nonneg (world_of kitchen)).
  repeat split; repeat constructor.
Defined.

(** ** The low-inventory list *)

Lemma update_first_first (R : Product -> Product -> Prop) (pid : Z)
  (f : Product -> Product) (rows : list Product) :
  (forall p, R p p) ->
  (forall p, first (fun p => p_id p =? pid) rows = Some p -> R p (f p)) ->
  Forall2 R rows (update_first pid f rows).
Proof.
  intros Hrefl. induction rows as [|p rows IH]; simpl; intros Hf;
    [constructor|].
  unfold first in Hf. simpl in Hf.
  destruct (p_id p =? pid) eqn:E.
  - constructor; [apply Hf; reflexivity|].
    clear - Hrefl. induction rows; constructor; auto.
  - constructor; [apply Hrefl|]. apply IH. exact Hf.
Qed.

Lemma Forall2_compose {A : Type} (R : A -> A -> Prop) (l1 l2 l3 : list A) :
  (forall x y z, R x y -> R y z -> R x z) ->
  Forall2 R l1 l2 -> Forall2 R l2 l3 -> Forall2 R l1 l3.
Proof.
  intros Htrans H12. revert l3.
  induction H12 as [|x y l1 l2 Hxy H12 IH]; intros l3 H23;
    inversion H23; subst; constructor; eauto.
Qed.

Lemma stays_listed_refl (p : Product) : stays_listed p p.
Proof. repeat split. auto. Qed.

Lemma stays_listed_trans (x y z : Product) :
  stays_listed x y -> stays_listed y z -> stays_listed x z.
Proof.
  intros (H1 & H2 & H3) (H4 & H5 & H6). repeat split; try congruence.
  intros Ht Hlow. apply H6; [congruence|]. now apply H3.
Qed.

(** Row by row, serving leaves the id and the threshold of a product, and
    leaves it below a threshold that is a number, when no ingredient takes
    a negative quantity. *)
Lemma consume_all_stays_listed (user_id : Z) (clk : nat -> datetime)
  (l : list MealIngredient) :
  NoDup (map mi_product_id l) ->
  (forall i, In i l -> fle zero (mi_quantity i) = true) ->
  forall n d,
    forallb (sufficient d) l = true ->
    Forall2 stays_listed (products d)
      (products (consume_all user_id clk n l d)).
Proof.
  induction l as [|i l IH]; simpl; intros Hnd Hq n d Hall.
  - induction (products d); constructor; auto using stays_listed_refl.
  - inversion Hnd as [|? ? Hnotin Hrest]; subst.
    apply andb_true_iff in Hall as [Hi Hall].
    apply Forall2_compose with (products (consume_db user_id clk n i d)).
    + apply stays_listed_trans.
    + simpl. unfold consume. apply update_first_first.
      * apply stays_listed_refl.
      * intros p Hp. repeat split. cbn [p_quantity p_threshold set_quantity].
        intros Ht Hlow. unfold sufficient, product_by_id in Hi.
        rewrite Hp in Hi. apply negb_true_iff in Hi.
        apply fsub_keeps_below; auto.
    + apply IH; [exact Hrest|intros j Hj; apply Hq; now right|].
      rewrite forallb_forall in Hall. apply forallb_forall. intros j Hj.
      rewrite sufficient_consume_db_other; [now apply Hall|].
      intros E. apply Hnotin. rewrite E. now apply in_map.
Qed.

(** A threshold that is not a number: the product with an infinite stock
    is on the low-inventory list, NaN being above every number for the
    server, and off it once the meal was served, its stock being NaN. *)
Example serving_with_a_threshold_not_a_number :
  let run := get_db (serve_meal (mkMealServingCreate 1) 2)
               (world_of kitchen_without_threshold) in
  (exists serving, fst run = Ok serving)
  /\ map p_id (low_inventory kitchen_without_threshold) = [1]
  /\ map p_id (low_inventory (committed (snd run))) = [].
Proof.
  cbv zeta. split; [eexists; vm_compute; reflexivity|].
  split; vm_compute; reflexivity.
Qed.

(** Serving never takes a product off the low-inventory list of
    [get_notifications]: when no ingredient of the meal takes a negative
    quantity and every threshold is a number (the schema lets in no
    other), every product that is below its threshold before a successful
    [serve_meal] is below it afterwards. *)
Theorem serving_keeps_low_inventory (w : world)
  (meal_serving : MealServingCreate) (user_id : Z) (serving : MealServing)
  (w2 : world) :
  let d := committed w in
  distinct key_eqb (map ingredient_key (meal_ingredients d)) = true ->
  (forall i, In i (ingredients_of (msc_meal_id meal_serving) d) ->
             fle zero (mi_quantity i) = true) ->
  (forall p, In p (products d) -> p_threshold p <> NaN) ->
  get_db (serve_meal meal_serving user_id) w = (Ok serving, w2) ->
  incl (map p_id (low_inventory d)) (map p_id (low_inventory (committed w2))).
Proof.
  intros d Hkey Hq Hth Hrun.
  pose proof (ingredients_of_NoDup (msc_meal_id meal_serving) _ Hkey) as Hnd.
  destruct (serve_meal_ok_committed w meal_serving user_id serving w2 Hnd Hrun)
    as (_ & Hall & _ & Hc).
  rewrite Hc. unfold low_inventory. cbn [products insert_meal_serving].
  pose proof (consume_all_stays_listed user_id (clock w) _ Hnd Hq (reads w) d
                Hall) as Hrel.
  fold d in Hrel |- *.
  induction Hrel as [|p p' l l' (Hid & Heq & Hlow) Hrel IH]; simpl;
    [intros x []|].
  assert (IH' : incl
                  (map p_id
                     (filter (fun p => pg_lt (p_quantity p) (p_threshold p))
                        l))
                  (map p_id
                     (filter (fun p => pg_lt (p_quantity p) (p_threshold p))
                        l')))
    by (apply IH; intros q Hin; apply Hth; now right).
  destruct (pg_lt (p_quantity p) (p_threshold p)) eqn:Elow.
  - rewrite (Hlow (Hth p (or_introl eq_refl)) eq_refl).
    simpl. rewrite Hid.
    intros x [<- | Hx]; [now left|right; now apply IH'].
  - destruct (pg_lt (p_quantity p') (p_threshold p')); simpl;
      intros x Hx; [right|]; now apply IH'.
Qed.

Lemma serving_keeps_low_inventory_witness :
  let d := with_products [mkProduct 1 "Milk" 100 (Some 0) 10;
                          mkProduct 2 "Flour" 30 (Some 0) 40] kitchen in
  let run := get_db (serve_meal (mkMealServingCreate 1) 2) (world_of d) in
  incl (map p_id (low_inventory d))
    (map p_id (low_inventory (committed (snd run)))).
Proof.
  intros d run.
  assert (Hrun : run = (Ok (mkMealServing 1 1 2 1002), snd run))
    by (vm_compute; reflexivity).
  apply (serving_keeps_low_inventory (world_of d) (mkMealServingCreate 1) 2
           (mkMealServing 1 1 2 1002) (snd run) eq_refl).
  - intros i [<- | [<- | []]]; reflexivity.
  - intros p [<- | [<- | []]]; discriminate.
  - exact Hrun.
Defined.
